(** * Claims import, export and dashboard: a shallow embedding

    The development follows the Python sources of the claims application:

    - [claims/models.py]: the [Claim], [ClaimDetail], [ClaimNote] and
      [ClaimFlag] tables;
    - [claims/admin.py]: the preview of a note ([content_preview]);
    - [claims/management/commands/import_claims.py]: the bulk loader
      ([handle], [import_claims], [import_claim_details]);
    - [claims/views.py]: the dashboard aggregates ([dashboard]), the upload
      entry point ([handle_csv_upload], [validate_csv_files]), the export
      generators ([generate_claims_csv], [generate_details_csv]) and the
      views that list, search and annotate the claims ([claim_list],
      [claim_detail], [toggle_flag], [add_note], [update_status],
      [search_claims]).

    Exceptions are values of [exn]; a computation that may raise returns a
    sum [exn + A].  A run of the loader returns the store it leaves, what
    it wrote to its output, and either its count or the exception that
    ended it.  The record store is a pair of finite maps keyed by the
    claim id; the notes and the flags are two more maps, keyed as the
    database numbers their rows.

    What the sources take from Python and from the database is written
    out as far as the program depends on it:

    - text is ASCII text ([string]); [int], [Decimal] and [strptime] are
      given on ASCII digits and white space, with the exception class each
      raises;
    - [csv.reader] is the reader of the default dialect with the pipe as
      delimiter, quoting included, fed by a text file with universal
      newlines; its limit on the size of a field is left out;
    - amounts are kept in hundredths, a longer fraction being rounded
      half-even as the two-place column does; the limit on the number of
      digits is left out of the loader, and the properties of the export
      and of the views are stated for amounts within it;
    - [date.strftime] writes the year as the C library does, without
      padding;
    - [bulk_create(..., ignore_conflicts=True)] is the INSERT OR IGNORE of
      SQLite, the database whose [strftime] the monthly grouping of the
      dashboard calls;
    - sums are exact and averages are exact rationals: the rounding of the
      floating point in which the database adds up is left out;
    - the time stamps of a run come from a clock given to it. *)

From Stdlib Require Import ZArith Ascii String List Lia QArith Qcanon.
From stdpp Require Import base option list gmap strings sorting.

Open Scope string_scope.
Open Scope list_scope.
Open Scope Z_scope.

(** ** Python exceptions and results *)

(** The exception classes the loader can meet.  [InvalidOperation] is
    [decimal.InvalidOperation], a subclass of [ArithmeticError]; it is
    neither a [ValueError] nor a [KeyError]. *)
Inductive exn : Set :=
  | ValueError
  | KeyError
  | TypeError
  | InvalidOperation
  | StopIteration
  | CommandError.

Global Instance exn_eq_dec : EqDecision exn.
Proof. solve_decision. Defined.

Definition result (A : Type) : Type := (exn + A)%type.

Definition raise {A} (e : exn) : result A := inl e.
Definition ret {A} (a : A) : result A := inr a.

Global Instance result_bind : MBind result := λ A B k m,
  match m with
  | inl e => inl e
  | inr a => k a
  end.

(** ** Characters and digits *)

Module Py.

Definition code (c : ascii) : Z := Z.of_N (N_of_ascii c).

Definition is_digit (c : ascii) : bool := (48 <=? code c) && (code c <=? 57).

Definition digit_val (c : ascii) : Z := code c - 48.

Definition digit_chr (d : Z) : ascii := ascii_of_N (Z.to_N (48 + d)).

(** [str.isspace] on ASCII: tab, line feed, vertical tab, form feed,
    carriage return, the four separators 28..31 and the space. *)
Definition is_space (c : ascii) : bool :=
  ((9 <=? code c) && (code c <=? 13)) || ((28 <=? code c) && (code c <=? 32)).

Fixpoint lstrip (l : list ascii) : list ascii :=
  match l with
  | c :: r => if is_space c then lstrip r else l
  | [] => []
  end.

(** [s.strip()] *)
Definition strip (l : list ascii) : list ascii :=
  rev (lstrip (rev (lstrip l))).

(** Value of a digit string read left to right, from accumulator [acc]. *)
Fixpoint digits_val (acc : Z) (l : list ascii) : Z :=
  match l with
  | [] => acc
  | c :: r => digits_val (10 * acc + digit_val c) r
  end.

Definition all_digits (l : list ascii) : bool := forallb is_digit l.

(** *** [int(s)] in base ten

    After stripping white space: an optional sign, then decimal digits in
    which single underscores may separate digits. *)
Fixpoint int_body (acc : Z) (after_digit : bool) (l : list ascii) : option Z :=
  match l with
  | [] => if after_digit then Some acc else None
  | c :: r =>
      if is_digit c then int_body (10 * acc + digit_val c) true r
      else if Ascii.eqb c "_" then
        if after_digit then int_body acc false r else None
      else None
  end.

Definition int_signed (l : list ascii) : option Z :=
  match l with
  | c :: r =>
      if Ascii.eqb c "-" then Z.opp <$> int_body 0 false r
      else if Ascii.eqb c "+" then int_body 0 false r
      else int_body 0 false l
  | [] => None
  end.

(** [int(x)] for [x] a cell of a [DictReader] row: a string, or [None] when
    the row was too short.  [int(None)] raises [TypeError]. *)
Definition int (x : option string) : result Z :=
  match x with
  | None => raise TypeError
  | Some s =>
      match int_signed (strip (list_ascii_of_string s)) with
      | Some n => ret n
      | None => raise ValueError
      end
  end.

(** *** [str(n)] for an integer *)

(** The [w] low decimal digits of [n], most significant first. *)
Fixpoint fixed_digits (w : nat) (n : Z) : list ascii :=
  match w with
  | O => []
  | S w' => fixed_digits w' (n / 10) ++ [digit_chr (n mod 10)]
  end.

(** The decimal digits of a non-negative [n], without leading zero. *)
Fixpoint nat_digits_fuel (fuel : nat) (n : Z) : list ascii :=
  match fuel with
  | O => [digit_chr (n mod 10)]
  | S f =>
      if n <? 10 then [digit_chr n]
      else nat_digits_fuel f (n / 10) ++ [digit_chr (n mod 10)]
  end.

Definition nat_digits (n : Z) : list ascii :=
  nat_digits_fuel (Z.to_nat (Z.log2 n)) n.

Definition str_int_chars (n : Z) : list ascii :=
  if n <? 0 then "-"%char :: nat_digits (- n) else nat_digits n.

Definition str_int (n : Z) : string := string_of_list_ascii (str_int_chars n).

(** *** [Decimal(s)] and the two-place amount column

    A Python [Decimal] is a coefficient and an exponent.  The numeric
    syntax accepted after [strip()] and removal of underscores is: an
    optional sign, digits with an optional fractional part (at least one
    digit in all), and an optional exponent.  The special values
    ([Infinity], [NaN]) are no amounts of a [DecimalField] and are treated
    as a failed conversion. *)
Record decimal : Set := { coeff : Z; expo : Z }.

Definition remove_underscores (l : list ascii) : list ascii :=
  List.filter (λ c, negb (Ascii.eqb c "_")) l.

Fixpoint span_digits (l : list ascii) : list ascii * list ascii :=
  match l with
  | c :: r =>
      if is_digit c then let '(d, rest) := span_digits r in (c :: d, rest)
      else ([], l)
  | [] => ([], [])
  end.

(** An optional sign: [true] for a minus. *)
Definition sign_of (l : list ascii) : bool * list ascii :=
  match l with
  | c :: r =>
      if Ascii.eqb c "-" then (true, r)
      else if Ascii.eqb c "+" then (false, r)
      else (false, l)
  | [] => (false, [])
  end.

Definition signed (neg : bool) (n : Z) : Z := if neg then - n else n.

Definition fraction_part (l : list ascii) : list ascii * list ascii :=
  match l with
  | c :: r => if Ascii.eqb c "." then span_digits r else ([], l)
  | [] => ([], [])
  end.

Definition exponent_part (l : list ascii) : option Z :=
  match l with
  | [] => Some 0
  | c :: r =>
      if Ascii.eqb c "e" || Ascii.eqb c "E" then
        let '(neg, ds) := sign_of r in
        match ds with
        | [] => None
        | _ => if all_digits ds then Some (signed neg (digits_val 0 ds)) else None
        end
      else None
  end.

Definition Decimal_chars (l : list ascii) : option decimal :=
  let '(neg, l1) := sign_of l in
  let '(ip, l2) := span_digits l1 in
  let '(fp, l3) := fraction_part l2 in
  match ip ++ fp with
  | [] => None
  | ds =>
      e ← exponent_part l3;
      Some {| coeff := signed neg (digits_val 0 ds);
              expo := e - Z.of_nat (length fp) |}
  end.

(** [Decimal(x)] for a cell [x]: [Decimal(None)] raises [TypeError], a
    string that is no number raises [InvalidOperation]. *)
Definition Decimal (x : option string) : result decimal :=
  match x with
  | None => raise TypeError
  | Some s =>
      match Decimal_chars (remove_underscores (strip (list_ascii_of_string s))) with
      | Some d => ret d
      | None => raise InvalidOperation
      end
  end.

(** Rounding [n / q] to the nearest integer, ties to even. *)
Definition round_half_even (n q : Z) : Z :=
  let fl := n / q in
  let r := n mod q in
  if 2 * r <? q then fl
  else if q <? 2 * r then fl + 1
  else if Z.even fl then fl else fl + 1.

(** The value of a decimal in a [DecimalField(decimal_places=2)] column,
    in hundredths. *)
Definition to_cents (d : decimal) : Z :=
  if -2 <=? expo d then coeff d * 10 ^ (expo d + 2)
  else round_half_even (coeff d) (10 ^ (- 2 - expo d)).

(** [str(d)] for a two-place decimal of [c] hundredths. *)
Definition str_cents_chars (c : Z) : list ascii :=
  (if c <? 0 then ["-"%char] else []) ++
  nat_digits (Z.abs c / 100) ++ "."%char :: fixed_digits 2 (Z.abs c mod 100).

Definition str_cents (c : Z) : string := string_of_list_ascii (str_cents_chars c).

(** *** Dates: [datetime.strptime(s, '%Y-%m-%d').date()] and
    [d.strftime('%Y-%m-%d')] *)
Record date : Set := { year : Z; month : Z; day : Z }.

Global Instance date_eq_dec : EqDecision date.
Proof. solve_decision. Defined.

Definition is_leap (y : Z) : bool :=
  (y mod 4 =? 0) && (negb (y mod 100 =? 0) || (y mod 400 =? 0)).

Definition days_in_month (y m : Z) : Z :=
  if m =? 2 then (if is_leap y then 29 else 28)
  else if (m =? 4) || (m =? 6) || (m =? 9) || (m =? 11) then 30
  else 31.

Definition valid_date (d : date) : bool :=
  (1 <=? year d) && (year d <=? 9999) &&
  (1 <=? month d) && (month d <=? 12) &&
  (1 <=? day d) && (day d <=? days_in_month (year d) (month d)).

Definition digit_in (lo hi : Z) (c : ascii) : bool :=
  is_digit c && (lo <=? digit_val c) && (digit_val c <=? hi).

(** The directive [%m]: [1[0-2]|0[1-9]|[1-9]]. *)
Definition parse_month (l : list ascii) : option (Z * list ascii) :=
  match l with
  | a :: b :: r =>
      if Ascii.eqb a "1" && digit_in 0 2 b then Some (10 + digit_val b, r)
      else if Ascii.eqb a "0" && digit_in 1 9 b then Some (digit_val b, r)
      else if digit_in 1 9 a then Some (digit_val a, b :: r)
      else None
  | [a] => if digit_in 1 9 a then Some (digit_val a, []) else None
  | [] => None
  end.

(** The directive [%d]: [3[0-1]|[1-2]\d|0[1-9]|[1-9]| [1-9]]. *)
Definition parse_day (l : list ascii) : option (Z * list ascii) :=
  match l with
  | a :: b :: r =>
      if Ascii.eqb a "3" && digit_in 0 1 b then Some (30 + digit_val b, r)
      else if digit_in 1 2 a && is_digit b then Some (10 * digit_val a + digit_val b, r)
      else if Ascii.eqb a "0" && digit_in 1 9 b then Some (digit_val b, r)
      else if digit_in 1 9 a then Some (digit_val a, b :: r)
      else if Ascii.eqb a " " && digit_in 1 9 b then Some (digit_val b, r)
      else None
  | [a] => if digit_in 1 9 a then Some (digit_val a, []) else None
  | [] => None
  end.

Definition expect (c : ascii) (l : list ascii) : option (list ascii) :=
  match l with
  | a :: r => if Ascii.eqb a c then Some r else None
  | [] => None
  end.

(** The format [%Y-%m-%d] matched against the whole string. *)
Definition parse_ymd (l : list ascii) : option date :=
  match l with
  | y1 :: y2 :: y3 :: y4 :: r =>
      if all_digits [y1; y2; y3; y4] then
        r1 ← expect "-" r;
        '(m, r2) ← parse_month r1;
        r3 ← expect "-" r2;
        '(d, r4) ← parse_day r3;
        match r4 with
        | [] => Some {| year := digits_val 0 [y1; y2; y3; y4]; month := m; day := d |}
        | _ => None
        end
      else None
  | _ => None
  end.

(** [strptime] raises [ValueError] when the text does not match or names no
    calendar day, and [TypeError] when given [None]. *)
Definition strptime_date (x : option string) : result date :=
  match x with
  | None => raise TypeError
  | Some s =>
      match parse_ymd (list_ascii_of_string s) with
      | Some d => if valid_date d then ret d else raise ValueError
      | None => raise ValueError
      end
  end.

(** [d.strftime('%Y-%m-%d')] hands the format to the C library, which
    writes the year without padding: the day 999-12-31 is written with a
    year of three digits, which [%Y] of [strptime] does not take back.
    Month and day are written with two digits. *)
Definition strftime_chars (d : date) : list ascii :=
  nat_digits (year d) ++ "-"%char :: fixed_digits 2 (month d) ++
  "-"%char :: fixed_digits 2 (day d).

Definition strftime (d : date) : string := string_of_list_ascii (strftime_chars d).

(** [timezone.now()] values: a calendar day and the time elapsed in it. *)
Record datetime : Set := { dt_date : date; dt_time : Z }.

Global Instance datetime_eq_dec : EqDecision datetime.
Proof. solve_decision. Defined.

(** [strftime('%Y-%m', created_at)] of the monthly grouping. *)
Definition year_month (t : datetime) : string :=
  string_of_list_ascii
    (fixed_digits 4 (year (dt_date t)) ++ "-"%char :: fixed_digits 2 (month (dt_date t))).

(** Chronological order on time stamps. *)
Definition datetime_key (t : datetime) : Z * Z * Z * Z :=
  (year (dt_date t), month (dt_date t), day (dt_date t), dt_time t).

Definition datetime_leb (a b : datetime) : bool :=
  let '(y1, m1, d1, t1) := datetime_key a in
  let '(y2, m2, d2, t2) := datetime_key b in
  (y1 <? y2) || ((y1 =? y2) &&
  ((m1 <? m2) || ((m1 =? m2) &&
  ((d1 <? d2) || ((d1 =? d2) && (t1 <=? t2)))))).

End Py.

(** ** Reading delimited text: [csv.reader] and [csv.DictReader] *)

Module Csv.

Definition LF : ascii := "010"%char.
Definition CR : ascii := "013"%char.
Definition QUOTE : ascii := "034"%char.

(** A file opened in text mode translates the line ends [CR LF] and [CR]
    to [LF]. *)
Fixpoint universal_newlines (l : list ascii) : list ascii :=
  match l with
  | [] => []
  | c :: r =>
      if Ascii.eqb c CR then
        LF :: match r with
              | c' :: r' =>
                  if Ascii.eqb c' LF then universal_newlines r'
                  else universal_newlines r
              | [] => []
              end
      else c :: universal_newlines r
  end.

(** The states of the reader of the [csv] module that the default dialect
    can reach (no escape character).  The state that swallows the line end
    is entered and left within the processing of one line end, so it does
    not appear. *)
Inductive state : Set :=
  | START_RECORD
  | START_FIELD
  | IN_FIELD
  | IN_QUOTED_FIELD
  | QUOTE_IN_QUOTED_FIELD.

(** The field being read and the fields read so far, both in reverse. *)
Record parser : Set := { st : state; field : list ascii; fields : list string }.

Definition start : parser := {| st := START_RECORD; field := []; fields := [] |}.

Definition set_state (s : state) (p : parser) : parser :=
  {| st := s; field := field p; fields := fields p |}.

Definition add_char (c : ascii) (p : parser) : parser :=
  {| st := st p; field := c :: field p; fields := fields p |}.

Definition save_field (p : parser) : parser :=
  {| st := st p; field := [];
     fields := string_of_list_ascii (rev (field p)) :: fields p |}.

Definition record_of (p : parser) : list string := rev (fields p).

(** One character that is no line end. *)
Definition process_char (delimiter c : ascii) (p : parser) : parser :=
  match st p with
  | START_RECORD | START_FIELD =>
      if Ascii.eqb c QUOTE then set_state IN_QUOTED_FIELD p
      else if Ascii.eqb c delimiter then set_state START_FIELD (save_field p)
      else set_state IN_FIELD (add_char c p)
  | IN_FIELD =>
      if Ascii.eqb c delimiter then set_state START_FIELD (save_field p)
      else add_char c p
  | IN_QUOTED_FIELD =>
      if Ascii.eqb c QUOTE then set_state QUOTE_IN_QUOTED_FIELD p
      else add_char c p
  | QUOTE_IN_QUOTED_FIELD =>
      if Ascii.eqb c QUOTE then set_state IN_QUOTED_FIELD (add_char c p)
      else if Ascii.eqb c delimiter then set_state START_FIELD (save_field p)
      else set_state IN_FIELD (add_char c p)
  end.

(** The records of a text.  A line end closes the record unless it falls
    inside a quoted field; an empty line is the empty record; at the end of
    the text an open record is closed. *)
Fixpoint records (delimiter : ascii) (p : parser) (l : list ascii) : list (list string) :=
  match l with
  | [] =>
      match st p with
      | START_RECORD => []
      | _ => [record_of (save_field p)]
      end
  | c :: r =>
      if Ascii.eqb c LF then
        match st p with
        | START_RECORD => [] :: records delimiter start r
        | IN_QUOTED_FIELD => records delimiter (add_char c p) r
        | _ => record_of (save_field p) :: records delimiter start r
        end
      else records delimiter (process_char delimiter c p) r
  end.

(** [csv.reader(f, delimiter='|')] over an open text file, as the list of
    the records it yields. *)
Definition reader (text : string) : list (list string) :=
  records "|" start (universal_newlines (list_ascii_of_string text)).

(** A row of a [DictReader]: a dictionary from field names to cells; a
    cell missing from a short record is [None]. *)
Definition make_row (fieldnames cells : list string) : gmap string (option string) :=
  (fix go (ks vs : list string) (d : gmap string (option string)) :=
     match ks with
     | [] => d
     | k :: ks' =>
         match vs with
         | v :: vs' => go ks' vs' (<[k := Some v]> d)
         | [] => go ks' [] (<[k := None]> d)
         end
     end) fieldnames cells ∅.

Definition is_blank (r : list string) : bool :=
  match r with [] => true | _ => false end.

(** [csv.DictReader(f, delimiter='|')]: the first record names the
    fields, blank records are passed over. *)
Definition DictReader (text : string) : list (gmap string (option string)) :=
  match reader text with
  | [] => []
  | fieldnames :: rest =>
      make_row fieldnames <$> List.filter (λ r, negb (is_blank r)) rest
  end.

(** [row[key]] *)
Definition getitem (row : gmap string (option string)) (key : string)
  : result (option string) :=
  match row !! key with
  | Some cell => ret cell
  | None => raise KeyError
  end.

End Csv.

(** ** The tables of [claims/models.py] *)

Import Py.

(** [Claim.STATUS_CHOICES]: the status codes with their display names. *)
Definition STATUS_CHOICES : list (string * string) :=
  [ ("pending", "Pending");
    ("approved", "Approved");
    ("denied", "Denied");
    ("processing", "Processing");
    ("review", "Under Review") ].

(** A row of the [Claim] table.  Its primary key [id] is the key under
    which the table holds it.  Amounts are in hundredths, as the column
    [DecimalField(max_digits=10, decimal_places=2)] keeps them. *)
Record Claim : Set := {
  patient_name : string;
  billed_amount : Z;
  paid_amount : Z;
  status : string;
  insurer_name : string;
  discharge_date : date;
  is_flagged : bool;
  created_at : datetime;
  updated_at : datetime;
  created_by : option Z;
  updated_by : option Z
}.

(** A row of the [ClaimDetail] table.  The one-to-one field [claim] makes
    the claim id unique among the details: the table is keyed by it, and
    the row keeps its own primary key [detail_id]. *)
Record ClaimDetail : Set := {
  detail_id : Z;
  cpt_codes : string;
  denial_reason : option string;
  detail_created_at : datetime;
  detail_updated_at : datetime
}.

(** The record store: both tables and the sequence of detail keys. *)
Record Store : Type := {
  claims : gmap Z Claim;
  details : gmap Z ClaimDetail;
  next_detail_id : Z
}.

Definition empty_store : Store :=
  {| claims := ∅; details := ∅; next_detail_id := 1 |}.

(** [ClaimDetail.get_cpt_codes_list]: the codes are kept as raw text and
    split on commas, each piece stripped, when read. *)
Fixpoint split_on (sep : ascii) (cur : list ascii) (l : list ascii) : list (list ascii) :=
  match l with
  | [] => [rev cur]
  | c :: r =>
      if Ascii.eqb c sep then rev cur :: split_on sep [] r
      else split_on sep (c :: cur) r
  end.

Definition get_cpt_codes_list (d : ClaimDetail) : list string :=
  match cpt_codes d with
  | "" => []
  | s => (λ code, string_of_list_ascii (strip code)) <$>
           split_on "," [] (list_ascii_of_string s)
  end.

(** *** Unsaved instances and [bulk_create(..., ignore_conflicts=True)]

    The loader builds model instances from the cells of a row; a cell may
    be [None].  The batch insert is an INSERT OR IGNORE: an instance whose
    key is taken, or which has no value for a NOT NULL column, is passed
    over silently.  The time stamps come from the clock when the instance
    is built and when it is written. *)
Record NewClaim : Set := {
  new_id : Z;
  new_patient_name : option string;
  new_billed_amount : decimal;
  new_paid_amount : decimal;
  new_status : string;
  new_insurer_name : option string;
  new_discharge_date : date;
  new_created_at : datetime;
  new_updated_at : datetime
}.

Record NewClaimDetail : Set := {
  new_claim_id : Z;
  new_cpt_codes : option string;
  new_denial_reason : option string;
  new_detail_created_at : datetime;
  new_detail_updated_at : datetime
}.

(** The row that an instance gives, unless a NOT NULL text column has no
    value: flag, creator and updater take their defaults. *)
Definition claim_row (c : NewClaim) : option Claim :=
  name ← new_patient_name c;
  insurer ← new_insurer_name c;
  Some {| patient_name := name;
          billed_amount := to_cents (new_billed_amount c);
          paid_amount := to_cents (new_paid_amount c);
          status := new_status c;
          insurer_name := insurer;
          discharge_date := new_discharge_date c;
          is_flagged := false;
          created_at := new_created_at c;
          updated_at := new_updated_at c;
          created_by := None;
          updated_by := None |}.

(** The insert of one instance: nothing happens when the instance gives
    no row or its id is taken. *)
Definition insert_claim (s : Store) (c : NewClaim) : Store :=
  match claim_row c, claims s !! new_id c with
  | Some row, None =>
      {| claims := <[new_id c := row]> (claims s);
         details := details s;
         next_detail_id := next_detail_id s |}
  | _, _ => s
  end.

(** [Claim.objects.bulk_create(batch, ignore_conflicts=True)] *)
Definition bulk_create_claims (batch : list NewClaim) (s : Store) : Store :=
  foldl insert_claim s batch.

(** The same for a detail, which takes the next key of the sequence. *)
Definition detail_row (key : Z) (d : NewClaimDetail) : option ClaimDetail :=
  codes ← new_cpt_codes d;
  Some {| detail_id := key;
          cpt_codes := codes;
          denial_reason := new_denial_reason d;
          detail_created_at := new_detail_created_at d;
          detail_updated_at := new_detail_updated_at d |}.

Definition insert_detail (s : Store) (d : NewClaimDetail) : Store :=
  match detail_row (next_detail_id s) d, details s !! new_claim_id d with
  | Some row, None =>
      {| claims := claims s;
         details := <[new_claim_id d := row]> (details s);
         next_detail_id := next_detail_id s + 1 |}
  | _, _ => s
  end.

(** [ClaimDetail.objects.bulk_create(batch, ignore_conflicts=True)] *)
Definition bulk_create_details (batch : list NewClaimDetail) (s : Store) : Store :=
  foldl insert_detail s batch.

(** [ClaimDetail.objects.all().delete()] then [Claim.objects.all().delete()],
    inside [transaction.atomic()]. *)
Definition clear_all (s : Store) : Store :=
  {| claims := ∅; details := ∅; next_detail_id := next_detail_id s |}.

(** ** The bulk loader of [import_claims.py] *)

(** What the command writes to its standard output. *)
Inductive line : Type :=
  | Clearing_existing_data
  | Existing_data_cleared
  | Starting_claims_import
  | Successfully_imported_claims (n : nat)
  | Starting_claim_details_import
  | Successfully_imported_details (n : nat)
  | Import_completed (claims_imported details_imported : nat)
  | Imported_claims_so_far (n : nat)
  | Imported_details_so_far (n : nat)
  | Skipping_invalid_row (row : gmap string (option string)) (e : exn)
  | Skipping_invalid_detail_row (row : gmap string (option string)) (e : exn)
  | Claim_not_found (claim_id : Z).

(** The clock, read for the [i]-th data row: the time its instance is
    built and the time it is written. *)
Definition clock : Type := nat → datetime * datetime.

Definition batch_size : nat := 1000.

(** The dictionary [status_mapping] of [import_claims]. *)
Definition status_mapping : gmap string string :=
  <["Pending" := "pending"]>
  (<["Processing" := "processing"]>
  (<["Under Review" := "review"]>
  (<["Denied" := "denied"]>
  (<["Paid" := "approved"]> ∅)))).

(** [status_mapping.get(cell, 'pending')] *)
Definition status_mapping_get (cell : option string) : string :=
  match cell with
  | Some label => default "pending" (status_mapping !! label)
  | None => "pending"
  end.

(** [except (ValueError, KeyError)] *)
Definition caught (e : exn) : bool :=
  match e with
  | ValueError | KeyError => true
  | _ => false
  end.

(** The body of the [try] of [import_claims] up to the construction of the
    instance, for the [i]-th data row. *)
Definition new_claim (now : clock) (i : nat) (row : gmap string (option string))
  : result NewClaim :=
  raw_status ← Csv.getitem row "status";
  let status := status_mapping_get raw_status in
  raw_date ← Csv.getitem row "discharge_date";
  discharge_date ← strptime_date raw_date;
  raw_id ← Csv.getitem row "id";
  id ← int raw_id;
  patient_name ← Csv.getitem row "patient_name";
  raw_billed ← Csv.getitem row "billed_amount";
  billed_amount ← Decimal raw_billed;
  raw_paid ← Csv.getitem row "paid_amount";
  paid_amount ← Decimal raw_paid;
  insurer_name ← Csv.getitem row "insurer_name";
  ret {| new_id := id;
         new_patient_name := patient_name;
         new_billed_amount := billed_amount;
         new_paid_amount := paid_amount;
         new_status := status;
         new_insurer_name := insurer_name;
         new_discharge_date := discharge_date;
         new_created_at := fst (now i);
         new_updated_at := snd (now i) |}.

(** The state of a run: the store, the output so far, and either the
    returned count or the exception that ended the run. *)
Record run (A : Type) : Type := { db : Store; stdout : list line; outcome : result A }.
Arguments db {A} _.
Arguments stdout {A} _.
Arguments outcome {A} _.

(** The row loop of [import_claims] and the flush of the last batch. *)
Fixpoint import_claims_rows (now : clock) (rows : list (gmap string (option string)))
    (i : nat) (claims_batch : list NewClaim) (imported_count : nat)
    (s : Store) (out : list line) : run nat :=
  match rows with
  | [] =>
      match claims_batch with
      | [] => {| db := s; stdout := out; outcome := ret imported_count |}
      | _ => {| db := bulk_create_claims claims_batch s; stdout := out;
                outcome := ret (imported_count + length claims_batch)%nat |}
      end
  | row :: rest =>
      match new_claim now i row with
      | inr claim =>
          let claims_batch := claims_batch ++ [claim] in
          if (batch_size <=? length claims_batch)%nat then
            let s := bulk_create_claims claims_batch s in
            let imported_count := (imported_count + length claims_batch)%nat in
            let out :=
              if (imported_count mod 1000 =? 0)%nat
              then out ++ [Imported_claims_so_far imported_count] else out in
            import_claims_rows now rest (S i) [] imported_count s out
          else import_claims_rows now rest (S i) claims_batch imported_count s out
      | inl e =>
          if caught e then
            import_claims_rows now rest (S i) claims_batch imported_count s
              (out ++ [Skipping_invalid_row row e])
          else {| db := s; stdout := out; outcome := raise e |}
      end
  end.

(** [Command.import_claims(file_path)] on the text of the file. *)
Definition import_claims (now : clock) (file : string) (s : Store) (out : list line)
  : run nat :=
  import_claims_rows now (Csv.DictReader file) 0 [] 0 s out.

(** The body of the [try] of [import_claim_details] up to the construction
    of the instance.  The left result is the [continue] taken when no claim
    has the id of the row. *)
Definition new_claim_detail (now : clock) (i : nat) (s : Store)
    (row : gmap string (option string)) : result (Z + NewClaimDetail) :=
  raw_claim_id ← Csv.getitem row "claim_id";
  claim_id ← int raw_claim_id;
  match claims s !! claim_id with
  | None => ret (inl claim_id)
  | Some _ =>
      raw_reason ← Csv.getitem row "denial_reason";
      let denial_reason :=
        if decide (raw_reason = Some "N/A") then None else raw_reason in
      cpt_codes ← Csv.getitem row "cpt_codes";
      ret (inr {| new_claim_id := claim_id;
                  new_cpt_codes := cpt_codes;
                  new_denial_reason := denial_reason;
                  new_detail_created_at := fst (now i);
                  new_detail_updated_at := snd (now i) |})
  end.

Fixpoint import_claim_details_rows (now : clock) (rows : list (gmap string (option string)))
    (i : nat) (details_batch : list NewClaimDetail) (imported_count : nat)
    (s : Store) (out : list line) : run nat :=
  match rows with
  | [] =>
      match details_batch with
      | [] => {| db := s; stdout := out; outcome := ret imported_count |}
      | _ => {| db := bulk_create_details details_batch s; stdout := out;
                outcome := ret (imported_count + length details_batch)%nat |}
      end
  | row :: rest =>
      match new_claim_detail now i s row with
      | inr (inl claim_id) =>
          import_claim_details_rows now rest (S i) details_batch imported_count s
            (out ++ [Claim_not_found claim_id])
      | inr (inr detail) =>
          let details_batch := details_batch ++ [detail] in
          if (batch_size <=? length details_batch)%nat then
            let s := bulk_create_details details_batch s in
            let imported_count := (imported_count + length details_batch)%nat in
            let out :=
              if (imported_count mod 1000 =? 0)%nat
              then out ++ [Imported_details_so_far imported_count] else out in
            import_claim_details_rows now rest (S i) [] imported_count s out
          else import_claim_details_rows now rest (S i) details_batch imported_count s out
      | inl e =>
          if caught e then
            import_claim_details_rows now rest (S i) details_batch imported_count s
              (out ++ [Skipping_invalid_detail_row row e])
          else {| db := s; stdout := out; outcome := raise e |}
      end
  end.

(** [Command.import_claim_details(file_path)] on the text of the file. *)
Definition import_claim_details (now : clock) (file : string) (s : Store) (out : list line)
  : run nat :=
  import_claim_details_rows now (Csv.DictReader file) 0 [] 0 s out.

(** [Command.handle]: both paths must exist ([None] is a missing file),
    the tables are emptied when [clear] is set, then the claims and the
    details are imported.  The counts are reported on the output. *)
Definition handle (now_claims now_details : clock)
    (claims_file details_file : option string) (clear : bool) (s : Store)
  : run () :=
  match claims_file, details_file with
  | None, _ | _, None => {| db := s; stdout := []; outcome := raise CommandError |}
  | Some claims_text, Some details_text =>
      let s := if clear then clear_all s else s in
      let out := if clear then [Clearing_existing_data; Existing_data_cleared] else [] in
      let r1 := import_claims now_claims claims_text s (out ++ [Starting_claims_import]) in
      match outcome r1 with
      | inl e => {| db := db r1; stdout := stdout r1; outcome := raise e |}
      | inr claims_imported =>
          let r2 :=
            import_claim_details now_details details_text (db r1)
              (stdout r1 ++ [Successfully_imported_claims claims_imported;
                             Starting_claim_details_import]) in
          match outcome r2 with
          | inl e => {| db := db r2; stdout := stdout r2; outcome := raise e |}
          | inr details_imported =>
              {| db := db r2;
                 stdout := stdout r2 ++
                   [Successfully_imported_details details_imported;
                    Import_completed claims_imported details_imported];
                 outcome := ret () |}
          end
      end
  end.

(** ** The aggregates of [dashboard] *)

(** [Sum] and [Avg] over a column: [None] when there is no row.  Averages
    are exact rationals, in hundredths. *)
Definition Sum (column : list Z) : option Z :=
  match column with
  | [] => None
  | _ => Some (foldr Z.add 0 column)
  end.

Definition Avg (column : list Z) : option Qc :=
  match column with
  | [] => None
  | _ => Some (Q2Qc (foldr Z.add 0 column # Pos.of_nat (length column)))
  end.

(** [x or Decimal('0')]: [None] and zero are both false. *)
Definition or_zero (x : option Z) : Z := default 0 x.
Definition or_zero_avg (x : option Qc) : Qc := default (Q2Qc 0) x.

(** The truth value of an aggregate: [None] is false, and so is a zero
    [Decimal]. *)
Definition truthy (x : option Qc) : bool :=
  match x with
  | Some q => if decide (q = Q2Qc 0) then false else true
  | None => false
  end.

Record insurer_stats : Set := {
  ins_insurer_name : string;
  ins_claim_count : nat;
  ins_total_billed : Z;
  ins_total_paid : Z
}.

Record month_stats : Set := {
  ms_month : string;
  ms_count : nat;
  ms_total_billed : Z;
  ms_total_paid : Z
}.

(** [values(key).annotate(Count, Sum, Sum)]: the groups of a list of rows
    with their count and the sums of the billed and paid amounts. *)
Definition group_by (key : Claim → string) (rows : list (Z * Claim))
  : gmap string (nat * Z * Z) :=
  foldl (λ groups r,
           let '(n, b, p) := default (O, 0, 0) (groups !! key r.2) in
           <[key r.2 := (S n, b + billed_amount r.2, p + paid_amount r.2)]> groups)
        ∅ rows.

Record financial : Set := {
  total_billed : Z;
  total_paid : Z;
  total_underpayment : Z;
  avg_billed : Qc;
  avg_paid : Qc;
  avg_underpayment : Qc;
  underpaid_claims : nat
}.

Record denial : Set := { denial_count : nat; denial_total_amount : Z }.

(** The context that [dashboard] hands to its template.  The recent notes
    and flags are read from the annotation tables, which are outside this
    development. *)
Record context : Type := {
  total_claims : nat;
  flagged_claims : nat;
  status_counts : gmap string nat;
  recent_claims : list (Z * Claim);
  financial_stats : financial;
  top_insurers : list insurer_stats;
  monthly_stats : list month_stats;
  denial_stats : denial;
  top_denial_reasons : list (string * nat)
}.

(** [Claim.objects.filter(...)] as the list of the rows that pass. *)
Definition rows_where (P : Claim → Prop) `{!∀ c, Decision (P c)} (s : Store)
  : list (Z * Claim) :=
  filter (λ r, P r.2) (map_to_list (claims s)).

(** The loop filling [status_counts], keyed by the display name. *)
Definition count_statuses (s : Store) : gmap string nat :=
  foldl (λ status_counts choice,
           <[choice.2 := length (rows_where (λ c, status c = choice.1) s)]>
             status_counts)
        ∅ STATUS_CHOICES.

(** The denial reasons of the details of denied claims, those that are
    neither null nor empty. *)
Definition denied_reasons (s : Store) : list string :=
  omap (λ d, match claims s !! d.1, denial_reason d.2 with
             | Some c, Some reason =>
                 if String.eqb (status c) "denied" && negb (String.eqb reason "")
                 then Some reason else None
             | _, _ => None
             end)
       (map_to_list (details s)).

Definition count_reasons (reasons : list string) : gmap string nat :=
  foldl (λ counts reason, <[reason := S (default O (counts !! reason))]> counts) ∅ reasons.

(** [order_by('-count')]: a stable sort on a count, largest first. *)
Definition count_ge {A} (count : A → nat) (a b : A) : Prop := (count b ≤ count a)%nat.

Global Instance count_ge_dec {A} (count : A → nat) : RelDecision (count_ge count).
Proof. intros a b. unfold count_ge. apply _. Defined.

Definition order_by_desc {A} (count : A → nat) (rows : list A) : list A :=
  merge_sort (count_ge count) rows.

(** [order_by('-created_at')]: latest first. *)
Definition later (a b : Z * Claim) : Prop := datetime_leb (created_at b.2) (created_at a.2).

Global Instance later_dec : RelDecision later.
Proof. intros a b. unfold later. apply _. Defined.

(** [order_by('-month')] *)
Definition month_ge (a b : month_stats) : Prop := String.leb (ms_month b) (ms_month a).

Global Instance month_ge_dec : RelDecision month_ge.
Proof. intros a b. unfold month_ge. apply _. Defined.

(** [a - b] on two aggregates: with [None] for an operand the subtraction
    raises [TypeError]. *)
Definition decimal_sub (a b : option Qc) : result Qc :=
  match a, b with
  | Some x, Some y => ret (x - y)%Qc
  | _, _ => raise TypeError
  end.

(** [dashboard]: the statistics of the current store.  Where the source
    orders by a count, rows with equal counts come in the order the merge
    sort leaves them; the database leaves that order open. *)
Definition dashboard (s : Store) : result context :=
  let all := map_to_list (claims s) in
  let total_claims := length all in
  let flagged_claims := length (rows_where is_flagged s) in
  let fs_total_billed := Sum ((λ r, billed_amount r.2) <$> all) in
  let fs_total_paid := Sum ((λ r, paid_amount r.2) <$> all) in
  let fs_avg_billed := Avg ((λ r, billed_amount r.2) <$> all) in
  let fs_avg_paid := Avg ((λ r, paid_amount r.2) <$> all) in
  let total_billed := or_zero fs_total_billed in
  let total_paid := or_zero fs_total_paid in
  let total_underpayment := total_billed - total_paid in
  avg_underpayment ←
    (if truthy fs_avg_billed && truthy fs_avg_paid
     then decimal_sub fs_avg_billed fs_avg_paid
     else ret (Q2Qc 0));
  let underpaid_claims :=
    length (rows_where (λ c, paid_amount c * 2 < billed_amount c) s) in
  let status_counts := count_statuses s in
  let top_insurers :=
    take 5 (order_by_desc ins_claim_count
              ((λ g, {| ins_insurer_name := g.1; ins_claim_count := g.2.1.1;
                        ins_total_billed := g.2.1.2; ins_total_paid := g.2.2 |})
                 <$> map_to_list (group_by insurer_name all))) in
  let recent_claims :=
    take 5 (merge_sort later all) in
  let monthly_stats :=
    take 6 (merge_sort month_ge
              ((λ g, {| ms_month := g.1; ms_count := g.2.1.1;
                        ms_total_billed := g.2.1.2; ms_total_paid := g.2.2 |})
                 <$> map_to_list (group_by (λ c, year_month (created_at c)) all))) in
  let denied_claims := rows_where (λ c, status c = "denied") s in
  let denial_stats :=
    {| denial_count := length denied_claims;
       denial_total_amount := or_zero (Sum ((λ r, billed_amount r.2) <$> denied_claims)) |} in
  let top_denial_reasons :=
    take 5 (order_by_desc snd (map_to_list (count_reasons (denied_reasons s)))) in
  ret {| total_claims := total_claims;
         flagged_claims := flagged_claims;
         status_counts := status_counts;
         recent_claims := recent_claims;
         financial_stats :=
           {| total_billed := total_billed;
              total_paid := total_paid;
              total_underpayment := total_underpayment;
              avg_billed := or_zero_avg fs_avg_billed;
              avg_paid := or_zero_avg fs_avg_paid;
              avg_underpayment := avg_underpayment;
              underpaid_claims := underpaid_claims |};
         top_insurers := top_insurers;
         monthly_stats := monthly_stats;
         denial_stats := denial_stats;
         top_denial_reasons := top_denial_reasons |}.

(** ** The upload entry point: [validate_csv_files] and [handle_csv_upload] *)

Inductive csv_file : Set := Claims_file | Details_file.

(** The error messages of the validator, with the values they quote. *)
Inductive validation_error : Type :=
  | Headers_incorrect (file : csv_file) (expected got : list string)
  | Row_columns (file : csv_file) (row_number columns expected : nat)
  | Error_reading (file : csv_file) (e : exn).

Definition expected_claims_headers : list string :=
  ["id"; "patient_name"; "billed_amount"; "paid_amount"; "status";
   "insurer_name"; "discharge_date"].

Definition expected_details_headers : list string :=
  ["id"; "claim_id"; "denial_reason"; "cpt_codes"].

(** [for i, row in enumerate(reader)]: only the first three rows are
    looked at, and the first row of the wrong width ends the loop. *)
Fixpoint check_rows (file : csv_file) (expected : nat) (i : nat)
    (rows : list (list string)) : list validation_error :=
  match rows with
  | [] => []
  | row :: rest =>
      if (3 <=? i)%nat then []
      else if (length row =? expected)%nat then check_rows file expected (S i) rest
      else [Row_columns file (i + 2) (length row) expected]
  end.

(** One of the two [try] blocks of [validate_csv_files]: [next(reader)] on
    a file without a record raises [StopIteration], reported as a reading
    error. *)
Definition validate_file (file : csv_file) (expected : list string) (text : string)
  : list validation_error :=
  match Csv.reader text with
  | [] => [Error_reading file StopIteration]
  | headers :: rest =>
      (if decide (headers = expected) then []
       else [Headers_incorrect file expected headers]) ++
      check_rows file (length expected) 0 rest
  end.

Definition validate_csv_files (claims_text details_text : string)
  : list validation_error :=
  validate_file Claims_file expected_claims_headers claims_text ++
  validate_file Details_file expected_details_headers details_text.

(** An uploaded file: its name and its content. *)
Record upload : Set := { upload_name : string; upload_content : string }.

Inductive message : Type :=
  | Both_files_required
  | CSV_files_only
  | Validation_failed (e : validation_error)
  | Imported_overwrote (claims_count details_count : Z)
  | Imported_appended (claims_count details_count : Z)
  | Import_failed (e : exn).

Inductive redirect : Set := To_csv_upload | To_dashboard.

(** A call of the management command: [call_command('import_claims', ...)]. *)
Record command_call : Set := {
  call_claims_file : string;
  call_details_file : string;
  call_clear : bool
}.

Record response : Type := {
  response_db : Store;
  messages : list message;
  location : redirect;
  calls : list command_call
}.

Definition endswith (s suffix : string) : bool :=
  String.prefix (string_of_list_ascii (rev (list_ascii_of_string suffix)))
                (string_of_list_ascii (rev (list_ascii_of_string s))).

(** [sum(1 for line in f)]: the number of lines of a text file. *)
Fixpoint count_lines (in_line : bool) (l : list ascii) : Z :=
  match l with
  | [] => if in_line then 1 else 0
  | c :: r => if Ascii.eqb c Csv.LF then 1 + count_lines false r else count_lines true r
  end.

Definition line_count (text : string) : Z :=
  count_lines false (Csv.universal_newlines (list_ascii_of_string text)).

(** [handle_csv_upload]: both files are required and must be named
    [*.csv]; they are validated, and only a file pair without validation
    error reaches the management command. *)
Definition handle_csv_upload (now_claims now_details : clock)
    (claims_file details_file : option upload) (upload_mode : option string)
    (s : Store) : response :=
  let upload_mode := default "append" upload_mode in
  match claims_file, details_file with
  | Some claims_file, Some details_file =>
      if negb (endswith (upload_name claims_file) ".csv" &&
               endswith (upload_name details_file) ".csv")
      then {| response_db := s; messages := [CSV_files_only];
              location := To_csv_upload; calls := [] |}
      else
        let claims_text := upload_content claims_file in
        let details_text := upload_content details_file in
        match validate_csv_files claims_text details_text with
        | (_ :: _) as validation_errors =>
            {| response_db := s; messages := Validation_failed <$> validation_errors;
               location := To_csv_upload; calls := [] |}
        | [] =>
            let claims_count := line_count claims_text - 1 in
            let details_count := line_count details_text - 1 in
            let clear := String.eqb upload_mode "overwrite" in
            let r := handle now_claims now_details
                       (Some claims_text) (Some details_text) clear s in
            let call := {| call_claims_file := claims_text;
                           call_details_file := details_text;
                           call_clear := clear |} in
            match outcome r with
            | inr _ =>
                {| response_db := db r;
                   messages :=
                     [if clear then Imported_overwrote claims_count details_count
                      else Imported_appended claims_count details_count];
                   location := To_dashboard; calls := [call] |}
            | inl e =>
                {| response_db := db r; messages := [Import_failed e];
                   location := To_csv_upload; calls := [call] |}
            end
        end
  | _, _ =>
      {| response_db := s; messages := [Both_files_required];
         location := To_csv_upload; calls := [] |}
  end.

(** ** The export generators of [export_csv] *)

(** [sep.join(parts)] *)
Fixpoint join (sep : string) (parts : list string) : string :=
  match parts with
  | [] => ""
  | [x] => x
  | x :: rest => x +:+ sep +:+ join sep rest
  end.

Definition newline : string := String Csv.LF "".

(** [Claim.objects.all()]: the model orders by [-created_at]; rows with the
    same time stamp come in the order the sort leaves them. *)
Definition all_claims (s : Store) : list (Z * Claim) :=
  merge_sort later (map_to_list (claims s)).

(** [ClaimDetail.objects.all()]: by primary key. *)
Definition detail_id_le (a b : Z * ClaimDetail) : Prop := detail_id a.2 ≤ detail_id b.2.

Global Instance detail_id_le_dec : RelDecision detail_id_le.
Proof. intros a b. unfold detail_id_le. apply _. Defined.

Definition all_details (s : Store) : list (Z * ClaimDetail) :=
  merge_sort detail_id_le (map_to_list (details s)).

Definition claim_line (r : Z * Claim) : string :=
  join "|" [ str_int r.1;
             patient_name r.2;
             str_cents (billed_amount r.2);
             str_cents (paid_amount r.2);
             status r.2;
             insurer_name r.2;
             strftime (discharge_date r.2) ] +:+ newline.

(** [generate_claims_csv]: the lines it yields. *)
Definition generate_claims_csv (s : Store) : list string :=
  (join "|" ["id"; "patient_name"; "billed_amount"; "paid_amount"; "status";
             "insurer_name"; "discharge_date"] +:+ newline)
  :: (claim_line <$> all_claims s).

(** [detail.denial_reason or 'N/A'] *)
Definition reason_or_NA (reason : option string) : string :=
  match reason with
  | Some text => if String.eqb text "" then "N/A" else text
  | None => "N/A"
  end.

Definition detail_line (r : Z * ClaimDetail) : string :=
  join "|" [ str_int (detail_id r.2);
             str_int r.1;
             reason_or_NA (denial_reason r.2);
             cpt_codes r.2 ] +:+ newline.

(** [generate_details_csv]: the lines it yields. *)
Definition generate_details_csv (s : Store) : list string :=
  (join "|" ["id"; "claim_id"; "denial_reason"; "cpt_codes"] +:+ newline)
  :: (detail_line <$> all_details s).

(** The body of the streamed response: the lines one after the other. *)
Definition body (lines : list string) : string := foldr String.append "" lines.

(** [export_csv]: the claims unless another [type] is asked for. *)
Definition export_csv (type : option string) (s : Store) : string :=
  if String.eqb (default "claims" type) "claims"
  then body (generate_claims_csv s)
  else body (generate_details_csv s).

(** ** The notes of [claims/models.py] and their preview in [claims/admin.py] *)

(** A row of the [ClaimNote] table: a comment of a user on a claim. *)
Record ClaimNote : Set := {
  note_claim : Z;
  content : string;
  note_created_by : Z;
  note_created_at : datetime;
  note_updated_at : datetime
}.

(** [ClaimNoteAdmin.content_preview]:
    [obj.content[:50] + "..." if len(obj.content) > 50 else obj.content]. *)
Definition content_preview (obj : ClaimNote) : string :=
  if (50 <? String.length (content obj))%nat
  then substring 0 50 (content obj) +:+ "..."
  else content obj.

(** ** The annotation tables of [claims/models.py] *)

(** A row of the [ClaimFlag] table: a flag set on a claim, open until it
    is resolved. *)
Record ClaimFlag : Set := {
  flag_claim : Z;
  flag_reason : string;
  description : option string;
  is_resolved : bool;
  flagged_by : option Z;
  resolved_by : option Z;
  flag_created_at : datetime;
  resolved_at : option datetime
}.

(** The whole database: the record store with the notes and the flags,
    each table with the sequence of its keys. *)
Record Site : Type := {
  store : Store;
  notes : gmap Z ClaimNote;
  flags : gmap Z ClaimFlag;
  next_note_id : Z;
  next_flag_id : Z
}.

(** ** The views of [claims/views.py] that read and annotate claims *)

(** The readings of [timezone.now()] during a request, in order. *)
Definition timer : Type := nat → datetime.

(** Attribute assignments on a claim instance. *)
Definition set_status (code : string) (c : Claim) : Claim :=
  {| patient_name := patient_name c; billed_amount := billed_amount c;
     paid_amount := paid_amount c; status := code;
     insurer_name := insurer_name c; discharge_date := discharge_date c;
     is_flagged := is_flagged c; created_at := created_at c;
     updated_at := updated_at c; created_by := created_by c;
     updated_by := updated_by c |}.

Definition set_is_flagged (flagged : bool) (c : Claim) : Claim :=
  {| patient_name := patient_name c; billed_amount := billed_amount c;
     paid_amount := paid_amount c; status := status c;
     insurer_name := insurer_name c; discharge_date := discharge_date c;
     is_flagged := flagged; created_at := created_at c;
     updated_at := updated_at c; created_by := created_by c;
     updated_by := updated_by c |}.

Definition set_updated_by (user : option Z) (c : Claim) : Claim :=
  {| patient_name := patient_name c; billed_amount := billed_amount c;
     paid_amount := paid_amount c; status := status c;
     insurer_name := insurer_name c; discharge_date := discharge_date c;
     is_flagged := is_flagged c; created_at := created_at c;
     updated_at := updated_at c; created_by := created_by c;
     updated_by := user |}.

Definition set_updated_at (t : datetime) (c : Claim) : Claim :=
  {| patient_name := patient_name c; billed_amount := billed_amount c;
     paid_amount := paid_amount c; status := status c;
     insurer_name := insurer_name c; discharge_date := discharge_date c;
     is_flagged := is_flagged c; created_at := created_at c;
     updated_at := t; created_by := created_by c;
     updated_by := updated_by c |}.

(** [claim.save()] for an instance read from the table: the row is
    written back, [updated_at] taking the time of the save. *)
Definition save (t : datetime) (claim_id : Z) (claim : Claim) (s : Store) : Store :=
  {| claims := <[claim_id := set_updated_at t claim]> (claims s);
     details := details s;
     next_detail_id := next_detail_id s |}.

Definition with_store (s : Store) (w : Site) : Site :=
  {| store := s; notes := notes w; flags := flags w;
     next_note_id := next_note_id w; next_flag_id := next_flag_id w |}.

Inductive button_text : Set := Flag_text | Unflag_text.

(** What the annotating views answer: the two refusals, and the
    fragments of HTML with the values they show. *)
Inductive http_response : Type :=
  | Http404
  | HttpResponseNotAllowed
  | Flag_button (claim_id : Z) (button_class : string) (text : button_text)
  | Note_item (note : ClaimNote)
  | Error_adding_note
  | Status_badge (status_class status_display : string)
  | Error_badge.

(** [flags.filter(is_resolved=False).update(is_resolved=True, ...)] on one
    row. *)
Definition resolve (user : option Z) (t : datetime) (f : ClaimFlag) : ClaimFlag :=
  {| flag_claim := flag_claim f; flag_reason := flag_reason f;
     description := description f; is_resolved := true;
     flagged_by := flagged_by f; resolved_by := user;
     flag_created_at := flag_created_at f; resolved_at := Some t |}.

Definition open_flag_of (claim_id : Z) (f : ClaimFlag) : bool :=
  bool_decide (flag_claim f = claim_id) && negb (is_resolved f).

(** [toggle_flag], behind [require_http_methods(["POST"])]: [user] is the
    key of the authenticated user, or [None] for an anonymous one. *)
Definition toggle_flag (now : timer) (method : string) (user : option Z)
    (claim_id : Z) (w : Site) : Site * http_response :=
  if negb (String.eqb method "POST") then (w, HttpResponseNotAllowed)
  else
    match claims (store w) !! claim_id with
    | None => (w, Http404)
    | Some claim =>
        if is_flagged claim then
          let claim := set_is_flagged false claim in
          let flags :=
            (λ f, if open_flag_of claim_id f then resolve user (now 0%nat) f else f)
              <$> flags w in
          let claim := set_updated_by user claim in
          ({| store := save (now 1%nat) claim_id claim (store w);
              notes := notes w; flags := flags;
              next_note_id := next_note_id w; next_flag_id := next_flag_id w |},
           Flag_button claim_id "btn-outline-warning" Flag_text)
        else
          let claim := set_is_flagged true claim in
          let flag :=
            {| flag_claim := claim_id; flag_reason := "review_needed";
               description :=
                 Some (match user with
                       | Some _ => "Flagged via web interface"
                       | None => "Flagged by anonymous user"
                       end);
               is_resolved := false; flagged_by := user; resolved_by := None;
               flag_created_at := now 0%nat; resolved_at := None |} in
          let claim := set_updated_by user claim in
          ({| store := save (now 1%nat) claim_id claim (store w);
              notes := notes w; flags := <[next_flag_id w := flag]> (flags w);
              next_note_id := next_note_id w; next_flag_id := next_flag_id w + 1 |},
           Flag_button claim_id "btn-warning" Unflag_text)
    end.

(** [add_note]: the content is stripped; an empty content or an anonymous
    user stores nothing. *)
Definition add_note (now : timer) (method : string) (user : option Z)
    (claim_id : Z) (post_content : option string) (w : Site) : Site * http_response :=
  if negb (String.eqb method "POST") then (w, HttpResponseNotAllowed)
  else
    match claims (store w) !! claim_id with
    | None => (w, Http404)
    | Some claim =>
        let content :=
          string_of_list_ascii (strip (list_ascii_of_string (default "" post_content))) in
        match user with
        | Some user_id =>
            if negb (String.eqb content "") then
              let note := {| note_claim := claim_id; content := content;
                             note_created_by := user_id;
                             note_created_at := now 0%nat;
                             note_updated_at := now 1%nat |} in
              ({| store := store w; notes := <[next_note_id w := note]> (notes w);
                  flags := flags w;
                  next_note_id := next_note_id w + 1; next_flag_id := next_flag_id w |},
               Note_item note)
            else (w, Error_adding_note)
        | None => (w, Error_adding_note)
        end
    end.

(** [dict(Claim.STATUS_CHOICES)] *)
Definition status_dict : gmap string string := list_to_map STATUS_CHOICES.

(** [claim.get_status_display()] *)
Definition get_status_display (c : Claim) : string :=
  default (status c) (status_dict !! status c).

Definition status_class : gmap string string :=
  {[ "pending" := "warning";
     "approved" := "success";
     "denied" := "danger";
     "processing" := "info";
     "review" := "secondary" ]}.

(** [update_status]: only a key of the status choices is taken. *)
Definition update_status (now : timer) (method : string) (user : option Z)
    (claim_id : Z) (new_status : option string) (s : Store) : Store * http_response :=
  if negb (String.eqb method "POST") then (s, HttpResponseNotAllowed)
  else
    match claims s !! claim_id with
    | None => (s, Http404)
    | Some claim =>
        match new_status with
        | Some code =>
            if bool_decide (is_Some (status_dict !! code)) then
              let claim := set_status code claim in
              let claim := set_updated_by user claim in
              (save (now 0%nat) claim_id claim s,
               Status_badge (default "secondary" (status_class !! code))
                            (get_status_display claim))
            else (s, Error_badge)
        | None => (s, Error_badge)
        end
    end.

(** *** Searching: [icontains] on SQLite

    The lookup is a LIKE with the pattern characters of the text escaped:
    a test for a substring that takes no account of the case of the
    letters A to Z. *)
Definition lower (c : ascii) : ascii :=
  if (65 <=? code c) && (code c <=? 90) then ascii_of_N (N_of_ascii c + 32) else c.

Fixpoint starts_with (p l : list ascii) : bool :=
  match p, l with
  | [], _ => true
  | a :: p', b :: l' => Ascii.eqb a b && starts_with p' l'
  | _ :: _, [] => false
  end.

Fixpoint contains (p l : list ascii) : bool :=
  starts_with p l ||
  match l with
  | [] => false
  | _ :: l' => contains p l'
  end.

Definition icontains (text query : string) : bool :=
  contains (lower <$> list_ascii_of_string query) (lower <$> list_ascii_of_string text).

(** [Q(patient_name__icontains=q) | Q(insurer_name__icontains=q) |
    Q(id__icontains=q)] *)
Definition search_hit (query : string) (r : Z * Claim) : bool :=
  icontains (patient_name r.2) query || icontains (insurer_name r.2) query ||
  icontains (str_int r.1) query.

(** [search_claims]: the claims whose blocks make up the answer, at most
    ten; a query of less than two characters is answered with nothing. *)
Definition search_claims (q : option string) (s : Store) : list (Z * Claim) :=
  let query := string_of_list_ascii (strip (list_ascii_of_string (default "" q))) in
  if (String.length query <? 2)%nat then []
  else take 10 (List.filter (search_hit query) (all_claims s)).

(** *** [Paginator(claims, 25)] and [get_page] *)

Inductive page_error : Set := PageNotAnInteger | EmptyPage.

Record Page : Type := {
  object_list : list (Z * Claim);
  number : Z;
  num_pages : Z
}.

Definition per_page : Z := 25.

(** [Paginator.num_pages]: an empty list still has its first page. *)
Definition paginator_num_pages (count : Z) : Z :=
  let hits := Z.max 1 count in
  (hits + per_page - 1) / per_page.

(** [Paginator.validate_number] *)
Definition validate_number (count : Z) (number : option string) : page_error + Z :=
  match int number with
  | inl _ => inl PageNotAnInteger
  | inr n =>
      if n <? 1 then inl EmptyPage
      else if paginator_num_pages count <? n then inl EmptyPage
      else inr n
  end.

(** [Paginator.page] for a valid number: the slice [bottom:top]. *)
Definition paginator_page (rows : list (Z * Claim)) (n : Z) : Page :=
  let count := Z.of_nat (length rows) in
  let bottom := (n - 1) * per_page in
  let top := bottom + per_page in
  let top := if count <=? top then count else top in
  {| object_list := take (Z.to_nat (top - bottom)) (drop (Z.to_nat bottom) rows);
     number := n;
     num_pages := paginator_num_pages count |}.

(** [Paginator.get_page]: what is no integer gives the first page, an
    integer out of range the last one. *)
Definition get_page (rows : list (Z * Claim)) (number : option string) : Page :=
  let count := Z.of_nat (length rows) in
  match validate_number count number with
  | inr n => paginator_page rows n
  | inl PageNotAnInteger => paginator_page rows 1
  | inl EmptyPage => paginator_page rows (paginator_num_pages count)
  end.

Record claim_list_context : Type := {
  page_obj : Page;
  search_query : string;
  status_filter : string;
  flagged_filter : string;
  status_choices : list (string * string)
}.

(** The three filters of [claim_list], each applied when its parameter
    asks for it. *)
Definition claim_list_rows (search_query status_filter flagged_filter : string)
    (s : Store) : list (Z * Claim) :=
  let claims := all_claims s in
  let claims :=
    if negb (String.eqb search_query "")
    then List.filter (search_hit search_query) claims else claims in
  let claims :=
    if negb (String.eqb status_filter "")
    then List.filter (λ r, String.eqb (status r.2) status_filter) claims else claims in
  if String.eqb flagged_filter "true"
  then List.filter (λ r, is_flagged r.2) claims
  else if String.eqb flagged_filter "false"
  then List.filter (λ r, negb (is_flagged r.2)) claims
  else claims.

(** [claim_list], from the parameters of the query string. *)
Definition claim_list (search status flagged page : option string) (s : Store)
  : claim_list_context :=
  let search_query := default "" search in
  let status_filter := default "" status in
  let flagged_filter := default "" flagged in
  let claims := claim_list_rows search_query status_filter flagged_filter s in
  {| page_obj := get_page claims page;
     search_query := search_query;
     status_filter := status_filter;
     flagged_filter := flagged_filter;
     status_choices := STATUS_CHOICES |}.

(** *** [claim_detail] *)

(** Latest first, as the [Meta] of both annotation tables orders them. *)
Definition note_later (a b : Z * ClaimNote) : Prop :=
  datetime_leb (note_created_at b.2) (note_created_at a.2).

Global Instance note_later_dec : RelDecision note_later.
Proof. intros a b. unfold note_later. apply _. Defined.

Definition flag_later (a b : Z * ClaimFlag) : Prop :=
  datetime_leb (flag_created_at b.2) (flag_created_at a.2).

Global Instance flag_later_dec : RelDecision flag_later.
Proof. intros a b. unfold flag_later. apply _. Defined.

Record claim_detail_context : Type := {
  ctx_claim : Claim;
  ctx_claim_detail : ClaimDetail;
  ctx_notes : list (Z * ClaimNote);
  ctx_flags : list (Z * ClaimFlag)
}.

(** [ClaimDetail.objects.get_or_create(claim=claim)]: a claim without a
    detail is given one, with no codes and no reason. *)
Definition get_or_create (now : timer) (claim_id : Z) (s : Store)
  : Store * ClaimDetail * bool :=
  match details s !! claim_id with
  | Some detail => (s, detail, false)
  | None =>
      let detail := {| detail_id := next_detail_id s; cpt_codes := "";
                       denial_reason := None;
                       detail_created_at := now 0%nat;
                       detail_updated_at := now 1%nat |} in
      ({| claims := claims s;
          details := <[claim_id := detail]> (details s);
          next_detail_id := next_detail_id s + 1 |}, detail, true)
  end.

(** [claim_detail]: [None] is the answer 404. *)
Definition claim_detail (now : timer) (claim_id : Z) (w : Site)
  : Site * option claim_detail_context :=
  match claims (store w) !! claim_id with
  | None => (w, None)
  | Some claim =>
      let '(s, detail, created) := get_or_create now claim_id (store w) in
      (with_store s w,
       Some {| ctx_claim := claim;
               ctx_claim_detail := detail;
               ctx_notes :=
                 merge_sort note_later
                   (filter (λ r, note_claim r.2 = claim_id) (map_to_list (notes w)));
               ctx_flags :=
                 merge_sort flag_later
                   (filter (λ r, flag_claim r.2 = claim_id) (map_to_list (flags w))) |})
  end.

(** ** Notions used to state the properties *)

(** The first line of a text cut at every pipe, with no regard to quotes. *)
Fixpoint first_line (l : list ascii) : list ascii :=
  match l with
  | [] => []
  | c :: r => if Ascii.eqb c Csv.LF || Ascii.eqb c Csv.CR then [] else c :: first_line r
  end.

Definition first_line_split (text : string) : list string :=
  string_of_list_ascii <$> split_on "|" [] (first_line (list_ascii_of_string text)).

(** The fields of a claim other than the two time stamps. *)
Definition claim_data (c : Claim)
  : string * Z * Z * string * string * date * bool * option Z * option Z :=
  (patient_name c, billed_amount c, paid_amount c, status c, insurer_name c,
   discharge_date c, is_flagged c, created_by c, updated_by c).

(** The fields of a detail other than the two time stamps. *)
Definition detail_data (d : ClaimDetail) : Z * string * option string :=
  (detail_id d, cpt_codes d, denial_reason d).

(** Two stores holding the same rows up to the time stamps. *)
Definition same_but_timestamps (s1 s2 : Store) : Prop :=
  claim_data <$> claims s1 = claim_data <$> claims s2 ∧
  detail_data <$> details s1 = detail_data <$> details s2.

(** The columns of a claim that the exchange format carries besides the
    status. *)
Definition claim_exchanged (c : Claim) : string * Z * Z * string * date :=
  (patient_name c, billed_amount c, paid_amount c, insurer_name c, discharge_date c).

(** A denial reason as it comes back from the exchange format: the empty
    reason and the literal [N/A] come back as no reason. *)
Definition reason_exchanged (reason : option string) : option string :=
  match reason with
  | Some text =>
      if String.eqb text "" || String.eqb text "N/A" then None else Some text
  | None => None
  end.

Definition detail_exchanged (d : ClaimDetail) : string * option string :=
  (cpt_codes d, reason_exchanged (denial_reason d)).

(** A text that the exchange format can carry in one field: no pipe, no
    line end, and no quote in front. *)
Definition plain_char (c : ascii) : bool :=
  negb (Ascii.eqb c "|") && negb (Ascii.eqb c Csv.LF) && negb (Ascii.eqb c Csv.CR).

Definition plain (text : string) : bool :=
  let l := list_ascii_of_string text in
  forallb plain_char l &&
  match l with
  | c :: _ => negb (Ascii.eqb c Csv.QUOTE)
  | [] => true
  end.

Definition status_codes : list string := fst <$> STATUS_CHOICES.

(** A text that the reader of the [csv] module takes whatever its
    version: no NUL character, and no more characters than the limit on
    the size of a field. *)
Definition readable (text : string) : bool :=
  forallb (λ c, negb (Ascii.eqb c "000")) (list_ascii_of_string text) &&
  (Z.of_nat (String.length text) <=? 131072).

(** An amount, in hundredths, that the column
    [DecimalField(max_digits=10, decimal_places=2)] reads and writes: one
    of ten digits at most. *)
Definition ten_digits (amount : Z) : bool := Z.abs amount <? 10 ^ 10.

(** A store whose rows the exchange format can carry: field texts are
    plain and readable, statuses are status codes, amounts have ten digits
    at most, discharge dates are calendar days with a year of four digits,
    and every detail belongs to a stored claim. *)
Definition exchangeable_claim (c : Claim) : bool :=
  plain (patient_name c) && plain (insurer_name c) &&
  bool_decide (status c ∈ status_codes) && valid_date (discharge_date c) &&
  (1000 <=? year (discharge_date c)) &&
  ten_digits (billed_amount c) && ten_digits (paid_amount c) &&
  readable (patient_name c) && readable (insurer_name c).

Definition exchangeable_detail (s : Store) (r : Z * ClaimDetail) : bool :=
  bool_decide (is_Some (claims s !! r.1)) && plain (cpt_codes r.2) &&
  plain (reason_or_NA (denial_reason r.2)) &&
  readable (cpt_codes r.2) && readable (reason_or_NA (denial_reason r.2)).

Definition exchangeable (s : Store) : bool :=
  forallb (λ r, exchangeable_claim r.2) (map_to_list (claims s)) &&
  forallb (exchangeable_detail s) (map_to_list (details s)).

(** A detail row whose [claim_id] cell is a text naming no stored claim. *)
Definition orphan_row (s : Store) (row : gmap string (option string)) : bool :=
  match row !! "claim_id" with
  | Some (Some text) =>
      match int (Some text) with
      | inr claim_id => bool_decide (claims s !! claim_id = None)
      | inl _ => true
      end
  | Some None => false
  | None => true
  end.

(** The instances that a run of the claims loop hands to [bulk_create], in
    order: the full batches, and the last batch when the loop ends without
    an exception. *)
Fixpoint flushed (now : clock) (rows : list (gmap string (option string)))
    (i : nat) (claims_batch : list NewClaim) : list NewClaim :=
  match rows with
  | [] => claims_batch
  | row :: rest =>
      match new_claim now i row with
      | inr claim =>
          let claims_batch := claims_batch ++ [claim] in
          if (batch_size <=? length claims_batch)%nat
          then claims_batch ++ flushed now rest (S i) []
          else flushed now rest (S i) claims_batch
      | inl e => if caught e then flushed now rest (S i) claims_batch else []
      end
  end.

(** Sample data: a clock that stands still, and a one-line end. *)
Definition noon : datetime :=
  {| dt_date := {| year := 2024; month := 5; day := 1 |}; dt_time := 43200 |}.

Definition still : clock := λ _, (noon, noon).

Definition claims_header : string :=
  "id|patient_name|billed_amount|paid_amount|status|insurer_name|discharge_date".

Definition details_header : string := "id|claim_id|denial_reason|cpt_codes".

(** The lines of a file, each closed by a line end. *)
Definition file_of (lines : list string) : string := body ((λ l, l +:+ newline) <$> lines).

(** A text without white space at either end. *)
Definition trimmed (l : list ascii) : bool :=
  match l with c :: _ => negb (is_space c) | [] => true end &&
  match rev l with c :: _ => negb (is_space c) | [] => true end.

Definition no_comma (l : list ascii) : bool :=
  forallb (λ c, negb (Ascii.eqb c ",")) l.

(** The number of commas of a text. *)
Definition commas (text : string) : nat :=
  length (List.filter (λ c, Ascii.eqb c ",") (list_ascii_of_string text)).

(** The warning of the claims loop for a row it passes over. *)
Definition is_skipped (l : line) : bool :=
  match l with
  | Skipping_invalid_row _ _ => true
  | _ => false
  end.

(** Every detail belongs to a stored claim. *)
Definition details_have_claims (s : Store) : Prop :=
  ∀ id, is_Some (details s !! id) → is_Some (claims s !! id).

(** Every stored claim has one of the status codes. *)
Definition statuses_valid (s : Store) : Prop :=
  ∀ id c, claims s !! id = Some c → status c ∈ status_codes.


(** Every stored claim has amounts that the amount column can hold:
    [DecimalField(max_digits=10)] refuses to write any other, and raises
    when it reads one. *)
Definition amounts_fit (s : Store) : bool :=
  forallb (λ r, ten_digits (billed_amount r.2) && ten_digits (paid_amount r.2))
          (map_to_list (claims s)).

(** The claim has a flag that is not resolved. *)
Definition has_open_flag (w : Site) (claim_id : Z) : Prop :=
  ∃ key f, flags w !! key = Some f ∧ open_flag_of claim_id f = true.

(** The query occurs in the text, the letters taken without their case. *)
Definition occurs (query text : string) : Prop :=
  ∃ before after,
    lower <$> list_ascii_of_string text =
    before ++ (lower <$> list_ascii_of_string query) ++ after.

(** ** Notions used in the proofs *)

(** The characters of a text. *)
Definition chars (s : string) : list ascii := list_ascii_of_string s.

(** The characters of the numerals that the export writes. *)
Definition numeric_char (c : ascii) : bool :=
  is_digit c || Ascii.eqb c "-" || Ascii.eqb c ".".

(** A line in which no field opens with a quote: [at_start] tells whether
    the next character opens a field. *)
Fixpoint unquoted (at_start : bool) (l : list ascii) : bool :=
  match l with
  | [] => true
  | c :: r =>
      if at_start && Ascii.eqb c Csv.QUOTE then false
      else unquoted (Ascii.eqb c "|") r
  end.

Definition no_line_end (c : ascii) : bool :=
  negb (Ascii.eqb c Csv.LF) && negb (Ascii.eqb c Csv.CR).

Definition no_pipe (l : list ascii) : bool :=
  forallb (λ c, negb (Ascii.eqb c "|")) l.

(** The two warnings of the details loop. *)
Definition is_warning (l : line) : bool :=
  match l with
  | Claim_not_found _ | Skipping_invalid_detail_row _ _ => true
  | _ => false
  end.

(** An instance that the store has settled: the batch insert passes it
    over, for want of a value in a NOT NULL column or because its id is
    taken. *)
Definition settled (s : Store) (c : NewClaim) : Prop :=
  claim_row c = None ∨ is_Some (claims s !! new_id c).

(** Two instances with the same id and the same missing columns. *)
Definition same_key (c c' : NewClaim) : Prop :=
  new_id c = new_id c' ∧ (claim_row c = None ↔ claim_row c' = None).

(** The fields of the line that the export writes for a claim and for a
    detail. *)
Definition claim_fields (r : Z * Claim) : list string :=
  [ str_int r.1; patient_name r.2; str_cents (billed_amount r.2);
    str_cents (paid_amount r.2); status r.2; insurer_name r.2;
    strftime (discharge_date r.2) ].

Definition detail_fields (r : Z * ClaimDetail) : list string :=
  [ str_int (detail_id r.2); str_int r.1; reason_or_NA (denial_reason r.2);
    cpt_codes r.2 ].

(** The content of a stored detail: its codes and its reason. *)
Definition detail_content (d : ClaimDetail) : string * option string :=
  (cpt_codes d, denial_reason d).

(** What a listed claim, and a listed detail, becomes when its exported
    line is loaded. *)
Definition reloaded_claim (r : Z * Claim) (c : NewClaim) : Prop :=
  new_id c = r.1 ∧
  ∃ row, claim_row c = Some row ∧ claim_exchanged row = claim_exchanged r.2.

Definition reloaded_detail (r : Z * ClaimDetail) (d : NewClaimDetail) : Prop :=
  new_claim_id d = r.1 ∧
  new_cpt_codes d = Some (cpt_codes r.2) ∧
  new_denial_reason d = reason_exchanged (denial_reason r.2).

(** The key and the exchanged columns under which an instance is stored,
    when the store accepts it. *)
Definition exchanged_of (c : NewClaim) : option (Z * (string * Z * Z * string * date)) :=
  (λ row, (new_id c, claim_exchanged row)) <$> claim_row c.

Definition content_of (d : NewClaimDetail) : option (Z * (string * option string)) :=
  (λ codes, (new_claim_id d, (codes, new_denial_reason d))) <$> new_cpt_codes d.


(** Export of a store followed by the load of the two files with [clear]. *)
Definition round_trip (s : Store) : run () :=
  handle still still (Some (export_csv None s)) (Some (export_csv (Some "details") s))
    true s.

(** An instance of a detail as the details loop builds them: its claim is
    stored, and its reason is not the literal [N/A]. *)
Definition good_detail (s : Store) (d : NewClaimDetail) : Prop :=
  is_Some (claims s !! new_claim_id d) ∧ new_denial_reason d ≠ Some "N/A".

(** ** Sample stores and files *)

(** A denied claim billed 100.00 and paid nothing, a detail with an empty
    reason, and a store holding the claim under the id 7. *)
Definition sample_claim : Claim :=
  {| patient_name := "Ann"; billed_amount := 10000; paid_amount := 0;
     status := "denied"; insurer_name := "Acme";
     discharge_date := {| year := 2020; month := 1; day := 5 |};
     is_flagged := false; created_at := noon; updated_at := noon;
     created_by := None; updated_by := None |}.

Definition sample_detail : ClaimDetail :=
  {| detail_id := 1; cpt_codes := "99213"; denial_reason := Some "";
     detail_created_at := noon; detail_updated_at := noon |}.

Definition sample_store : Store :=
  {| claims := {[ 7 := sample_claim ]}; details := ∅; next_detail_id := 1 |}.

(** A store with one flagged, pending claim and its detail; and a store
    with one approved claim. *)
Definition flagged_claim : Claim :=
  {| patient_name := "Ann"; billed_amount := 10000; paid_amount := 8000;
     status := "pending"; insurer_name := "Acme";
     discharge_date := {| year := 2020; month := 1; day := 5 |};
     is_flagged := true; created_at := noon; updated_at := noon;
     created_by := None; updated_by := None |}.

Definition approved_claim : Claim :=
  {| patient_name := "Ann"; billed_amount := 10000; paid_amount := 8000;
     status := "approved"; insurer_name := "Acme";
     discharge_date := {| year := 2020; month := 1; day := 5 |};
     is_flagged := false; created_at := noon; updated_at := noon;
     created_by := None; updated_by := None |}.

Definition flagged_store : Store :=
  {| claims := {[ 7 := flagged_claim ]}; details := {[ 7 := sample_detail ]};
     next_detail_id := 2 |}.

Definition approved_store : Store :=
  {| claims := {[ 7 := approved_claim ]}; details := ∅; next_detail_id := 1 |}.

(** A store with one claim discharged on the last day of the year 999. *)
Definition early_claim : Claim :=
  {| patient_name := "Ann"; billed_amount := 10000; paid_amount := 8000;
     status := "pending"; insurer_name := "Acme";
     discharge_date := {| year := 999; month := 12; day := 31 |};
     is_flagged := false; created_at := noon; updated_at := noon;
     created_by := None; updated_by := None |}.

Definition early_store : Store :=
  {| claims := {[ 7 := early_claim ]}; details := ∅; next_detail_id := 1 |}.

(** The store after loading one claim billed 100.00 and paid 0.00. *)
Definition unpaid_file : string :=
  file_of [claims_header; "1|Ann|100.00|0.00|Denied|Acme|2020-01-05"].

Definition unpaid_store : Store := db (import_claims still unpaid_file empty_store []).

(** Claims files whose first data row has a malformed amount, a malformed
    date, or too few fields, and whose second data row is well formed. *)
Definition malformed_amount_file : string :=
  file_of [claims_header;
           "1|Ann|abc|80.00|Paid|Acme|2020-01-05";
           "2|Bob|50.00|0.00|Denied|Acme|2020-02-29"].

Definition malformed_date_file : string :=
  file_of [claims_header;
           "1|Ann|100.00|80.00|Paid|Acme|05/01/2020";
           "2|Bob|50.00|0.00|Denied|Acme|2020-02-29"].

Definition short_row_file : string :=
  file_of [claims_header;
           "1|Ann";
           "2|Bob|50.00|0.00|Denied|Acme|2020-02-29"].

(** A claims file in which an id comes twice. *)
Definition duplicate_ids_file : string :=
  file_of [claims_header;
           "1|Ann|100.00|80.00|Paid|Acme|2020-01-05";
           "2|Bob|50.00|0.00|Denied|Acme|2020-02-29";
           "1|Cy|7.00|7.00|Pending|Zed|2021-03-04"].

(** A claims file whose first two header names are swapped, one whose
    header has its first name in double quotes, and a good details file. *)
Definition swapped_header_file : string :=
  file_of ["patient_name|id|billed_amount|paid_amount|status|insurer_name|discharge_date";
           "Ann|1|100.00|80.00|Paid|Acme|2020-01-05"].

Definition quoted_header_file : string :=
  file_of [String Csv.QUOTE ("id" +:+ String Csv.QUOTE
             "|patient_name|billed_amount|paid_amount|status|insurer_name|discharge_date");
           "1|Ann|100.00|80.00|Paid|Acme|2020-01-05"].

Definition good_details_file : string :=
  file_of [details_header; "1|1|N/A|99213"].

(** Details files: one whose rows name no stored claim, one with a short
    row. *)
Definition orphan_details_file : string :=
  file_of [details_header; "1|41|Not covered|99213"; "2|x|N/A|99214"; "3|42||99215"].

Definition short_detail_file : string :=
  file_of [details_header; "1"].

(** A details file with a row for the claim 7, a row for a claim that is
    not stored and a row whose claim id is no number. *)
Definition mixed_details_file : string :=
  file_of [details_header; "1|7|N/A|99213"; "2|41|Not covered|99214"; "3|x||99215"].

(** A detail with two codes. *)
Definition two_codes_detail : ClaimDetail :=
  {| detail_id := 1; cpt_codes := "99213,99214"; denial_reason := None;
     detail_created_at := noon; detail_updated_at := noon |}.

(** Two claims files that agree on the header and on the first three data
    rows: the fourth data row of the second is too short. *)
Definition four_rows_file : string :=
  file_of [claims_header;
           "1|Ann|100.00|80.00|Paid|Acme|2020-01-05";
           "2|Bob|50.00|0.00|Denied|Acme|2020-02-29";
           "3|Cy|7.00|7.00|Pending|Zed|2021-03-04";
           "4|Di|9.00|1.00|Paid|Zed|2021-03-05"].

Definition short_fourth_row_file : string :=
  file_of [claims_header;
           "1|Ann|100.00|80.00|Paid|Acme|2020-01-05";
           "2|Bob|50.00|0.00|Denied|Acme|2020-02-29";
           "3|Cy|7.00|7.00|Pending|Zed|2021-03-04";
           "4|Di"].

(** A store with two claims, and a site holding it without notes or
    flags. *)
Definition two_claims_store : Store :=
  {| claims := {[ 7 := flagged_claim; 8 := approved_claim ]};
     details := {[ 7 := sample_detail ]}; next_detail_id := 2 |}.

Definition two_claims_site : Site :=
  {| store := two_claims_store; notes := ∅; flags := ∅;
     next_note_id := 1; next_flag_id := 1 |}.

Definition at_noon : timer := λ _, noon.

(** * Properties *)

(** ** The status mapping *)




(** ** The denial reason in the exchange format *)

Lemma new_claim_detail_found now i s row text claim_id c reason codes :
  row !! "claim_id" = Some (Some text) →
  int (Some text) = inr claim_id →
  claims s !! claim_id = Some c →
  row !! "denial_reason" = Some reason →
  row !! "cpt_codes" = Some codes →
  new_claim_detail now i s row =
    inr (inr {| new_claim_id := claim_id;
                new_cpt_codes := codes;
                new_denial_reason :=
                  if decide (reason = Some "N/A") then None else reason;
                new_detail_created_at := fst (now i);
                new_detail_updated_at := snd (now i) |}).
Proof.
  intros Hid Hint Hc Hr Hcodes. unfold new_claim_detail, Csv.getitem.
  rewrite Hid. cbv [mbind result_bind ret]. rewrite Hint, Hc, Hr, Hcodes.
  reflexivity.
Qed.



(** ** The dashboard *)

Lemma rows_where_empty (P : Claim → Prop) `{!∀ c, Decision (P c)} s :
  claims s = ∅ → rows_where P s = [].
Proof. intros Hs. unfold rows_where. by rewrite Hs, map_to_list_empty. Qed.

Lemma count_statuses_empty s :
  claims s = ∅ →
  count_statuses s =
    <["Under Review" := O]> (<["Processing" := O]> (<["Denied" := O]>
      (<["Approved" := O]> (<["Pending" := O]> ∅)))).
Proof.
  intros H. unfold count_statuses, STATUS_CHOICES. simpl.
  by rewrite !rows_where_empty.
Qed.

Lemma denied_reasons_no_claims s : claims s = ∅ → denied_reasons s = [].
Proof.
  intros H. unfold denied_reasons. rewrite H.
  induction (map_to_list (details s)) as [| d l IH]; [done |].
  simpl. rewrite lookup_empty. exact IH.
Qed.

(** The guard of the average underpayment keeps the subtraction away from
    [None]: the dashboard is computed for every store. *)
Lemma guarded_sub_returns (a b : option Qc) :
  ∃ u, (if truthy a && truthy b then decimal_sub a b else ret (Q2Qc 0)) = inr u.
Proof.
  destruct a as [x |], b as [y |]; unfold decimal_sub.
  - destruct (_ && _); by eexists.
  - change (truthy None) with false. rewrite andb_false_r. by eexists.
  - by eexists.
  - by eexists.
Qed.

Lemma dashboard_returns s : ∃ ctx, dashboard s = inr ctx.
Proof.
  unfold dashboard. cbv zeta.
  destruct (guarded_sub_returns
              (Avg ((λ r : Z * Claim, billed_amount r.2) <$> map_to_list (claims s)))
              (Avg ((λ r : Z * Claim, paid_amount r.2) <$> map_to_list (claims s))))
    as [u ->].
  by eexists.
Qed.

(** What a computed dashboard holds, as far as the properties below need
    it. *)
Lemma dashboard_inr s ctx :
  dashboard s = inr ctx →
  let all := map_to_list (claims s) in
  let fs := financial_stats ctx in
  status_counts ctx = count_statuses s ∧
  total_underpayment fs = total_billed fs - total_paid fs ∧
  avg_billed fs = or_zero_avg (Avg ((λ r, billed_amount r.2) <$> all)) ∧
  avg_paid fs = or_zero_avg (Avg ((λ r, paid_amount r.2) <$> all)) ∧
  (if truthy (Avg ((λ r, billed_amount r.2) <$> all)) &&
      truthy (Avg ((λ r, paid_amount r.2) <$> all))
   then decimal_sub (Avg ((λ r, billed_amount r.2) <$> all))
                    (Avg ((λ r, paid_amount r.2) <$> all))
   else ret (Q2Qc 0)) = inr (avg_underpayment fs).
Proof.
  unfold dashboard. cbv zeta.
  destruct (if truthy _ && truthy _ then _ else _) as [e | u] eqn:Hu; [done |].
  cbv [mbind result_bind ret]. by intros [= <-].
Qed.

(** C8: on a store without claims the dashboard is computed without
    failure: the counts, the sums, the three averages and every status
    count are zero, and the insurer ranking and the monthly statistics are
    empty. *)
Theorem dashboard_empty_store (s : Store) :
  claims s = ∅ →
  ∃ ctx, dashboard s = inr ctx ∧
  total_claims ctx = O ∧
  flagged_claims ctx = O ∧
  total_billed (financial_stats ctx) = 0 ∧
  total_paid (financial_stats ctx) = 0 ∧
  total_underpayment (financial_stats ctx) = 0 ∧
  avg_billed (financial_stats ctx) = Q2Qc 0 ∧
  avg_paid (financial_stats ctx) = Q2Qc 0 ∧
  avg_underpayment (financial_stats ctx) = Q2Qc 0 ∧
  underpaid_claims (financial_stats ctx) = O ∧
  (∀ choice, choice ∈ STATUS_CHOICES → status_counts ctx !! choice.2 = Some O) ∧
  (∀ name n, status_counts ctx !! name = Some n → n = O) ∧
  top_insurers ctx = [] ∧
  monthly_stats ctx = [] ∧
  recent_claims ctx = [] ∧
  denial_stats ctx = {| denial_count := O; denial_total_amount := 0 |} ∧
  top_denial_reasons ctx = [].
Proof.
  intros H. unfold dashboard.
  rewrite !rows_where_empty, count_statuses_empty, denied_reasons_no_claims by done.
  rewrite H, map_to_list_empty. cbn -[Q2Qc].
  eexists. split; [reflexivity |]. cbn -[Q2Qc].
  repeat split; try reflexivity.
  - intros choice Hin. unfold STATUS_CHOICES in Hin.
    repeat (apply elem_of_cons in Hin as [-> | Hin]; [reflexivity |]).
    by apply elem_of_nil in Hin.
  - intros name n.
    repeat (rewrite lookup_insert; case_decide; [by intros [= <-] |]).
    by rewrite lookup_empty.
Qed.

Lemma dashboard_empty_store_witness :
  claims empty_store = ∅ ∧
  ∃ ctx, dashboard empty_store = inr ctx ∧
         total_claims ctx = O ∧ top_insurers ctx = [] ∧ monthly_stats ctx = [].
Proof.
  destruct (dashboard_empty_store empty_store eq_refl)
    as (ctx & Hctx & H1 & _ & _ & _ & _ & _ & _ & _ & _ & _ & _ & H12 & H13 & _).
  split; [reflexivity |].
  exists ctx. split; [exact Hctx |]. split; [exact H1 |]. split; [exact H12 | exact H13].
Defined.

Lemma length_rows_where (P : Claim → Prop) `{!∀ c, Decision (P c)} s :
  length (rows_where P s) = size (filter (λ r : Z * Claim, P r.2) (claims s)).
Proof.
  unfold rows_where. rewrite map_filter_alt, map_size_list_to_map; [done |].
  eapply sublist_NoDup; [apply (NoDup_fst_map_to_list (claims s)) |].
  apply fmap_sublist, sublist_filter.
Qed.

Lemma count_statuses_lookup s choice :
  choice ∈ STATUS_CHOICES →
  count_statuses s !! choice.2 =
    Some (length (rows_where (λ c, status c = choice.1) s)).
Proof.
  intros Hin. unfold STATUS_CHOICES in Hin.
  repeat (apply elem_of_cons in Hin as [-> | Hin]; [reflexivity |]).
  by apply elem_of_nil in Hin.
Qed.

Lemma count_statuses_size s : size (count_statuses s) = 5%nat.
Proof.
  unfold count_statuses. simpl.
  rewrite !map_size_insert_None; [by rewrite map_size_empty | ..];
    repeat (rewrite lookup_insert_ne by discriminate); apply lookup_empty.
Qed.

(** C4, as the code has it: for every store the dashboard is computed, and
    its status breakdown has one entry for each of the five status choices,
    under its display name and also when no claim has the status; the
    entry is the number of stored claims with that status code. *)
Theorem status_counts_per_choice (s : Store) :
  ∃ ctx, dashboard s = inr ctx ∧
  size (status_counts ctx) = 5%nat ∧
  length STATUS_CHOICES = 5%nat ∧
  (∀ name, is_Some (status_counts ctx !! name) ↔ name ∈ snd <$> STATUS_CHOICES) ∧
  ∀ choice, choice ∈ STATUS_CHOICES →
    status_counts ctx !! choice.2 =
      Some (size (filter (λ r : Z * Claim, status r.2 = choice.1) (claims s))).
Proof.
  destruct (dashboard_returns s) as [ctx Hctx]. exists ctx. split; [exact Hctx |].
  destruct (dashboard_inr s ctx Hctx) as (-> & _).
  split; [apply count_statuses_size | split; [reflexivity | split]].
  - intros name. unfold count_statuses. simpl. split.
    + repeat (rewrite lookup_insert; case_decide;
              [subst name; intros _; apply (bool_decide_unpack _); by vm_compute |]).
      rewrite lookup_empty. by intros [? ?].
    + intros Hin.
      repeat (apply elem_of_cons in Hin as [-> | Hin]; [by eexists |]).
      by apply elem_of_nil in Hin.
  - intros choice Hin.
    by rewrite count_statuses_lookup, length_rows_where.
Qed.

Lemma status_counts_per_choice_witness :
  ("denied", "Denied") ∈ STATUS_CHOICES ∧
  ∃ ctx, dashboard sample_store = inr ctx ∧
         status_counts ctx !! "Denied" = Some 1%nat ∧
         status_counts ctx !! "Pending" = Some 0%nat.
Proof.
  destruct (status_counts_per_choice sample_store) as (ctx & Hctx & _ & _ & _ & H).
  assert (Hd : ("denied", "Denied") ∈ STATUS_CHOICES)
    by (apply (bool_decide_unpack _); by vm_compute).
  assert (Hp : ("pending", "Pending") ∈ STATUS_CHOICES)
    by (apply (bool_decide_unpack _); by vm_compute).
  split; [exact Hd |]. exists ctx. split; [exact Hctx |]. split.
  - etransitivity; [exact (H _ Hd) |]. by vm_compute.
  - etransitivity; [exact (H _ Hp) |]. by vm_compute.
Defined.

(** C4 as stated fails: the breakdown has five categories, not six. *)
Lemma status_counts_not_six :
  ¬ ∃ ctx, dashboard empty_store = inr ctx ∧ size (status_counts ctx) = 6%nat.
Proof.
  intros (ctx & Hctx & Hsize).
  destruct (dashboard_inr _ _ Hctx) as (Hcounts & _).
  rewrite Hcounts, count_statuses_size in Hsize. discriminate Hsize.
Qed.

Lemma total_underpayment_difference s ctx :
  dashboard s = inr ctx →
  total_underpayment (financial_stats ctx) =
    total_billed (financial_stats ctx) - total_paid (financial_stats ctx).
Proof. intros Hctx. by destruct (dashboard_inr _ _ Hctx) as (_ & H & _). Qed.

(** Where neither average is zero, the average underpayment is the
    difference of the two averages. *)
Lemma avg_underpayment_difference s ctx :
  dashboard s = inr ctx →
  let fs := financial_stats ctx in
  avg_billed fs ≠ Q2Qc 0 → avg_paid fs ≠ Q2Qc 0 →
  avg_underpayment fs = (avg_billed fs - avg_paid fs)%Qc.
Proof.
  intros Hctx. cbn zeta.
  destruct (dashboard_inr _ _ Hctx) as (_ & _ & -> & -> & Hu). revert Hu.
  destruct (Avg _) as [b |], (Avg _) as [p |]; cbn [or_zero_avg default truthy];
    intros Hu Hb Hp; try done.
  rewrite !decide_False in Hu by done. simpl in Hu. by injection Hu as <-.
Qed.

(** C3 fails on the code: with one claim billed 100.00 and paid 0.00 the
    average billed amount is 100.00 and the average paid amount is zero,
    and the dashboard gives zero as the average underpayment, not their
    difference. *)
Theorem avg_underpayment_zero_paid :
  ∃ ctx, dashboard unpaid_store = inr ctx ∧
  let fs := financial_stats ctx in
  avg_billed fs = Q2Qc (inject_Z 10000) ∧
  avg_paid fs = Q2Qc 0 ∧
  avg_underpayment fs = Q2Qc 0 ∧
  avg_underpayment fs ≠ (avg_billed fs - avg_paid fs)%Qc.
Proof.
  destruct (dashboard_returns unpaid_store) as [ctx Hctx].
  exists ctx. split; [exact Hctx |]. cbn zeta.
  destruct (dashboard_inr _ _ Hctx) as (_ & _ & Hb & Hp & Hu).
  assert (Hb' : avg_billed (financial_stats ctx) = Q2Qc (inject_Z 10000))
    by (rewrite Hb; apply Qc_is_canon; by vm_compute).
  assert (Hp' : avg_paid (financial_stats ctx) = Q2Qc 0)
    by (rewrite Hp; apply Qc_is_canon; by vm_compute).
  assert (Hu' : avg_underpayment (financial_stats ctx) = Q2Qc 0).
  { assert (Hg : truthy (Avg ((λ r : Z * Claim, paid_amount r.2)
                                <$> map_to_list (claims unpaid_store))) = false)
      by (by vm_compute).
    rewrite Hg, andb_false_r in Hu. by injection Hu as <-. }
  repeat split; try assumption.
  rewrite Hu', Hb', Hp'. intros Heq. apply (f_equal this) in Heq.
  vm_compute in Heq. discriminate Heq.
Qed.

(** ** Rows that the loader cannot map *)

(** The row loop recovers from the two exception classes it names. *)
Lemma import_claims_rows_skip now row rest i batch count s out e :
  new_claim now i row = inl e → caught e = true →
  import_claims_rows now (row :: rest) i batch count s out =
  import_claims_rows now rest (S i) batch count s (out ++ [Skipping_invalid_row row e]).
Proof. intros He Hc. simpl. by rewrite He, Hc. Qed.

(** A run of the claims loader never ends with a [ValueError] or a
    [KeyError]. *)
Lemma import_claims_rows_uncaught now rows i batch count s out e :
  outcome (import_claims_rows now rows i batch count s out) = inl e →
  caught e = false.
Proof.
  revert i batch count s out.
  induction rows as [| row rest IH]; intros i batch count s out; simpl.
  - by destruct batch.
  - destruct (new_claim now i row) as [e' | claim] eqn:Hrow.
    + destruct (caught e') eqn:Hc; [apply IH |]. simpl. by intros [= <-].
    + case_match; apply IH.
Qed.

(** A malformed date, a text that is no integer and a missing column all
    raise one of the two classes. *)
Lemma strptime_date_error text e : strptime_date (Some text) = inl e → e = ValueError.
Proof. unfold strptime_date. repeat case_match; by intros [= <-]. Qed.

Lemma int_error text e : int (Some text) = inl e → e = ValueError.
Proof. unfold int. case_match; by intros [= <-]. Qed.

Lemma getitem_error row key e : Csv.getitem row key = inl e → e = KeyError.
Proof. unfold Csv.getitem. case_match; by intros [= <-]. Qed.

(** A text that is no decimal raises an exception of another class. *)
Lemma Decimal_error text e : Decimal (Some text) = inl e → e = InvalidOperation.
Proof. unfold Decimal. case_match; by intros [= <-]. Qed.

(** C7 fails on the code for a malformed decimal: [Decimal] raises
    [InvalidOperation], which the [except] clause of the row loop does not
    name; the exception leaves [import_claims], no count is returned and
    the well-formed row after it is not loaded. *)
Theorem import_claims_malformed_amount :
  let r := import_claims still malformed_amount_file empty_store [] in
  outcome r = raise InvalidOperation ∧ claims (db r) = ∅ ∧ stdout r = [].
Proof. cbn zeta. by vm_compute. Qed.

(** The same file with a malformed date instead: the row is skipped with a
    warning and the next row is loaded. *)
Lemma import_claims_malformed_date :
  let r := import_claims still malformed_date_file empty_store [] in
  outcome r = ret 1%nat ∧ dom (claims (db r)) = {[ 2 ]} ∧ length (stdout r) = 1%nat.
Proof. cbn zeta. by vm_compute. Qed.

(** A short row gives [None] cells, on which the conversions raise
    [TypeError]: this too leaves the loader. *)
Lemma import_claims_short_row :
  let r := import_claims still short_row_file empty_store [] in
  outcome r = raise TypeError ∧ claims (db r) = ∅.
Proof. cbn zeta. by vm_compute. Qed.

(** ** The validator and the upload *)

Lemma validate_file_headers file expected text headers rest :
  Csv.reader text = headers :: rest → headers ≠ expected →
  Headers_incorrect file expected headers ∈ validate_file file expected text.
Proof.
  intros Hr Hne. unfold validate_file. rewrite Hr.
  rewrite decide_False by done. apply elem_of_app. left. by apply elem_of_cons; left.
Qed.

(** A file pair with a validation error never reaches the loader: no
    command is called and the store is left as it was. *)
Lemma handle_csv_upload_blocked now1 now2 claims_file details_file mode s :
  validate_csv_files (upload_content claims_file) (upload_content details_file) ≠ [] →
  let resp := handle_csv_upload now1 now2 (Some claims_file) (Some details_file) mode s in
  calls resp = [] ∧ response_db resp = s ∧ location resp = To_csv_upload.
Proof.
  intros Hne. cbn zeta. unfold handle_csv_upload.
  destruct (negb _); [done |].
  destruct (validate_csv_files _ _); done.
Qed.

(** C9, as the code has it: when the first record that the pipe-delimited
    CSV reader yields for a file differs in any way, order included, from
    the header sequence expected for that file, the validator returns a
    non-empty list with an error that carries the expected and the actual
    headers; and whenever the list is non-empty the upload calls no loader
    and leaves the store untouched. *)
Theorem validator_rejects_headers
    (now1 now2 : clock) (claims_file details_file : upload)
    (mode : option string) (s : Store) (rest : list (list string))
    (got : list string) :
  (Csv.reader (upload_content claims_file) = got :: rest ∧
   got ≠ expected_claims_headers) ∨
  (Csv.reader (upload_content details_file) = got :: rest ∧
   got ≠ expected_details_headers) →
  let errors :=
    validate_csv_files (upload_content claims_file) (upload_content details_file) in
  let resp := handle_csv_upload now1 now2 (Some claims_file) (Some details_file) mode s in
  errors ≠ [] ∧
  (Headers_incorrect Claims_file expected_claims_headers got ∈ errors ∨
   Headers_incorrect Details_file expected_details_headers got ∈ errors) ∧
  calls resp = [] ∧ response_db resp = s ∧
  messages resp ≠ [] ∧ location resp = To_csv_upload.
Proof.
  intros H. cbn zeta.
  assert (Hin : Headers_incorrect Claims_file expected_claims_headers got
                  ∈ validate_csv_files (upload_content claims_file) (upload_content details_file) ∨
                Headers_incorrect Details_file expected_details_headers got
                  ∈ validate_csv_files (upload_content claims_file) (upload_content details_file)).
  { unfold validate_csv_files. destruct H as [[Hr Hne] | [Hr Hne]]; [left | right];
      apply elem_of_app; [left | right]; by eapply validate_file_headers. }
  assert (Hne : validate_csv_files (upload_content claims_file) (upload_content details_file) ≠ []).
  { intros Heq. rewrite Heq in Hin. destruct Hin as [Hin | Hin]; by apply elem_of_nil in Hin. }
  split; [exact Hne |]. split; [exact Hin |].
  destruct (handle_csv_upload_blocked now1 now2 claims_file details_file mode s Hne)
    as (Hc & Hdb & Hloc).
  split; [exact Hc |]. split; [exact Hdb |]. split; [| exact Hloc].
  unfold handle_csv_upload.
  destruct (negb _); [done |].
  destruct (validate_csv_files _ _) eqn:E; [by destruct Hne | done].
Qed.

Lemma validator_rejects_headers_witness :
  let claims_file := {| upload_name := "claims.csv"; upload_content := swapped_header_file |} in
  let details_file := {| upload_name := "details.csv"; upload_content := good_details_file |} in
  let resp := handle_csv_upload still still (Some claims_file) (Some details_file)
                None empty_store in
  validate_csv_files swapped_header_file good_details_file ≠ [] ∧
  calls resp = [] ∧ response_db resp = empty_store.
Proof.
  cbn zeta.
  destruct (validator_rejects_headers still still
              {| upload_name := "claims.csv"; upload_content := swapped_header_file |}
              {| upload_name := "details.csv"; upload_content := good_details_file |}
              None empty_store
              [["Ann"; "1"; "100.00"; "80.00"; "Paid"; "Acme"; "2020-01-05"]]
              ["patient_name"; "id"; "billed_amount"; "paid_amount"; "status";
               "insurer_name"; "discharge_date"])
    as (H1 & _ & H3 & H4 & _).
  - left. split; [by vm_compute | discriminate].
  - repeat split; assumption.
Defined.

(** C9 as stated fails: the first line of the quoted file cut at the
    pipes differs from the expected headers (its first piece keeps the
    quotes), but the reader drops the quotes, the validator returns no
    error and the loader is called. *)
Lemma validator_accepts_quoted_header :
  let claims_file := {| upload_name := "claims.csv"; upload_content := quoted_header_file |} in
  let details_file := {| upload_name := "details.csv"; upload_content := good_details_file |} in
  let resp := handle_csv_upload still still (Some claims_file) (Some details_file)
                None empty_store in
  first_line_split quoted_header_file ≠ expected_claims_headers ∧
  validate_csv_files quoted_header_file good_details_file = [] ∧
  length (calls resp) = 1%nat ∧
  dom (claims (response_db resp)) = {[ 1 ]}.
Proof. cbn zeta. split; [by vm_compute |]. by vm_compute. Qed.

(** ** Conversions and their inverses *)

Section digits.

Lemma code_digit_chr d : 0 ≤ d < 10 → code (digit_chr d) = 48 + d.
Proof.
  intros Hd. unfold code, digit_chr.
  rewrite N_ascii_embedding by lia. lia.
Qed.

Lemma is_digit_chr d : 0 ≤ d < 10 → is_digit (digit_chr d) = true.
Proof. intros Hd. unfold is_digit. rewrite code_digit_chr by done. lia. Qed.

Lemma digit_val_chr d : 0 ≤ d < 10 → digit_val (digit_chr d) = d.
Proof. intros Hd. unfold digit_val. rewrite code_digit_chr by done. lia. Qed.

Lemma digits_val_app acc l1 l2 :
  digits_val acc (l1 ++ l2) = digits_val (digits_val acc l1) l2.
Proof. revert acc. induction l1 as [| c l1 IH]; intros acc; simpl; [done | apply IH]. Qed.

Lemma all_digits_app l1 l2 : all_digits (l1 ++ l2) = all_digits l1 && all_digits l2.
Proof. apply forallb_app. Qed.

Lemma mod10_digit n : 0 ≤ n mod 10 < 10.
Proof. apply Z.mod_pos_bound. lia. Qed.

Lemma all_digits_fixed w n : all_digits (fixed_digits w n) = true.
Proof.
  revert n. induction w as [| w IH]; intros n; simpl; [done |].
  rewrite all_digits_app, IH. simpl. by rewrite is_digit_chr by apply mod10_digit.
Qed.

Lemma length_fixed_digits w n : length (fixed_digits w n) = w.
Proof.
  revert n. induction w as [| w IH]; intros n; simpl; [done |].
  rewrite length_app, IH. simpl. lia.
Qed.

Lemma digits_val_fixed w acc n :
  0 ≤ n → digits_val acc (fixed_digits w n) = acc * 10 ^ Z.of_nat w + n mod 10 ^ Z.of_nat w.
Proof.
  revert n. induction w as [| w IH]; intros n Hn.
  - simpl. rewrite Z.mod_1_r. lia.
  - cbn [fixed_digits]. rewrite digits_val_app, IH by (apply Z.div_pos; lia).
    cbn [digits_val]. rewrite digit_val_chr by apply mod10_digit.
    rewrite Nat2Z.inj_succ, Z.pow_succ_r by lia.
    assert (Hp : 0 < 10 ^ Z.of_nat w) by (apply Z.pow_pos_nonneg; lia).
    rewrite Z.rem_mul_r by lia. ring.
Qed.

Lemma all_digits_nat_fuel fuel n : 0 ≤ n → all_digits (nat_digits_fuel fuel n) = true.
Proof.
  revert n. induction fuel as [| fuel IH]; intros n Hn; simpl.
  - by rewrite is_digit_chr by apply mod10_digit.
  - destruct (Z.ltb_spec n 10).
    + simpl. by rewrite is_digit_chr by lia.
    + rewrite all_digits_app, IH by (apply Z.div_pos; lia). simpl.
      by rewrite is_digit_chr by apply mod10_digit.
Qed.

Lemma digits_val_nat_fuel fuel n :
  0 ≤ n < 10 ^ Z.of_nat (S fuel) → digits_val 0 (nat_digits_fuel fuel n) = n.
Proof.
  revert n. induction fuel as [| fuel IH]; intros n Hn.
  - simpl in *. rewrite digit_val_chr by apply mod10_digit.
    rewrite Z.mod_small; lia.
  - cbn [nat_digits_fuel]. destruct (Z.ltb_spec n 10).
    + simpl. rewrite digit_val_chr; lia.
    + rewrite digits_val_app, IH.
      * cbn [digits_val]. rewrite digit_val_chr by apply mod10_digit.
        pose proof (Z.div_mod n 10). lia.
      * rewrite Nat2Z.inj_succ, Z.pow_succ_r in Hn by lia.
        split; [apply Z.div_pos; lia |].
        apply Z.div_lt_upper_bound; lia.
Qed.

Lemma nat_digits_fuel_head fuel n :
  0 ≤ n → ∃ c l, nat_digits_fuel fuel n = c :: l ∧ is_digit c = true.
Proof.
  intros Hn. pose proof (all_digits_nat_fuel fuel n Hn) as Hall.
  destruct (nat_digits_fuel fuel n) as [| c l] eqn:E.
  - destruct fuel; simpl in E; [done |]. case_match; [done |].
    by destruct (nat_digits_fuel fuel (n / 10)).
  - exists c, l. split; [done |]. simpl in Hall. by apply andb_true_iff in Hall as [? _].
Qed.

Lemma log2_fuel n : 0 ≤ n → n < 10 ^ Z.of_nat (S (Z.to_nat (Z.log2 n))).
Proof.
  intros Hn. destruct (Z.eq_dec n 0) as [-> | Hne]; [done |].
  rewrite Nat2Z.inj_succ, Z2Nat.id by apply Z.log2_nonneg.
  pose proof (Z.log2_spec n ltac:(lia)) as [_ Hlt].
  eapply Z.lt_le_trans; [exact Hlt |].
  apply Z.pow_le_mono_l. lia.
Qed.

Lemma all_digits_nat n : 0 ≤ n → all_digits (nat_digits n) = true.
Proof. apply all_digits_nat_fuel. Qed.

Lemma digits_val_nat n : 0 ≤ n → digits_val 0 (nat_digits n) = n.
Proof. intros Hn. apply digits_val_nat_fuel. split; [done | by apply log2_fuel]. Qed.

Lemma nat_digits_head n : 0 ≤ n → ∃ c l, nat_digits n = c :: l ∧ is_digit c = true.
Proof. apply nat_digits_fuel_head. Qed.

End digits.

Section conversions.

Lemma is_digit_numeric c : is_digit c = true → numeric_char c = true.
Proof. intros H. unfold numeric_char. by rewrite H. Qed.

Lemma numeric_app l1 l2 :
  forallb numeric_char (l1 ++ l2) = forallb numeric_char l1 && forallb numeric_char l2.
Proof. apply forallb_app. Qed.

Lemma all_digits_numeric l : all_digits l = true → forallb numeric_char l = true.
Proof.
  induction l as [| c l IH]; simpl; [done |].
  intros [Hc Hl]%andb_true_iff. by rewrite is_digit_numeric, IH.
Qed.

Lemma numeric_not_space c : numeric_char c = true → is_space c = false.
Proof.
  unfold numeric_char, is_digit, is_space.
  destruct (Ascii.eqb_spec c "-") as [-> | _]; [done |].
  destruct (Ascii.eqb_spec c ".") as [-> | _]; [done |].
  rewrite !orb_false_r. lia.
Qed.

Lemma numeric_not_underscore c : numeric_char c = true → Ascii.eqb c "_" = false.
Proof.
  intros H. destruct (Ascii.eqb_spec c "_") as [-> | _]; [| done].
  by vm_compute in H.
Qed.

Lemma is_digit_not c x : is_digit c = true → is_digit x = false → Ascii.eqb c x = false.
Proof. intros Hc Hx. destruct (Ascii.eqb_spec c x) as [-> | _]; [congruence | done]. Qed.

Lemma forallb_reverse {A} (f : A → bool) (l : list A) :
  forallb f (rev l) = forallb f l.
Proof.
  induction l as [| x l IH]; simpl; [done |].
  rewrite forallb_app, IH. simpl. rewrite andb_true_r. apply andb_comm.
Qed.

Lemma lstrip_numeric l : forallb numeric_char l = true → lstrip l = l.
Proof.
  destruct l as [| c l]; simpl; [done |].
  intros [Hc _]%andb_true_iff. by rewrite numeric_not_space.
Qed.

Lemma strip_numeric l : forallb numeric_char l = true → strip l = l.
Proof.
  intros H. unfold strip. rewrite (lstrip_numeric l H).
  rewrite lstrip_numeric, rev_involutive; [done |].
  by rewrite forallb_reverse.
Qed.

Lemma remove_underscores_numeric l :
  forallb numeric_char l = true → remove_underscores l = l.
Proof.
  induction l as [| c l IH]; simpl; [done |].
  intros [Hc Hl]%andb_true_iff. rewrite numeric_not_underscore by done.
  simpl. by rewrite IH.
Qed.

Lemma int_body_digits acc b l :
  all_digits l = true → l ≠ [] ∨ b = true →
  int_body acc b l = Some (digits_val acc l).
Proof.
  revert acc b. induction l as [| c l IH]; intros acc b Hall Hne; simpl.
  - destruct Hne as [? | ->]; done.
  - simpl in Hall. apply andb_true_iff in Hall as [Hc Hl].
    rewrite Hc. apply IH; [done | by right].
Qed.

Lemma numeric_str_int n : forallb numeric_char (str_int_chars n) = true.
Proof.
  unfold str_int_chars. destruct (Z.ltb_spec n 0); simpl;
    apply all_digits_numeric, all_digits_nat; lia.
Qed.

(** [int(str(n))] is [n]. *)
Lemma int_str_int n : int (Some (str_int n)) = inr n.
Proof.
  unfold int, str_int. rewrite list_ascii_of_string_of_list_ascii.
  rewrite strip_numeric by apply numeric_str_int.
  unfold str_int_chars. destruct (Z.ltb_spec n 0) as [Hn | Hn].
  - simpl. rewrite int_body_digits.
    + rewrite digits_val_nat by lia. simpl. f_equal. lia.
    + apply all_digits_nat. lia.
    + left. destruct (nat_digits_head (- n)) as (c & l & -> & _); [lia | done].
  - destruct (nat_digits_head n Hn) as (c & l & E & Hc).
    pose proof (all_digits_nat n Hn) as Hall.
    pose proof (digits_val_nat n Hn) as Hval.
    rewrite E in *. unfold int_signed.
    rewrite (is_digit_not c "-"), (is_digit_not c "+") by done.
    rewrite int_body_digits by (done || by left). by rewrite Hval.
Qed.

Lemma span_digits_app ds r :
  all_digits ds = true →
  match r with c :: _ => is_digit c = false | [] => True end →
  span_digits (ds ++ r) = (ds, r).
Proof.
  intros Hall Hr. induction ds as [| c ds IH]; simpl.
  - destruct r as [| c r]; [done |]. simpl. by rewrite Hr.
  - simpl in Hall. apply andb_true_iff in Hall as [Hc Hds].
    by rewrite Hc, IH.
Qed.

Lemma numeric_str_cents c : forallb numeric_char (str_cents_chars c) = true.
Proof.
  unfold str_cents_chars. rewrite !numeric_app. cbn [forallb].
  rewrite (all_digits_numeric (nat_digits _)), (all_digits_numeric (fixed_digits _ _)).
  - by destruct (c <? 0).
  - apply all_digits_fixed.
  - apply all_digits_nat. apply Z.div_pos; lia.
Qed.

Lemma Decimal_chars_digits (neg : bool) (ds fs : list ascii) :
  all_digits ds = true → all_digits fs = true → ds ≠ [] →
  Decimal_chars ((if neg then ["-"%char] else []) ++ ds ++ "."%char :: fs) =
    Some {| coeff := signed neg (digits_val (digits_val 0 ds) fs);
            expo := - Z.of_nat (length fs) |}.
Proof.
  intros Hds Hfs Hne. unfold Decimal_chars.
  assert (Hsign : sign_of ((if neg then ["-"%char] else []) ++ ds ++ "."%char :: fs)
                  = (neg, ds ++ "."%char :: fs)).
  { destruct neg; [done |]. destruct ds as [| c ds]; [done |].
    simpl in Hds. apply andb_true_iff in Hds as [Hc _]. simpl.
    by rewrite (is_digit_not c "-"), (is_digit_not c "+"). }
  rewrite Hsign, span_digits_app by done. simpl.
  replace fs with (fs ++ []) at 1 by apply app_nil_r.
  rewrite span_digits_app by done.
  destruct ds as [| c ds]; [done |]. simpl.
  rewrite digits_val_app. do 2 f_equal; lia.
Qed.

(** [Decimal(str(d))] for a two-place amount [d] of [c] hundredths is [d]. *)
Lemma Decimal_str_cents c :
  Decimal (Some (str_cents c)) = inr {| coeff := c; expo := -2 |}.
Proof.
  unfold Decimal, str_cents. rewrite list_ascii_of_string_of_list_ascii.
  rewrite strip_numeric, remove_underscores_numeric by apply numeric_str_cents.
  unfold str_cents_chars.
  assert (Hq : 0 ≤ Z.abs c / 100) by (apply Z.div_pos; lia).
  assert (Hr : 0 ≤ Z.abs c mod 100 < 100) by (apply Z.mod_pos_bound; lia).
  rewrite (Decimal_chars_digits (c <? 0)).
  - rewrite digits_val_nat, digits_val_fixed, length_fixed_digits by lia.
    change (10 ^ Z.of_nat 2) with 100. rewrite Z.mod_mod by lia.
    unfold ret. do 2 f_equal.
    pose proof (Z.div_mod (Z.abs c) 100). unfold signed.
    destruct (Z.ltb_spec c 0); lia.
  - apply all_digits_nat, Hq.
  - apply all_digits_fixed.
  - destruct (nat_digits_head _ Hq) as (x & l & -> & _). done.
Qed.

Lemma to_cents_two_places c : to_cents {| coeff := c; expo := -2 |} = c.
Proof. unfold to_cents. simpl. lia. Qed.

Lemma parse_month_fixed m r :
  1 ≤ m ≤ 12 → parse_month (fixed_digits 2 m ++ r) = Some (m, r).
Proof.
  intros Hm.
  assert (m = 1 ∨ m = 2 ∨ m = 3 ∨ m = 4 ∨ m = 5 ∨ m = 6 ∨ m = 7 ∨ m = 8 ∨
          m = 9 ∨ m = 10 ∨ m = 11 ∨ m = 12) as Hcases by lia.
  repeat (destruct Hcases as [-> | Hcases]; [reflexivity |]).
  subst m. reflexivity.
Qed.

Lemma parse_day_fixed d :
  1 ≤ d ≤ 31 → parse_day (fixed_digits 2 d) = Some (d, []).
Proof.
  intros Hd.
  assert (d = 1 ∨ d = 2 ∨ d = 3 ∨ d = 4 ∨ d = 5 ∨ d = 6 ∨ d = 7 ∨ d = 8 ∨
          d = 9 ∨ d = 10 ∨ d = 11 ∨ d = 12 ∨ d = 13 ∨ d = 14 ∨ d = 15 ∨
          d = 16 ∨ d = 17 ∨ d = 18 ∨ d = 19 ∨ d = 20 ∨ d = 21 ∨ d = 22 ∨
          d = 23 ∨ d = 24 ∨ d = 25 ∨ d = 26 ∨ d = 27 ∨ d = 28 ∨ d = 29 ∨
          d = 30 ∨ d = 31) as Hcases by lia.
  repeat (destruct Hcases as [-> | Hcases]; [reflexivity |]).
  subst d. reflexivity.
Qed.

Lemma valid_date_bounds d :
  valid_date d = true →
  1 ≤ year d ≤ 9999 ∧ 1 ≤ month d ≤ 12 ∧ 1 ≤ day d ≤ 31.
Proof.
  unfold valid_date, days_in_month. intros H.
  repeat (apply andb_true_iff in H as [H ?]).
  repeat case_match; lia.
Qed.

(** A year of four digits is written as its four digits. *)
Lemma nat_digits_fuel_four fuel n :
  (3 ≤ fuel)%nat → 1000 ≤ n ≤ 9999 → nat_digits_fuel fuel n = fixed_digits 4 n.
Proof.
  intros Hfuel Hn.
  destruct fuel as [| [| [| fuel]]]; [lia | lia | lia |].
  cbn [nat_digits_fuel fixed_digits app].
  assert (H1 : (n <? 10) = false) by (apply Z.ltb_ge; lia).
  assert (H2 : (n / 10 <? 10) = false)
    by (apply Z.ltb_ge; Z.div_mod_to_equations; lia).
  assert (H3 : (n / 10 / 10 <? 10) = false)
    by (apply Z.ltb_ge; Z.div_mod_to_equations; lia).
  assert (H4 : 0 ≤ n / 10 / 10 / 10 < 10) by (Z.div_mod_to_equations; lia).
  rewrite H1, H2, H3.
  assert (Hlast : nat_digits_fuel fuel (n / 10 / 10 / 10)
                  = [digit_chr (n / 10 / 10 / 10 mod 10)]).
  { rewrite (Z.mod_small _ 10) by done. destruct fuel; cbn [nat_digits_fuel].
    - by rewrite Z.mod_small.
    - by rewrite (proj2 (Z.ltb_lt _ _) (proj2 H4)). }
  by rewrite Hlast.
Qed.

Lemma nat_digits_four n : 1000 ≤ n ≤ 9999 → nat_digits n = fixed_digits 4 n.
Proof.
  intros Hn. unfold nat_digits. apply nat_digits_fuel_four; [| done].
  assert (9 ≤ Z.log2 n) by (change 9 with (Z.log2 512); apply Z.log2_le_mono; lia).
  lia.
Qed.

Lemma parse_ymd_strftime d :
  valid_date d = true → 1000 ≤ year d →
  parse_ymd (strftime_chars d) = Some d.
Proof.
  intros Hv Hfour. destruct (valid_date_bounds d Hv) as (Hy & Hm & Hd).
  unfold strftime_chars. rewrite nat_digits_four by lia.
  pose proof (all_digits_fixed 4 (year d)) as Hall.
  pose proof (digits_val_fixed 4 0 (year d) ltac:(lia)) as Hval.
  change (10 ^ Z.of_nat 4) with 10000 in Hval.
  rewrite Z.mod_small in Hval by lia.
  remember (fixed_digits 2 (month d)) as ms eqn:Hms.
  remember (fixed_digits 2 (day d)) as ds eqn:Hds.
  cbn [fixed_digits app] in Hall, Hval |- *.
  unfold parse_ymd. rewrite Hall, Hval.
  simpl (expect _ _). cbn [mbind option_bind].
  subst ms. rewrite parse_month_fixed by done.
  simpl. subst ds. rewrite parse_day_fixed by done. by destruct d.
Qed.

(** [strptime(d.strftime('%Y-%m-%d'), '%Y-%m-%d').date()] is [d] for a day
    whose year has four digits. *)
Lemma strptime_strftime d :
  valid_date d = true → 1000 ≤ year d →
  strptime_date (Some (strftime d)) = inr d.
Proof.
  intros Hv Hfour. unfold strptime_date, strftime.
  rewrite list_ascii_of_string_of_list_ascii, parse_ymd_strftime by done.
  by rewrite Hv.
Qed.

End conversions.

(** ** Reading back a written line *)

Section reading.

Lemma chars_append a b : chars (a +:+ b) = chars a ++ chars b.
Proof. induction a as [| c a IH]; simpl; [done | by rewrite IH]. Qed.

Lemma universal_newlines_plain l :
  forallb no_line_end l = true → Csv.universal_newlines l = l.
Proof.
  induction l as [| c l IH]; simpl; [done |].
  intros [Hc Hl]%andb_true_iff. unfold no_line_end in Hc.
  apply andb_true_iff in Hc as [_ Hc]. apply negb_true_iff in Hc.
  by rewrite Hc, IH.
Qed.

Lemma universal_newlines_app l rest :
  forallb no_line_end l = true →
  Csv.universal_newlines (l ++ Csv.LF :: rest) = l ++ Csv.LF :: Csv.universal_newlines rest.
Proof.
  induction l as [| c l IH]; simpl; [done |].
  intros [Hc Hl]%andb_true_iff. unfold no_line_end in Hc.
  apply andb_true_iff in Hc as [_ Hc]. apply negb_true_iff in Hc.
  by rewrite Hc, IH.
Qed.

(** The reader inside a line: the fields it gives are the pieces between
    the pipes. *)
Lemma records_in_line l p tail :
  forallb no_line_end l = true →
  (Csv.st p = Csv.IN_FIELD ∧ unquoted false l = true) ∨
  (Csv.st p = Csv.START_FIELD ∧ Csv.field p = [] ∧ unquoted true l = true) →
  Csv.records "|" p (l ++ Csv.LF :: tail) =
    (rev (Csv.fields p) ++ (string_of_list_ascii <$> split_on "|" (Csv.field p) l))
    :: Csv.records "|" Csv.start tail.
Proof.
  revert p. induction l as [| c l IH]; intros p Hl Hp.
  - simpl. destruct p as [st field fields]. simpl in *.
    destruct Hp as [[-> _] | (-> & -> & _)]; reflexivity.
  - simpl in Hl. apply andb_true_iff in Hl as [Hc Hl].
    unfold no_line_end in Hc. apply andb_true_iff in Hc as [Hc _].
    apply negb_true_iff in Hc.
    cbn [app Csv.records]. rewrite Hc.
    destruct p as [st field fields]. cbn [Csv.st Csv.field Csv.fields] in *.
    destruct Hp as [[-> Hq] | (-> & -> & Hq)]; cbn [unquoted andb] in Hq.
    + unfold Csv.process_char. cbn [Csv.st split_on].
      destruct (Ascii.eqb c "|") eqn:Hpipe.
      * rewrite IH by (done || right; done). simpl. by rewrite <- app_assoc.
      * rewrite IH by (done || left; done). reflexivity.
    + unfold Csv.process_char. cbn [Csv.st split_on].
      destruct (Ascii.eqb c Csv.QUOTE) eqn:Hquote; [done |].
      destruct (Ascii.eqb c "|") eqn:Hpipe.
      * rewrite IH by (done || right; done). simpl. by rewrite <- app_assoc.
      * rewrite IH by (done || left; done). reflexivity.
Qed.

(** A non-empty line read from the start of a record. *)
Lemma records_line l tail :
  l ≠ [] → forallb no_line_end l = true → unquoted true l = true →
  Csv.records "|" Csv.start (l ++ Csv.LF :: tail) =
    (string_of_list_ascii <$> split_on "|" [] l) :: Csv.records "|" Csv.start tail.
Proof.
  intros Hne Hl Hq. destruct l as [| c l]; [done |].
  pose proof (records_in_line (c :: l)
                {| Csv.st := Csv.START_FIELD; Csv.field := []; Csv.fields := [] |}
                tail Hl (or_intror (conj eq_refl (conj eq_refl Hq)))) as H.
  cbn [Csv.fields Csv.field rev app] in H.
  rewrite <- H. simpl in Hl. apply andb_true_iff in Hl as [Hc _].
  unfold no_line_end in Hc. apply andb_true_iff in Hc as [Hc _].
  apply negb_true_iff in Hc. cbn [app Csv.records]. by rewrite Hc.
Qed.

Lemma split_on_field a cur :
  no_pipe a = true → split_on "|" cur a = [rev cur ++ a].
Proof.
  revert cur. induction a as [| c a IH]; intros cur; simpl.
  - by rewrite app_nil_r.
  - intros [Hc Ha]%andb_true_iff. apply negb_true_iff in Hc.
    rewrite Hc, IH by done. simpl. by rewrite <- app_assoc.
Qed.

Lemma split_on_fields a cur rest :
  no_pipe a = true →
  split_on "|" cur (a ++ "|"%char :: rest) = (rev cur ++ a) :: split_on "|" [] rest.
Proof.
  revert cur. induction a as [| c a IH]; intros cur; simpl.
  - by rewrite app_nil_r.
  - intros [Hc Ha]%andb_true_iff. apply negb_true_iff in Hc.
    rewrite Hc, IH by done. simpl. by rewrite <- app_assoc.
Qed.

Lemma unquoted_inside a rest :
  no_pipe a = true → unquoted false (a ++ "|"%char :: rest) = unquoted true rest.
Proof.
  induction a as [| c a IH]; simpl; [done |].
  intros [Hc Ha]%andb_true_iff. apply negb_true_iff in Hc. by rewrite Hc, IH.
Qed.

Lemma unquoted_inside_last a : no_pipe a = true → unquoted false a = true.
Proof.
  induction a as [| c a IH]; simpl; [done |].
  intros [Hc Ha]%andb_true_iff. apply negb_true_iff in Hc. by rewrite Hc, IH.
Qed.

Lemma plain_chars text :
  plain text = true →
  no_pipe (chars text) = true ∧ forallb no_line_end (chars text) = true ∧
  match chars text with c :: _ => Ascii.eqb c Csv.QUOTE = false | [] => True end.
Proof.
  unfold plain, chars. intros [Hall Hq]%andb_true_iff.
  split; [| split].
  - clear Hq. unfold no_pipe.
    induction (list_ascii_of_string text) as [| c l IH]; simpl; [done |].
    simpl in Hall. apply andb_true_iff in Hall as [Hc Hl]. unfold plain_char in Hc.
    apply andb_true_iff in Hc as [[Hc _]%andb_true_iff _].
    rewrite Hc. simpl. by apply IH.
  - clear Hq. induction (list_ascii_of_string text) as [| c l IH]; simpl; [done |].
    simpl in Hall. apply andb_true_iff in Hall as [Hc Hl]. unfold plain_char in Hc.
    apply andb_true_iff in Hc as [[_ Hc1]%andb_true_iff Hc2].
    rewrite IH by done. unfold no_line_end. by rewrite Hc1, Hc2.
  - destruct (list_ascii_of_string text); [done | by apply negb_true_iff].
Qed.

Lemma unquoted_field a rest :
  no_pipe a = true →
  match a with c :: _ => Ascii.eqb c Csv.QUOTE = false | [] => True end →
  unquoted true (a ++ "|"%char :: rest) = unquoted true rest ∧ unquoted true a = true.
Proof.
  intros Ha Hq. destruct a as [| c a]; [done |].
  simpl in Ha. apply andb_true_iff in Ha as [Hc Ha]. apply negb_true_iff in Hc.
  simpl. rewrite Hq, Hc. simpl. split; [by apply unquoted_inside | by apply unquoted_inside_last].
Qed.

(** The characters of a joined line are the fields with pipes between. *)
Lemma chars_join f g fs :
  chars (join "|" (f :: g :: fs)) = chars f ++ "|"%char :: chars (join "|" (g :: fs)).
Proof. cbn [join]. by rewrite !chars_append. Qed.

Lemma line_of_fields fs :
  Forall (λ f, plain f = true) fs → fs ≠ [] →
  let l := chars (join "|" fs) in
  forallb no_line_end l = true ∧ unquoted true l = true ∧
  split_on "|" [] l = chars <$> fs.
Proof.
  intros Hall Hne. cbn zeta. induction fs as [| f fs IH]; [done |].
  apply Forall_cons in Hall as [Hf Hfs].
  destruct (plain_chars f Hf) as (Hp & Hl & Hq).
  destruct fs as [| g fs].
  - simpl. split; [done |]. split; [exact (proj2 (unquoted_field _ [] Hp Hq)) |].
    by rewrite split_on_field.
  - destruct (IH Hfs ltac:(done)) as (IH1 & IH2 & IH3).
    rewrite chars_join. split; [| split].
    + rewrite forallb_app. cbn [forallb]. by rewrite Hl, IH1.
    + by rewrite (proj1 (unquoted_field _ _ Hp Hq)).
    + rewrite split_on_fields by done. by rewrite IH3.
Qed.

Lemma string_of_chars s : string_of_list_ascii (chars s) = s.
Proof. apply string_of_list_ascii_of_string. Qed.

(** A file whose lines are joined rows of plain fields, each of two fields
    at least, is read back as these rows. *)
Lemma reader_rows rows :
  Forall (λ fs, Forall (λ f, plain f = true) fs ∧ (2 ≤ length fs)%nat) rows →
  Csv.reader (body ((λ fs, join "|" fs +:+ newline) <$> rows)) = rows.
Proof.
  intros Hrows. unfold Csv.reader.
  assert (Hgen : Csv.records "|" Csv.start
            (Csv.universal_newlines
               (list_ascii_of_string (body ((λ fs, join "|" fs +:+ newline) <$> rows))))
          = rows); [| exact Hgen].
  induction Hrows as [| fs rows [Hfs Hlen] Hrows IH]; [done |].
  cbn [fmap list_fmap body foldr].
  fold (list_fmap _ _ (λ fs, join "|" fs +:+ newline) rows).
  change (list_ascii_of_string ?s) with (chars s).
  rewrite !chars_append. cbn [chars list_ascii_of_string newline].
  rewrite <- app_assoc. cbn [app].
  assert (Hne : fs ≠ []) by (destruct fs; simpl in Hlen; [lia | done]).
  destruct (line_of_fields fs Hfs Hne) as (H1 & H2 & H3).
  rewrite universal_newlines_app by done.
  rewrite records_line; [| | done | done].
  - rewrite H3. f_equal; [| exact IH].
    rewrite <- list_fmap_compose. rewrite <- (list_fmap_id fs) at 2.
    apply list_fmap_ext. intros i f _. apply string_of_chars.
  - destruct fs as [| f [| g fs]]; simpl in Hlen; [lia | lia |].
    rewrite chars_join. by destruct (chars f).
Qed.

End reading.

(** ** The first record of a file and its first line *)

Lemma records_at_end l p :
  forallb no_line_end l = true →
  (Csv.st p = Csv.IN_FIELD ∧ unquoted false l = true) ∨
  (Csv.st p = Csv.START_FIELD ∧ Csv.field p = [] ∧ unquoted true l = true) →
  Csv.records "|" p l =
    [rev (Csv.fields p) ++ (string_of_list_ascii <$> split_on "|" (Csv.field p) l)].
Proof.
  revert p. induction l as [| c l IH]; intros p Hl Hp.
  - simpl. destruct p as [st field fields]. simpl in *.
    destruct Hp as [[-> _] | (-> & -> & _)]; reflexivity.
  - simpl in Hl. apply andb_true_iff in Hl as [Hc Hl].
    unfold no_line_end in Hc. apply andb_true_iff in Hc as [Hc _].
    apply negb_true_iff in Hc.
    cbn [Csv.records]. rewrite Hc.
    destruct p as [st field fields]. cbn [Csv.st Csv.field Csv.fields] in *.
    destruct Hp as [[-> Hq] | (-> & -> & Hq)]; cbn [unquoted andb] in Hq.
    + unfold Csv.process_char. cbn [Csv.st split_on].
      destruct (Ascii.eqb c "|") eqn:Hpipe.
      * rewrite IH by (done || right; done). simpl. by rewrite <- app_assoc.
      * rewrite IH by (done || left; done). reflexivity.
    + unfold Csv.process_char. cbn [Csv.st split_on].
      destruct (Ascii.eqb c Csv.QUOTE) eqn:Hquote; [done |].
      destruct (Ascii.eqb c "|") eqn:Hpipe.
      * rewrite IH by (done || right; done). simpl. by rewrite <- app_assoc.
      * rewrite IH by (done || left; done). reflexivity.
Qed.

Lemma records_last_line l :
  l ≠ [] → forallb no_line_end l = true → unquoted true l = true →
  Csv.records "|" Csv.start l = [string_of_list_ascii <$> split_on "|" [] l].
Proof.
  intros Hne Hl Hq. destruct l as [| c l]; [done |].
  pose proof (records_at_end (c :: l)
                {| Csv.st := Csv.START_FIELD; Csv.field := []; Csv.fields := [] |}
                Hl (or_intror (conj eq_refl (conj eq_refl Hq)))) as H.
  cbn [Csv.fields Csv.field rev app] in H.
  rewrite <- H. simpl in Hl. apply andb_true_iff in Hl as [Hc _].
  unfold no_line_end in Hc. apply andb_true_iff in Hc as [Hc _].
  apply negb_true_iff in Hc. cbn [Csv.records]. by rewrite Hc.
Qed.

Lemma first_line_rest t :
  forallb no_line_end (first_line t) = true ∧
  ∃ rest, Csv.universal_newlines t = first_line t ++ rest ∧
          (rest = [] ∨ ∃ rest', rest = Csv.LF :: rest').
Proof.
  induction t as [| c t (IH1 & rest & IH2 & IH3)]; simpl.
  - split; [done |]. exists []. split; [done | by left].
  - destruct (Ascii.eqb c Csv.CR) eqn:Hcr.
    + rewrite orb_true_r. split; [done |]. eexists. split; [reflexivity |]. right. by eexists.
    + rewrite orb_false_r. destruct (Ascii.eqb c Csv.LF) eqn:Hlf.
      * apply Ascii.eqb_eq in Hlf as ->. split; [done |].
        eexists. split; [reflexivity |]. right. by eexists.
      * split; [simpl; unfold no_line_end at 1; by rewrite Hlf, Hcr, IH1 |].
        exists rest. split; [simpl; by rewrite IH2 | done].
Qed.

(** The first record that the reader yields is the first line cut at the
    pipes, provided the line is not empty and none of its fields opens with
    a double quote. *)
Lemma reader_first_record text :
  first_line (chars text) ≠ [] →
  unquoted true (first_line (chars text)) = true →
  ∃ rest, Csv.reader text = first_line_split text :: rest.
Proof.
  intros Hne Hq. unfold Csv.reader, first_line_split.
  fold (chars text).
  destruct (first_line_rest (chars text)) as (Hl & rest & -> & [-> | [rest' ->]]).
  - rewrite app_nil_r, records_last_line by done. by eexists.
  - rewrite records_line by done. by eexists.
Qed.

(** On such a first line the claim holds in its own words: a header line
    that differs from the expected sequence when cut at the pipes is
    reported with the expected and the actual headers. *)
Lemma validator_rejects_unquoted_header claims_text details_text :
  first_line (chars claims_text) ≠ [] →
  unquoted true (first_line (chars claims_text)) = true →
  first_line_split claims_text ≠ expected_claims_headers →
  Headers_incorrect Claims_file expected_claims_headers (first_line_split claims_text)
    ∈ validate_csv_files claims_text details_text.
Proof.
  intros Hne Hq Hdiff.
  destruct (reader_first_record claims_text Hne Hq) as [rest Hr].
  unfold validate_csv_files. apply elem_of_app. left.
  by eapply validate_file_headers.
Qed.

(** ** Detail rows without a claim *)

Lemma orphan_row_skipped now i s row :
  orphan_row s row = true →
  (∃ claim_id, new_claim_detail now i s row = inr (inl claim_id)) ∨
  (∃ e, new_claim_detail now i s row = inl e ∧ caught e = true).
Proof.
  unfold orphan_row, new_claim_detail, Csv.getitem.
  destruct (row !! "claim_id") as [[text |] |]; [| done |].
  - cbv [mbind result_bind ret]. destruct (int (Some text)) as [e | claim_id] eqn:Hint.
    + intros _. right. exists e. by rewrite (int_error _ _ Hint).
    + intros Hnone%bool_decide_eq_true. left. exists claim_id. by rewrite Hnone.
  - intros _. right. by exists KeyError.
Qed.

Lemma import_claim_details_rows_orphans now rows i s out :
  forallb (orphan_row s) rows = true →
  ∃ warnings,
    import_claim_details_rows now rows i [] 0 s out =
      {| db := s; stdout := out ++ warnings; outcome := ret O |} ∧
    length warnings = length rows ∧ forallb is_warning warnings = true.
Proof.
  revert i out. induction rows as [| row rows IH]; intros i out Hall.
  - exists []. by rewrite app_nil_r.
  - simpl in Hall. apply andb_true_iff in Hall as [Hrow Hrows].
    cbn [import_claim_details_rows].
    destruct (orphan_row_skipped now i s row Hrow) as [[claim_id ->] | (e & -> & ->)].
    + destruct (IH (S i) (out ++ [Claim_not_found claim_id]) Hrows) as (w & -> & Hlen & Hw).
      exists (Claim_not_found claim_id :: w). rewrite <- app_assoc. simpl.
      by rewrite Hlen, Hw.
    + destruct (IH (S i) (out ++ [Skipping_invalid_detail_row row e]) Hrows)
        as (w & -> & Hlen & Hw).
      exists (Skipping_invalid_detail_row row e :: w). rewrite <- app_assoc. simpl.
      by rewrite Hlen, Hw.
Qed.

(** When every row of a details file has a [claim_id] cell and none of
    these names a claim of the store, [import_claim_details] inserts no
    detail, returns the count 0 and raises no exception; each row is passed
    over with one warning on the output. *)
Theorem import_claim_details_orphans
    (now : clock) (file : string) (s : Store) (out : list line) :
  forallb (orphan_row s) (Csv.DictReader file) = true →
  let r := import_claim_details now file s out in
  db r = s ∧ details (db r) = details s ∧ outcome r = ret O ∧
  ∃ warnings, stdout r = out ++ warnings ∧
              length warnings = length (Csv.DictReader file) ∧
              forallb is_warning warnings = true.
Proof.
  intros Hall. cbn zeta. unfold import_claim_details.
  destruct (import_claim_details_rows_orphans now _ 0 s out Hall) as (w & -> & Hlen & Hw).
  simpl. repeat split; try done. by exists w.
Qed.

Lemma import_claim_details_orphans_witness :
  let r := import_claim_details still orphan_details_file sample_store [] in
  forallb (orphan_row sample_store) (Csv.DictReader orphan_details_file) = true ∧
  details (db r) = ∅ ∧ outcome r = ret O ∧ length (stdout r) = 3%nat.
Proof.
  cbn zeta.
  assert (H : forallb (orphan_row sample_store) (Csv.DictReader orphan_details_file) = true)
    by (by vm_compute).
  destruct (import_claim_details_orphans still orphan_details_file sample_store [] H)
    as (_ & Hd & Ho & w & Hout & Hlen & _).
  split; [exact H |]. split; [exact Hd |]. split; [exact Ho |].
  rewrite Hout. simpl. rewrite Hlen. by vm_compute.
Defined.

(** A details row too short to have a [claim_id] cell is no orphan in the
    sense above: [int(None)] raises [TypeError], which leaves the loader. *)
Lemma import_claim_details_short_row :
  orphan_row empty_store
    (Csv.make_row expected_details_headers ["1"]) = false ∧
  outcome (import_claim_details still short_detail_file empty_store []) = raise TypeError.
Proof. by vm_compute. Qed.

(** C6 fails on the code for a details file with a row too short to have
    a [claim_id] cell: no claim is stored, so no row names a stored claim,
    yet the row is not passed over with a warning.  [DictReader] gives the
    missing cell as [None], [int(None)] raises [TypeError], which the
    [except] clause of the row loop does not name: the exception leaves
    [import_claim_details] and no count is returned. *)
Theorem import_claim_details_orphans_raise :
  let r := import_claim_details still short_detail_file empty_store [] in
  claims empty_store = ∅ ∧
  Csv.DictReader short_detail_file = [Csv.make_row expected_details_headers ["1"]] ∧
  Csv.make_row expected_details_headers ["1"] !! "claim_id" = Some None ∧
  outcome r = raise TypeError ∧
  stdout r = [] ∧
  details (db r) = ∅.
Proof. cbn zeta. repeat split; vm_compute; reflexivity. Qed.

(** ** Loading the same claims twice *)

Lemma insert_claim_settled s c : settled s c → insert_claim s c = s.
Proof.
  unfold settled, insert_claim. intros [-> | [row ->]]; [done |].
  by destruct (claim_row c).
Qed.

Lemma insert_claim_settles s c : settled (insert_claim s c) c.
Proof.
  unfold settled, insert_claim.
  destruct (claim_row c) as [row |] eqn:Hrow; [| by left].
  right. destruct (claims s !! new_id c) as [old |] eqn:Hold.
  - by rewrite Hold.
  - simpl. by rewrite lookup_insert_eq.
Qed.

Lemma insert_claim_keeps s c id row :
  claims s !! id = Some row → claims (insert_claim s c) !! id = Some row.
Proof.
  intros Hid. unfold insert_claim.
  destruct (claim_row c) as [new |]; [| done].
  destruct (claims s !! new_id c) as [old |] eqn:Hold; [done |].
  simpl. rewrite lookup_insert_ne; [done |]. congruence.
Qed.

Lemma settled_insert s c c' : settled s c → settled (insert_claim s c') c.
Proof.
  intros [Hnull | [row Hrow]]; [by left |].
  right. exists row. by apply insert_claim_keeps.
Qed.

Lemma bulk_create_claims_keeps batch s id row :
  claims s !! id = Some row → claims (bulk_create_claims batch s) !! id = Some row.
Proof.
  unfold bulk_create_claims. revert s.
  induction batch as [| c batch IH]; intros s Hid; simpl; [done |].
  by apply IH, insert_claim_keeps.
Qed.

Lemma bulk_create_claims_settles batch s :
  Forall (settled (bulk_create_claims batch s)) batch.
Proof.
  unfold bulk_create_claims. revert s.
  induction batch as [| c batch IH]; intros s; simpl; [constructor |].
  constructor; [| apply IH].
  pose proof (insert_claim_settles s c) as Hc. revert Hc.
  generalize (insert_claim s c). clear IH. intros t.
  revert t. induction batch as [| c' batch IH]; intros t Ht; simpl; [done |].
  by apply IH, settled_insert.
Qed.

Lemma bulk_create_claims_settled batch s :
  Forall (settled s) batch → bulk_create_claims batch s = s.
Proof.
  unfold bulk_create_claims.
  induction 1 as [| c batch Hc Hbatch IH]; simpl; [done |].
  by rewrite insert_claim_settled.
Qed.

Lemma settled_same_key s c c' : same_key c c' → settled s c → settled s c'.
Proof.
  intros [Hid Hnull] [Hc | Hc]; [left; by apply Hnull | right; by rewrite <- Hid].
Qed.

(** The row mapping under two clocks: the same exception, or instances
    with the same key. *)
Lemma new_claim_clocks now now' i row :
  match new_claim now i row, new_claim now' i row with
  | inl e, inl e' => e = e'
  | inr c, inr c' => same_key c c'
  | _, _ => False
  end.
Proof.
  unfold new_claim. cbv [mbind result_bind ret raise].
  repeat (match goal with
          | |- context [match ?x with inl _ => _ | inr _ => _ end] => destruct x; [done |]
          end).
  split; [reflexivity |]. unfold claim_row. simpl.
  by repeat (match goal with o : option string |- _ => destruct o end).
Qed.

(** The store after a run holds what the flushed instances leave in it. *)
Lemma import_claims_rows_db now rows i batch count s out :
  db (import_claims_rows now rows i batch count s out) =
  bulk_create_claims (flushed now rows i batch) s.
Proof.
  revert i batch count s out.
  induction rows as [| row rows IH]; intros i batch count s out;
    cbn [import_claims_rows flushed].
  - by destruct batch.
  - destruct (new_claim now i row) as [e | c].
    + destruct (caught e); [apply IH | reflexivity].
    + case_match.
      * rewrite IH. unfold bulk_create_claims. symmetry. apply foldl_app.
      * apply IH.
Qed.

(** The outcome of a run depends neither on the store nor on the clock. *)
Lemma import_claims_rows_outcome now now' rows i batch batch' count s s' out out' :
  length batch = length batch' →
  outcome (import_claims_rows now rows i batch count s out) =
  outcome (import_claims_rows now' rows i batch' count s' out').
Proof.
  revert i batch batch' count s s' out out'.
  induction rows as [| row rows IH]; intros i batch batch' count s s' out out' Hlen;
    cbn [import_claims_rows].
  - destruct batch, batch'; simpl in *; try done. by rewrite Hlen.
  - pose proof (new_claim_clocks now now' i row) as Hrow.
    destruct (new_claim now i row) as [e | c], (new_claim now' i row) as [e' | c'];
      try done.
    + subst e'. destruct (caught e); [by apply IH | done].
    + rewrite !length_app. cbn [length]. rewrite <- Hlen.
      case_match; apply IH; rewrite ?length_app; simpl; congruence.
Qed.

Lemma flushed_clocks now now' rows i batch batch' :
  Forall2 same_key batch batch' →
  Forall2 same_key (flushed now rows i batch) (flushed now' rows i batch').
Proof.
  revert i batch batch'.
  induction rows as [| row rows IH]; intros i batch batch' Hb; cbn [flushed]; [done |].
  pose proof (new_claim_clocks now now' i row) as Hrow.
  destruct (new_claim now i row) as [e | c], (new_claim now' i row) as [e' | c'];
    try done.
  - subst e'. destruct (caught e); [by apply IH | constructor].
  - assert (Hb' : Forall2 same_key (batch ++ [c]) (batch' ++ [c']))
      by (apply Forall2_app; [done | by constructor]).
    rewrite <- (Forall2_length _ _ _ Hb').
    case_match; [| by apply IH].
    apply Forall2_app; [done |]. apply IH. constructor.
Qed.

(** The batch insert makes a second run harmless: running
    [import_claims] a second time on the same file, without clearing,
    leaves the store exactly as the first run left it, no row being added
    or overwritten, and the run ends as the first did: with the same
    count, or with the same exception.  The first run overwrites no row
    either. *)
Theorem import_claims_twice
    (now1 now2 : clock) (file : string) (s : Store) (out1 out2 : list line) :
  let once := import_claims now1 file s out1 in
  let twice := import_claims now2 file (db once) out2 in
  db twice = db once ∧
  outcome twice = outcome once ∧
  (∀ n, outcome once = ret n → outcome twice = ret n) ∧
  (∀ id row, claims s !! id = Some row → claims (db once) !! id = Some row).
Proof.
  cbn zeta. unfold import_claims.
  assert (Hout : outcome (import_claims_rows now2 (Csv.DictReader file) 0 [] 0
                            (db (import_claims_rows now1 (Csv.DictReader file) 0 [] 0 s out1))
                            out2)
                 = outcome (import_claims_rows now1 (Csv.DictReader file) 0 [] 0 s out1))
    by by apply import_claims_rows_outcome.
  split; [| split; [exact Hout | split]].
  - rewrite !import_claims_rows_db.
    apply bulk_create_claims_settled.
    pose proof (flushed_clocks now1 now2 (Csv.DictReader file) 0 [] [] (Forall2_nil_2 _ _ _)) as Hkeys.
    pose proof (bulk_create_claims_settles (flushed now1 (Csv.DictReader file) 0 []) s) as Hs.
    revert Hs. generalize (bulk_create_claims (flushed now1 (Csv.DictReader file) 0 []) s).
    intros t Hs. induction Hkeys as [| c c' l l' Hc Hl IH]; [constructor |].
    apply Forall_cons in Hs as [Hsc Hsl].
    constructor; [by eapply settled_same_key | by apply IH].
  - intros n Hn. by rewrite Hout.
  - intros id row Hid. rewrite import_claims_rows_db. by apply bulk_create_claims_keeps.
Qed.

Lemma import_claims_twice_witness :
  let once := import_claims still duplicate_ids_file empty_store [] in
  let twice := import_claims still duplicate_ids_file (db once) [] in
  outcome once = ret 3%nat ∧ db twice = db once ∧ outcome twice = ret 3%nat.
Proof.
  cbn zeta.
  destruct (import_claims_twice still still duplicate_ids_file empty_store [] [])
    as (Hdb & _ & Hret & _).
  assert (Honce : outcome (import_claims still duplicate_ids_file empty_store [])
                  = ret 3%nat) by (by vm_compute).
  split; [exact Honce |]. split; [exact Hdb | exact (Hret _ Honce)].
Defined.

(** C2 fails on the code for a claims file with a malformed amount: the
    second run raises, as the first did.  [Decimal] raises
    [InvalidOperation], which the [except] clause of the row loop does not
    name, so the claim's "raises no exception" does not hold for every
    claims file; the store is left the same by both runs. *)
Theorem import_claims_twice_raises :
  let once := import_claims still malformed_amount_file empty_store [] in
  let twice := import_claims still malformed_amount_file (db once) [] in
  outcome once = raise InvalidOperation ∧
  outcome twice = raise InvalidOperation ∧
  db twice = db once.
Proof. cbn zeta. repeat split; vm_compute; reflexivity. Qed.

(** The same with a row too short to have all its cells: both runs are
    left by [TypeError]. *)
Lemma import_claims_twice_short_row :
  let once := import_claims still short_row_file empty_store [] in
  let twice := import_claims still short_row_file (db once) [] in
  outcome once = raise TypeError ∧ outcome twice = raise TypeError ∧
  db twice = db once.
Proof. cbn zeta. repeat split; vm_compute; reflexivity. Qed.

Lemma import_claims_twice_example :
  let once := import_claims still duplicate_ids_file empty_store [] in
  let twice := import_claims still duplicate_ids_file (db once) [] in
  outcome once = ret 3%nat ∧ outcome twice = ret 3%nat ∧
  dom (claims (db twice)) = {[ 1; 2 ]} ∧
  patient_name <$> claims (db twice) !! 1 = Some "Ann".
Proof. cbn zeta. by vm_compute. Qed.

(** ** Export and re-import *)

Lemma plain_numeric l :
  forallb numeric_char l = true → plain (string_of_list_ascii l) = true.
Proof.
  intros Hl. unfold plain. rewrite list_ascii_of_string_of_list_ascii.
  apply andb_true_iff. split.
  - induction l as [| c l IH]; simpl; [done |].
    simpl in Hl. apply andb_true_iff in Hl as [Hc Hl]. rewrite IH by done.
    rewrite andb_true_r. unfold plain_char, numeric_char, is_digit in *.
    destruct (Ascii.eqb_spec c "|") as [-> | _]; [done |].
    destruct (Ascii.eqb_spec c Csv.LF) as [-> | _]; [done |].
    destruct (Ascii.eqb_spec c Csv.CR) as [-> | _]; [done |]. done.
  - destruct l as [| c l]; [done |]. simpl in Hl. apply andb_true_iff in Hl as [Hc _].
    destruct (Ascii.eqb_spec c Csv.QUOTE) as [-> | _]; [done | done].
Qed.

Lemma plain_str_int n : plain (str_int n) = true.
Proof. apply plain_numeric, numeric_str_int. Qed.

Lemma plain_str_cents c : plain (str_cents c) = true.
Proof. apply plain_numeric, numeric_str_cents. Qed.

Lemma plain_strftime d : valid_date d = true → plain (strftime d) = true.
Proof.
  intros Hv. destruct (valid_date_bounds d Hv) as (Hy & _).
  apply plain_numeric. unfold strftime_chars.
  rewrite !numeric_app. cbn [forallb]. rewrite !numeric_app. cbn [forallb].
  rewrite (all_digits_numeric (nat_digits _)) by (apply all_digits_nat; lia).
  by rewrite !(all_digits_numeric (fixed_digits _ _)) by apply all_digits_fixed.
Qed.

Lemma plain_status code : code ∈ status_codes → plain code = true.
Proof.
  unfold status_codes, STATUS_CHOICES. simpl. intros Hin.
  repeat (apply elem_of_cons in Hin as [-> | Hin]; [reflexivity |]).
  by apply elem_of_nil in Hin.
Qed.

Lemma status_code_pending code :
  code ∈ status_codes → status_mapping_get (Some code) = "pending".
Proof.
  unfold status_codes, STATUS_CHOICES. simpl. intros Hin.
  repeat (apply elem_of_cons in Hin as [-> | Hin]; [reflexivity |]).
  by apply elem_of_nil in Hin.
Qed.

Lemma exchangeable_claim_spec c :
  exchangeable_claim c = true →
  plain (patient_name c) = true ∧ plain (insurer_name c) = true ∧
  status c ∈ status_codes ∧ valid_date (discharge_date c) = true ∧
  1000 ≤ year (discharge_date c).
Proof.
  unfold exchangeable_claim.
  rewrite !andb_true_iff, bool_decide_eq_true, Z.leb_le. tauto.
Qed.

Lemma exchangeable_detail_spec s r :
  exchangeable_detail s r = true →
  is_Some (claims s !! r.1) ∧ plain (cpt_codes r.2) = true ∧
  plain (reason_or_NA (denial_reason r.2)) = true.
Proof.
  unfold exchangeable_detail. rewrite !andb_true_iff, bool_decide_eq_true. tauto.
Qed.

Lemma exchangeable_claim_fields r :
  exchangeable_claim r.2 = true →
  Forall (λ f, plain f = true) (claim_fields r) ∧ (2 ≤ length (claim_fields r))%nat.
Proof.
  intros (Hn & Hi & Hs & Hd & Hy)%exchangeable_claim_spec.
  split; [| simpl; lia].
  unfold claim_fields. repeat constructor;
    auto using plain_str_int, plain_str_cents, plain_strftime, plain_status.
Qed.

Lemma exchangeable_detail_fields s r :
  exchangeable_detail s r = true →
  Forall (λ f, plain f = true) (detail_fields r) ∧ (2 ≤ length (detail_fields r))%nat.
Proof.
  intros (Hc & Hcodes & Hr)%exchangeable_detail_spec.
  split; [| simpl; lia].
  unfold detail_fields. repeat constructor; auto using plain_str_int.
Qed.

(** The loader maps the exported line of a claim back to its columns. *)
Lemma new_claim_exported now i r :
  exchangeable_claim r.2 = true →
  ∃ c, new_claim now i (Csv.make_row expected_claims_headers (claim_fields r)) = inr c ∧
       reloaded_claim r c.
Proof.
  intros (Hn & Hi & Hs & Hd & Hy)%exchangeable_claim_spec.
  unfold new_claim, claim_fields.
  change (Csv.getitem _ "status") with (@ret (option string) (Some (status r.2))).
  change (Csv.getitem _ "discharge_date")
    with (@ret (option string) (Some (strftime (discharge_date r.2)))).
  change (Csv.getitem _ "id") with (@ret (option string) (Some (str_int r.1))).
  change (Csv.getitem _ "patient_name") with (@ret (option string) (Some (patient_name r.2))).
  change (Csv.getitem _ "billed_amount")
    with (@ret (option string) (Some (str_cents (billed_amount r.2)))).
  change (Csv.getitem _ "paid_amount")
    with (@ret (option string) (Some (str_cents (paid_amount r.2)))).
  change (Csv.getitem _ "insurer_name") with (@ret (option string) (Some (insurer_name r.2))).
  cbv [mbind result_bind ret].
  rewrite strptime_strftime, int_str_int, !Decimal_str_cents by done.
  eexists. split; [reflexivity |].
  split; [reflexivity |]. eexists. split; [reflexivity |].
  unfold claim_exchanged. simpl. by rewrite !to_cents_two_places.
Qed.

(** A run of the claims loop over rows that all map to an instance. *)
Lemma import_claims_rows_all {X} (P : X → NewClaim → Prop)
    (g : X → gmap string (option string)) now (l : list X) i batch count s out :
  (∀ i x, x ∈ l → ∃ c, new_claim now i (g x) = inr c ∧ P x c) →
  ∃ cs, Forall2 P l cs ∧
        db (import_claims_rows now (g <$> l) i batch count s out) =
          bulk_create_claims (batch ++ cs) s ∧
        outcome (import_claims_rows now (g <$> l) i batch count s out) =
          ret (count + length batch + length l)%nat.
Proof.
  revert i batch count s out.
  induction l as [| x l IH]; intros i batch count s out Hall.
  - exists []. split; [constructor |]. rewrite app_nil_r. cbn [fmap list_fmap import_claims_rows].
    destruct batch; simpl; [by rewrite !Nat.add_0_r |]. split; [done |]. f_equal. lia.
  - destruct (Hall i x ltac:(by left)) as (c & Hc & HP).
    assert (Hall' : ∀ i y, y ∈ l → ∃ c, new_claim now i (g y) = inr c ∧ P y c)
      by (intros j y Hy; apply Hall; by right).
    cbn [fmap list_fmap import_claims_rows]. fold (list_fmap _ _ g l). rewrite Hc.
    case_match.
    + destruct (IH (S i) [] (count + length (batch ++ [c]))%nat
                  (bulk_create_claims (batch ++ [c]) s)
                  (if ((count + length (batch ++ [c])) mod 1000 =? 0)%nat
                   then out ++ [Imported_claims_so_far (count + length (batch ++ [c]))]
                   else out) Hall')
        as (cs & Hcs & Hdb & Hout).
      exists (c :: cs). split; [by constructor |]. rewrite Hdb, Hout. split.
      * unfold bulk_create_claims. simpl. rewrite <- foldl_app. f_equal.
        by rewrite <- app_assoc.
      * f_equal. rewrite length_app. simpl. lia.
    + destruct (IH (S i) (batch ++ [c]) count s out Hall') as (cs & Hcs & Hdb & Hout).
      exists (c :: cs). split; [by constructor |]. rewrite Hdb, Hout. split.
      * by rewrite <- app_assoc.
      * f_equal. rewrite length_app. simpl. lia.
Qed.

Lemma bulk_create_details_claims batch s :
  claims (bulk_create_details batch s) = claims s.
Proof.
  unfold bulk_create_details. revert s.
  induction batch as [| d batch IH]; intros s; simpl; [done |].
  rewrite IH. unfold insert_detail. by repeat case_match.
Qed.

(** A run of the details loop over rows that all map to an instance. *)
Lemma import_claim_details_rows_all {X} (P : X → NewClaimDetail → Prop)
    (g : X → gmap string (option string)) now (l : list X) i batch count s out :
  (∀ i x s', x ∈ l → claims s' = claims s →
             ∃ d, new_claim_detail now i s' (g x) = inr (inr d) ∧ P x d) →
  ∃ ds, Forall2 P l ds ∧
        db (import_claim_details_rows now (g <$> l) i batch count s out) =
          bulk_create_details (batch ++ ds) s ∧
        outcome (import_claim_details_rows now (g <$> l) i batch count s out) =
          ret (count + length batch + length l)%nat.
Proof.
  revert i batch count s out.
  induction l as [| x l IH]; intros i batch count s out Hall.
  - exists []. split; [constructor |]. rewrite app_nil_r.
    cbn [fmap list_fmap import_claim_details_rows].
    destruct batch; simpl; [by rewrite !Nat.add_0_r |]. split; [done |]. f_equal. lia.
  - destruct (Hall i x s ltac:(by left) eq_refl) as (d & Hd & HP).
    cbn [fmap list_fmap import_claim_details_rows]. fold (list_fmap _ _ g l). rewrite Hd.
    case_match.
    + destruct (IH (S i) [] (count + length (batch ++ [d]))%nat
                  (bulk_create_details (batch ++ [d]) s)
                  (if ((count + length (batch ++ [d])) mod 1000 =? 0)%nat
                   then out ++ [Imported_details_so_far (count + length (batch ++ [d]))]
                   else out))
        as (ds & Hds & Hdb & Hout).
      { intros j y s' Hy Hs'. apply Hall; [by right |].
        by rewrite Hs', bulk_create_details_claims. }
      exists (d :: ds). split; [by constructor |]. rewrite Hdb, Hout. split.
      * unfold bulk_create_details. simpl. rewrite <- foldl_app. f_equal.
        by rewrite <- app_assoc.
      * f_equal. rewrite length_app. simpl. lia.
    + destruct (IH (S i) (batch ++ [d]) count s out) as (ds & Hds & Hdb & Hout).
      { intros j y s' Hy Hs'. apply Hall; [by right | done]. }
      exists (d :: ds). split; [by constructor |]. rewrite Hdb, Hout. split.
      * by rewrite <- app_assoc.
      * f_equal. rewrite length_app. simpl. lia.
Qed.

Lemma union_insert_taken {A} (m m' : gmap Z A) i x :
  is_Some (m !! i) → m ∪ <[i := x]> m' = m ∪ m'.
Proof.
  intros [y Hy]. apply map_eq. intros j. rewrite !lookup_union.
  destruct (decide (i = j)) as [<- | Hne].
  - rewrite Hy. by destruct (<[i:=x]> m' !! i), (m' !! i).
  - by rewrite lookup_insert_ne.
Qed.

Lemma bulk_create_claims_exchanged cs s :
  claim_exchanged <$> claims (bulk_create_claims cs s) =
  (claim_exchanged <$> claims s) ∪ list_to_map (omap exchanged_of cs).
Proof.
  unfold bulk_create_claims. revert s.
  induction cs as [| c cs IH]; intros s; simpl.
  - by rewrite (right_id ∅ (∪)).
  - rewrite IH. unfold insert_claim, exchanged_of.
    destruct (claim_row c) as [row |]; simpl; [| done].
    destruct (claims s !! new_id c) as [old |] eqn:Hold.
    + rewrite union_insert_taken; [done |]. rewrite lookup_fmap, Hold. by eexists.
    + simpl. rewrite fmap_insert, <- insert_union_l, <- insert_union_r; [done |].
      by rewrite lookup_fmap, Hold.
Qed.

(** Every row of the table after a batch insert was there before or is a
    fresh row: not flagged and without creator. *)
Lemma bulk_create_claims_fresh cs s id row :
  claims (bulk_create_claims cs s) !! id = Some row →
  claims s !! id = Some row ∨
  (is_flagged row = false ∧ created_by row = None ∧ updated_by row = None).
Proof.
  unfold bulk_create_claims. revert s.
  induction cs as [| c cs IH]; intros s; simpl; [by left |].
  intros [Hs | Hfresh]%IH; [| by right].
  unfold insert_claim, claim_row in Hs.
  destruct (new_patient_name c), (new_insurer_name c); simpl in Hs; try by left.
  destruct (claims s !! new_id c) eqn:Hold; [by left |]. simpl in Hs.
  destruct (decide (new_id c = id)) as [<- | Hne].
  - rewrite lookup_insert_eq in Hs. injection Hs as <-. by right.
  - rewrite lookup_insert_ne in Hs by done. by left.
Qed.

Lemma bulk_create_details_content ds s :
  detail_content <$> details (bulk_create_details ds s) =
  (detail_content <$> details s) ∪ list_to_map (omap content_of ds).
Proof.
  unfold bulk_create_details. revert s.
  induction ds as [| d ds IH]; intros s; simpl.
  - by rewrite (right_id ∅ (∪)).
  - rewrite IH. unfold insert_detail, detail_row, content_of.
    destruct (new_cpt_codes d) as [codes |]; simpl; [| done].
    destruct (details s !! new_claim_id d) as [old |] eqn:Hold.
    + rewrite union_insert_taken; [done |]. rewrite lookup_fmap, Hold. by eexists.
    + simpl. rewrite fmap_insert, <- insert_union_l, <- insert_union_r; [done |].
      by rewrite lookup_fmap, Hold.
Qed.

Lemma reloaded_claims_exchanged l cs :
  Forall2 reloaded_claim l cs →
  omap exchanged_of cs = prod_map id claim_exchanged <$> l.
Proof.
  induction 1 as [| r c l cs (Hid & row & Hrow & Hex) _ IH]; [done |].
  assert (Hc : exchanged_of c = Some (prod_map id claim_exchanged r)).
  { unfold exchanged_of. rewrite Hrow. destruct r as [k v]. simpl in *.
    by rewrite Hid, Hex. }
  cbn [omap list_omap fmap list_fmap]. by rewrite Hc, <- IH.
Qed.

Lemma reloaded_details_content l ds :
  Forall2 reloaded_detail l ds →
  omap content_of ds = prod_map id detail_exchanged <$> l.
Proof.
  induction 1 as [| r d l ds (Hid & Hcodes & Hreason) _ IH]; [done |].
  assert (Hd : content_of d = Some (prod_map id detail_exchanged r)).
  { unfold content_of. rewrite Hcodes. destruct r as [k v]. simpl in *.
    by rewrite Hid, Hreason. }
  cbn [omap list_omap fmap list_fmap]. by rewrite Hd, <- IH.
Qed.

(** A table listed in any order and collected again. *)
Lemma list_to_map_listing {A B} (f : A → B) (m : gmap Z A) (l : list (Z * A)) :
  l ≡ₚ map_to_list m →
  list_to_map (prod_map id f <$> l) = f <$> m.
Proof.
  intros Hl. rewrite list_to_map_fmap.
  rewrite (list_to_map_proper l (map_to_list m)); [by rewrite list_to_map_to_list | | done].
  rewrite Hl. apply NoDup_fst_map_to_list.
Qed.

Lemma new_claim_detail_exported now i s r :
  is_Some (claims s !! r.1) →
  ∃ d, new_claim_detail now i s (Csv.make_row expected_details_headers (detail_fields r))
         = inr (inr d) ∧
       reloaded_detail r d.
Proof.
  intros [c Hc]. eexists. split.
  - eapply (new_claim_detail_found now i s _ (str_int r.1) r.1 c
              (Some (reason_or_NA (denial_reason r.2))) (Some (cpt_codes r.2)));
      [reflexivity | apply int_str_int | exact Hc | reflexivity | reflexivity].
  - split; [reflexivity |]. split; [reflexivity |]. simpl.
    unfold reason_or_NA, reason_exchanged.
    destruct (denial_reason r.2) as [text |]; [| done].
    destruct (String.eqb_spec text "") as [-> | Hne]; [done |]. simpl.
    destruct (String.eqb_spec text "N/A") as [-> | Hna]; [done |].
    rewrite decide_False; [done | congruence].
Qed.

Lemma DictReader_rows header rows :
  Forall (λ fs, Forall (λ f, plain f = true) fs ∧ (2 ≤ length fs)%nat) (header :: rows) →
  Csv.DictReader (body ((λ fs, join "|" fs +:+ newline) <$> (header :: rows))) =
  Csv.make_row header <$> rows.
Proof.
  intros Hall. unfold Csv.DictReader. rewrite reader_rows by done.
  f_equal. apply Forall_cons in Hall as [_ Hrows].
  induction Hrows as [| fs rows [_ Hlen] _ IH]; [done |].
  destruct fs; simpl in *; [lia |]. by rewrite IH.
Qed.

Lemma export_claims_rows s :
  export_csv None s =
  body ((λ fs, join "|" fs +:+ newline) <$>
          (expected_claims_headers :: (claim_fields <$> all_claims s))).
Proof.
  unfold export_csv, generate_claims_csv. simpl. do 2 f_equal.
  rewrite <- list_fmap_compose. by apply list_fmap_ext.
Qed.

Lemma export_details_rows s :
  export_csv (Some "details") s =
  body ((λ fs, join "|" fs +:+ newline) <$>
          (expected_details_headers :: (detail_fields <$> all_details s))).
Proof.
  unfold export_csv, generate_details_csv. simpl. do 2 f_equal.
  rewrite <- list_fmap_compose. by apply list_fmap_ext.
Qed.

Lemma all_claims_listing s : all_claims s ≡ₚ map_to_list (claims s).
Proof. apply merge_sort_Permutation. Qed.

Lemma all_details_listing s : all_details s ≡ₚ map_to_list (details s).
Proof. apply merge_sort_Permutation. Qed.

Lemma exchangeable_spec s :
  exchangeable s = true →
  Forall (λ r, exchangeable_claim r.2 = true) (all_claims s) ∧
  Forall (λ r, exchangeable_detail s r = true) (all_details s).
Proof.
  unfold exchangeable. intros [Hc Hd]%andb_true_iff.
  rewrite all_claims_listing, all_details_listing.
  split; apply Forall_forall; intros r Hr%list_elem_of_In.
  - exact (proj1 (forallb_forall _ _) Hc r Hr).
  - exact (proj1 (forallb_forall _ _) Hd r Hr).
Qed.

Lemma header_rows_plain :
  (Forall (λ f, plain f = true) expected_claims_headers ∧
   (2 ≤ length expected_claims_headers)%nat) ∧
  (Forall (λ f, plain f = true) expected_details_headers ∧
   (2 ≤ length expected_details_headers)%nat).
Proof.
  repeat split; try (simpl; lia);
    repeat (constructor; [reflexivity |]); constructor.
Qed.

(** The rows that the loader reads from the exported claims. *)
Lemma DictReader_export_claims s :
  exchangeable s = true →
  Csv.DictReader (export_csv None s) =
  (λ r, Csv.make_row expected_claims_headers (claim_fields r)) <$> all_claims s.
Proof.
  intros [Hc _]%exchangeable_spec.
  rewrite export_claims_rows, DictReader_rows.
  - by rewrite <- list_fmap_compose.
  - constructor; [apply header_rows_plain |].
    apply Forall_fmap. eapply Forall_impl; [exact Hc |].
    intros r Hr. by apply exchangeable_claim_fields.
Qed.

Lemma DictReader_export_details s :
  exchangeable s = true →
  Csv.DictReader (export_csv (Some "details") s) =
  (λ r, Csv.make_row expected_details_headers (detail_fields r)) <$> all_details s.
Proof.
  intros [_ Hd]%exchangeable_spec.
  rewrite export_details_rows, DictReader_rows.
  - by rewrite <- list_fmap_compose.
  - constructor; [apply header_rows_plain |].
    apply Forall_fmap. eapply Forall_impl; [exact Hd |].
    intros r Hr. by apply (exchangeable_detail_fields s).
Qed.

Lemma bulk_create_claims_details batch s :
  details (bulk_create_claims batch s) = details s.
Proof.
  unfold bulk_create_claims. revert s.
  induction batch as [| c batch IH]; intros s; simpl; [done |].
  rewrite IH. unfold insert_claim. by repeat case_match.
Qed.

Lemma last_two {A} (l : list A) (a b : A) : last (l ++ [a; b]) = Some b.
Proof.
  replace (l ++ [a; b]) with ((l ++ [a]) ++ [b]) by (by rewrite <- app_assoc).
  apply last_snoc.
Qed.

Lemma length_all_claims s : length (all_claims s) = size (claims s).
Proof. by rewrite all_claims_listing, length_map_to_list. Qed.

Lemma length_all_details s : length (all_details s) = size (details s).
Proof. by rewrite all_details_listing, length_map_to_list. Qed.

(** C1, as the code has it by design: for a store whose rows the exchange
    format can carry (plain and readable texts, status codes, amounts of
    ten digits at most, discharge days with a year of four digits, every
    detail with its claim), exporting the claims and the details and
    loading the two files again with [clear] succeeds and reports as many
    claims and details as were stored; the claims come back under the same
    ids with the same patient name, billed amount, paid amount, insurer
    name and discharge date, unflagged and without creator or updater; the
    details come back under the same claim ids with the same codes, and
    with the same denial reason except that the empty reason and the
    literal [N/A] come back as no reason. *)
Theorem export_import_round_trip (now1 now2 : clock) (s target : Store) :
  exchangeable s = true →
  let r := handle now1 now2 (Some (export_csv None s))
             (Some (export_csv (Some "details") s)) true target in
  outcome r = ret () ∧
  last (stdout r) = Some (Import_completed (size (claims s)) (size (details s))) ∧
  claim_exchanged <$> claims (db r) = claim_exchanged <$> claims s ∧
  (∀ id c, claims (db r) !! id = Some c →
           is_flagged c = false ∧ created_by c = None ∧ updated_by c = None) ∧
  detail_content <$> details (db r) = detail_exchanged <$> details s.
Proof.
  intros Hex. cbn zeta. unfold handle, import_claims, import_claim_details.
  cbv beta iota zeta.
  rewrite DictReader_export_claims, DictReader_export_details by done.
  destruct (exchangeable_spec s Hex) as [Hc Hd].
  lazymatch goal with
  | |- context [import_claims_rows now1 _ ?ix ?bx ?nx ?sx ?ox] =>
      pose proof (import_claims_rows_all reloaded_claim
                    (λ r, Csv.make_row expected_claims_headers (claim_fields r))
                    now1 (all_claims s) ix bx nx sx ox) as Hrun
  end.
  destruct Hrun as (cs & Hcs & Hdb1 & Hout1).
  { intros i x Hx. apply new_claim_exported.
    by apply (proj1 (Forall_forall _ _) Hc). }
  rewrite Hout1, Hdb1. unfold ret. cbv beta iota. cbn [app].
  assert (Hclaims : claim_exchanged <$> claims (bulk_create_claims cs (clear_all target))
                    = claim_exchanged <$> claims s).
  { rewrite bulk_create_claims_exchanged. cbn [clear_all claims].
    rewrite fmap_empty, (left_id ∅ (∪)), (reloaded_claims_exchanged _ _ Hcs).
    apply list_to_map_listing, all_claims_listing. }
  lazymatch goal with
  | |- context [import_claim_details_rows now2 _ ?ix ?bx ?nx ?sx ?ox] =>
      pose proof (import_claim_details_rows_all reloaded_detail
                    (λ r, Csv.make_row expected_details_headers (detail_fields r))
                    now2 (all_details s) ix bx nx sx ox) as Hrun
  end.
  destruct Hrun as (ds & Hds & Hdb2 & Hout2).
  { intros i x s' Hx Hs'. apply new_claim_detail_exported.
    pose proof (proj1 (Forall_forall _ _) Hd x Hx) as (Hsome & _)%exchangeable_detail_spec.
    rewrite Hs'. apply (f_equal (λ m, m !! x.1)) in Hclaims.
    rewrite !lookup_fmap in Hclaims.
    destruct Hsome as [c Hsome]. rewrite Hsome in Hclaims.
    destruct (claims (bulk_create_claims cs (clear_all target)) !! x.1); [by eexists | done]. }
  rewrite Hout2, Hdb2. unfold ret. cbv beta iota. cbn [app db stdout outcome].
  rewrite bulk_create_details_claims.
  split; [done |]. split; [| split; [exact Hclaims | split]].
  - rewrite !Nat.add_0_l, length_all_claims, length_all_details.
    apply last_two.
  - intros id c Hid.
    apply bulk_create_claims_fresh in Hid as [Hid | Hfresh]; [| done].
    cbn [clear_all claims] in Hid. by rewrite lookup_empty in Hid.
  - rewrite bulk_create_details_content, bulk_create_claims_details.
    cbn [clear_all details].
    rewrite fmap_empty, (left_id ∅ (∪)), (reloaded_details_content _ _ Hds).
    apply list_to_map_listing, all_details_listing.
Qed.

Lemma export_import_round_trip_witness :
  exchangeable flagged_store = true ∧
  outcome (round_trip flagged_store) = ret () ∧
  claim_exchanged <$> claims (db (round_trip flagged_store)) =
    claim_exchanged <$> claims flagged_store ∧
  detail_content <$> details (db (round_trip flagged_store)) =
    detail_exchanged <$> details flagged_store.
Proof.
  assert (H : exchangeable flagged_store = true) by (by vm_compute).
  destruct (export_import_round_trip still still flagged_store flagged_store H)
    as (H1 & _ & H3 & _ & H5).
  split; [exact H |]. split; [exact H1 |]. split; [exact H3 | exact H5].
Defined.

(** C1 as stated fails: the exchange format has no column for the flag,
    so a flagged claim comes back unflagged, and the store differs from the
    original in more than the time stamps. *)
Lemma round_trip_loses_flag :
  outcome (round_trip flagged_store) = ret () ∧
  is_flagged <$> claims flagged_store !! 7 = Some true ∧
  is_flagged <$> claims (db (round_trip flagged_store)) !! 7 = Some false ∧
  ¬ same_but_timestamps (db (round_trip flagged_store)) flagged_store.
Proof.
  split; [by vm_compute |]. split; [by vm_compute |]. split; [by vm_compute |].
  intros [Hc _]. apply (f_equal (λ m, m !! 7)) in Hc.
  vm_compute in Hc. discriminate Hc.
Qed.

(** The export writes the status code, not the label of the exchange
    format; the status mapping of the loader knows no code, so every
    status comes back as [pending]. *)
Lemma round_trip_status_pending :
  status <$> claims approved_store !! 7 = Some "approved" ∧
  export_csv None approved_store =
    file_of [claims_header; "7|Ann|100.00|80.00|approved|Acme|2020-01-05"] ∧
  status <$> claims (db (round_trip approved_store)) !! 7 = Some "pending".
Proof. by vm_compute. Qed.

(** A discharge day before the year 1000 is exported with a year of less
    than four digits, which the loader does not take back: the row is
    passed over with a warning and the claim is lost. *)
Lemma round_trip_short_year :
  valid_date (discharge_date early_claim) = true ∧
  strftime (discharge_date early_claim) = "999-12-31" ∧
  strptime_date (Some "999-12-31") = raise ValueError ∧
  exchangeable early_store = false ∧
  outcome (round_trip early_store) = ret () ∧
  claims (db (round_trip early_store)) = ∅.
Proof. by vm_compute. Qed.

(** ** The codes of a detail *)

Lemma split_on_length sep cur l :
  length (split_on sep cur l) = S (length (List.filter (λ c, Ascii.eqb c sep) l)).
Proof.
  revert cur. induction l as [| c l IH]; intros cur; simpl; [done |].
  destruct (Ascii.eqb c sep); simpl; by rewrite IH.
Qed.

Lemma split_on_pieces sep cur l :
  forallb (λ c, negb (Ascii.eqb c sep)) cur = true →
  Forall (λ piece, forallb (λ c, negb (Ascii.eqb c sep)) piece = true) (split_on sep cur l).
Proof.
  revert cur. induction l as [| c l IH]; intros cur Hcur; simpl.
  - constructor; [| constructor]. by rewrite forallb_reverse.
  - destruct (Ascii.eqb c sep) eqn:Hc.
    + constructor; [by rewrite forallb_reverse | by apply IH].
    + apply IH. simpl. by rewrite Hc.
Qed.

Lemma lstrip_drop l : ∃ k, lstrip l = drop k l.
Proof.
  induction l as [| c l [k IH]]; simpl; [by exists O |].
  destruct (is_space c); [by exists (S k) | by exists O].
Qed.

Lemma lstrip_head l :
  match lstrip l with c :: _ => is_space c = false | [] => True end.
Proof.
  induction l as [| c l IH]; simpl; [done |].
  by destruct (is_space c) eqn:Hc.
Qed.

Lemma lstrip_fixed l :
  match l with c :: _ => is_space c = false | [] => True end → lstrip l = l.
Proof. destruct l as [| c l]; simpl; [done |]. by intros ->. Qed.

Lemma strip_take l : ∃ n, strip l = take n (lstrip l).
Proof.
  unfold strip. destruct (lstrip_drop (rev (lstrip l))) as [k ->].
  exists (length (lstrip l) - k)%nat.
  change (drop k (rev (lstrip l))) with (skipn k (rev (lstrip l))).
  by rewrite skipn_rev, rev_involutive.
Qed.

Lemma strip_trimmed l : trimmed (strip l) = true.
Proof.
  unfold trimmed. apply andb_true_iff. split.
  - destruct (strip_take l) as [n ->].
    pose proof (lstrip_head l) as Hh.
    destruct (lstrip l) as [| c r]; [by destruct n |].
    destruct n; [done |]. simpl. by rewrite Hh.
  - unfold strip. rewrite rev_involutive.
    pose proof (lstrip_head (rev (lstrip l))) as Hh.
    destruct (lstrip (rev (lstrip l))); [done | by rewrite Hh].
Qed.

Lemma trimmed_strip l : trimmed l = true → strip l = l.
Proof.
  unfold trimmed, strip. intros [Hh Hl]%andb_true_iff.
  rewrite (lstrip_fixed l) by (destruct l; [done | by apply negb_true_iff]).
  rewrite (lstrip_fixed (rev l)) by (destruct (rev l); [done | by apply negb_true_iff]).
  apply rev_involutive.
Qed.

Lemma strip_sublist l : sublist (strip l) l.
Proof.
  destruct (strip_take l) as [n ->]. destruct (lstrip_drop l) as [k ->].
  etrans; [apply sublist_take | apply sublist_drop].
Qed.

Lemma no_comma_sublist l k : sublist l k → no_comma k = true → no_comma l = true.
Proof.
  unfold no_comma. intros Hs Hk. apply forallb_forall. intros c Hc.
  apply (proj1 (forallb_forall _ _) Hk). apply list_elem_of_In.
  eapply elem_of_sublist; [| exact Hs]. by apply list_elem_of_In.
Qed.

(** X1: [get_cpt_codes_list] gives no code for an empty text and otherwise
    one code more than the text has commas; no code contains a comma, and
    none begins or ends with white space. *)
Theorem get_cpt_codes_list_codes (d : ClaimDetail) :
  length (get_cpt_codes_list d) =
    (if String.eqb (cpt_codes d) "" then O else S (commas (cpt_codes d))) ∧
  Forall (λ code, trimmed (chars code) = true ∧ no_comma (chars code) = true)
         (get_cpt_codes_list d).
Proof.
  unfold get_cpt_codes_list, commas.
  destruct (cpt_codes d) as [| c s] eqn:Hs; [by split |].
  change (String.eqb (String c s) "") with false. cbv iota.
  rewrite length_fmap, split_on_length. split; [done |].
  apply Forall_fmap.
  eapply Forall_impl; [apply (split_on_pieces "," []); done |].
  intros piece Hp. unfold chars. simpl. rewrite list_ascii_of_string_of_list_ascii.
  split; [apply strip_trimmed |].
  eapply no_comma_sublist; [apply strip_sublist | exact Hp].
Qed.

Lemma split_on_piece sep a cur :
  forallb (λ c, negb (Ascii.eqb c sep)) a = true → split_on sep cur a = [rev cur ++ a].
Proof.
  revert cur. induction a as [| c a IH]; intros cur; simpl.
  - by rewrite app_nil_r.
  - intros [Hc Ha]%andb_true_iff. apply negb_true_iff in Hc.
    rewrite Hc, IH by done. simpl. by rewrite <- app_assoc.
Qed.

Lemma split_on_cons sep a cur rest :
  forallb (λ c, negb (Ascii.eqb c sep)) a = true →
  split_on sep cur (a ++ sep :: rest) = (rev cur ++ a) :: split_on sep [] rest.
Proof.
  revert cur. induction a as [| c a IH]; intros cur; simpl.
  - by rewrite Ascii.eqb_refl, app_nil_r.
  - intros [Hc Ha]%andb_true_iff. apply negb_true_iff in Hc.
    rewrite Hc, IH by done. simpl. by rewrite <- app_assoc.
Qed.

Lemma split_on_join codes :
  codes ≠ [] → Forall (λ code, no_comma (chars code) = true) codes →
  split_on "," [] (chars (join "," codes)) = chars <$> codes.
Proof.
  intros Hne Hall. induction codes as [| f codes IH]; [done |].
  apply Forall_cons in Hall as [Hf Hcodes].
  destruct codes as [| g codes].
  - simpl. by rewrite split_on_piece.
  - cbn [join]. rewrite !chars_append. cbn [chars list_ascii_of_string app].
    rewrite split_on_cons by done. cbn [fmap list_fmap]. f_equal.
    by apply IH.
Qed.

(** X2: [get_cpt_codes_list] takes apart what a join with commas put
    together: when the text of the codes is the join of a list of codes
    that are free of commas and of white space at their ends, the list not
    being the single empty code, the codes read are this list. *)
Theorem get_cpt_codes_list_join (d : ClaimDetail) (codes : list string) :
  Forall (λ code, trimmed (chars code) = true ∧ no_comma (chars code) = true) codes →
  codes ≠ [""] →
  cpt_codes d = join "," codes →
  get_cpt_codes_list d = codes.
Proof.
  intros Hall Hne Hd. unfold get_cpt_codes_list. rewrite Hd.
  destruct codes as [| f codes]; [done |].
  assert (Hjoin : join "," (f :: codes) ≠ "").
  { destruct codes as [| g codes]; [simpl; congruence |].
    cbn [join]. intros Heq. apply (f_equal chars) in Heq.
    rewrite !chars_append in Heq. by destruct (chars f). }
  destruct (join "," (f :: codes)) as [| c s] eqn:Hs; [done |]. rewrite <- Hs.
  fold (chars (join "," (f :: codes))).
  rewrite split_on_join; [| done | eapply Forall_impl; [exact Hall | by intros ? [_ ?]]].
  rewrite <- list_fmap_compose.
  rewrite <- (list_fmap_id (f :: codes)) at 2.
  apply Forall_fmap_ext. eapply Forall_impl; [exact Hall |].
  intros code [Ht _]. simpl. by rewrite trimmed_strip, string_of_chars.
Qed.

Lemma get_cpt_codes_list_join_witness :
  get_cpt_codes_list two_codes_detail = ["99213"; "99214"].
Proof.
  apply get_cpt_codes_list_join; [| done | done].
  repeat constructor.
Defined.

(** ** The preview of a note *)

Lemma length_substring_0 n s :
  String.length (substring 0 n s) = Nat.min n (String.length s).
Proof.
  revert s. induction n as [| n IH]; intros [| c s]; simpl; try done.
  by rewrite IH.
Qed.

Lemma length_append (s t : string) :
  String.length (s +:+ t) = (String.length s + String.length t)%nat.
Proof. induction s as [| c s IH]; simpl; [done | by rewrite IH]. Qed.

Lemma substring_0_append n s t :
  (n ≤ String.length s)%nat → substring 0 n (s +:+ t) = substring 0 n s.
Proof.
  revert s. induction n as [| n IH]; intros [| c s] Hn; simpl in *; try done.
  - by destruct t.
  - lia.
  - rewrite IH; [done | lia].
Qed.

Lemma substring_0_idem n s : substring 0 n (substring 0 n s) = substring 0 n s.
Proof.
  revert s. induction n as [| n IH]; intros [| c s]; simpl; try done.
  by rewrite IH.
Qed.

Lemma substring_0_all n s : (String.length s ≤ n)%nat → substring 0 n s = s.
Proof.
  revert s. induction n as [| n IH]; intros [| c s] Hn; simpl in *; try done.
  - lia.
  - rewrite IH; [done | lia].
Qed.

(** X3: [content_preview] has 53 characters when the content has more
    than 50 and is the content otherwise, so it never has more than 53;
    its first 50 characters are those of the content. *)
Theorem content_preview_length (obj : ClaimNote) :
  String.length (content_preview obj) =
    (if (50 <? String.length (content obj))%nat then 53%nat
     else String.length (content obj)) ∧
  (String.length (content_preview obj) ≤ 53)%nat ∧
  substring 0 50 (content_preview obj) = substring 0 50 (content obj).
Proof.
  unfold content_preview.
  destruct (Nat.ltb_spec 50 (String.length (content obj))) as [Hlong | Hshort].
  - rewrite length_append, length_substring_0.
    rewrite substring_0_append by (rewrite length_substring_0; lia).
    rewrite substring_0_idem. change (String.length "...") with 3%nat.
    split; [lia | split; [lia | done]].
  - split; [done | split; [lia | done]].
Qed.

(** ** What the loader writes and what it counts *)

Lemma size_insert_claim s c :
  (size (claims (insert_claim s c)) ≤ S (size (claims s)))%nat.
Proof.
  unfold insert_claim. destruct (claim_row c) as [row |]; [| lia].
  destruct (claims s !! new_id c) eqn:Hid; [lia |].
  simpl. rewrite map_size_insert_None by done. lia.
Qed.

Lemma size_bulk_create_claims batch s :
  (size (claims (bulk_create_claims batch s)) ≤ size (claims s) + length batch)%nat.
Proof.
  unfold bulk_create_claims. revert s.
  induction batch as [| c batch IH]; intros s; simpl; [lia |].
  pose proof (IH (insert_claim s c)). pose proof (size_insert_claim s c). lia.
Qed.

Lemma import_claims_rows_count now rows i batch count s out n :
  outcome (import_claims_rows now rows i batch count s out) = ret n →
  ∃ lines,
    stdout (import_claims_rows now rows i batch count s out) = out ++ lines ∧
    (n + length (List.filter is_skipped lines) = count + length batch + length rows)%nat ∧
    (count + length (flushed now rows i batch) = n)%nat.
Proof.
  revert i batch count s out.
  induction rows as [| row rows IH]; intros i batch count s out;
    cbn [import_claims_rows flushed].
  - destruct batch as [| c batch]; cbn [outcome stdout]; intros [= <-];
      exists []; rewrite app_nil_r; simpl; repeat split; lia.
  - destruct (new_claim now i row) as [e | c].
    + destruct (caught e); [| done].
      intros (lines & Hout & Hn & Hf)%IH.
      exists (Skipping_invalid_row row e :: lines).
      rewrite Hout, <- app_assoc. simpl. repeat split; [lia | done].
    + destruct (batch_size <=? length (batch ++ [c]))%nat.
      * intros (lines & Hout & Hn & Hf)%IH. rewrite Hout.
        destruct ((count + length (batch ++ [c])) mod 1000 =? 0)%nat.
        -- exists (Imported_claims_so_far (count + length (batch ++ [c])) :: lines).
           rewrite <- app_assoc. simpl. rewrite !length_app in *. simpl in *.
           repeat split; lia.
        -- exists lines. rewrite !length_app in *. simpl in *. repeat split; lia.
      * intros (lines & Hout & Hn & Hf)%IH. exists lines.
        rewrite !length_app in *. simpl in *. repeat split; [done | lia | lia].
Qed.

(** X4: when [import_claims] returns a count, this count and the number
    of rows passed over with a warning add up to the number of rows read;
    the count is the number of instances handed to the batch insert, so
    the table grows by at most the count (an id that is already taken is
    counted and not stored). *)
Theorem import_claims_count
    (now : clock) (file : string) (s : Store) (out : list line) (n : nat) :
  let r := import_claims now file s out in
  outcome r = ret n →
  (∃ lines, stdout r = out ++ lines ∧
            (n + length (List.filter is_skipped lines) =
               length (Csv.DictReader file))%nat) ∧
  (size (claims (db r)) ≤ size (claims s) + n)%nat.
Proof.
  cbn zeta. unfold import_claims. intros Hn.
  destruct (import_claims_rows_count _ _ _ _ _ _ _ _ Hn) as (lines & Hout & Hlen & Hf).
  split.
  - exists lines. split; [done |]. simpl in Hlen. lia.
  - rewrite import_claims_rows_db.
    pose proof (size_bulk_create_claims (flushed now (Csv.DictReader file) 0 []) s). lia.
Qed.

Lemma import_claims_count_witness :
  let r := import_claims still duplicate_ids_file empty_store [] in
  outcome r = ret 3%nat ∧ size (claims (db r)) = 2%nat ∧
  (size (claims (db r)) ≤ size (claims empty_store) + 3)%nat.
Proof.
  cbn zeta.
  assert (H : outcome (import_claims still duplicate_ids_file empty_store []) = ret 3%nat)
    by (vm_compute; reflexivity).
  split; [exact H |]. split; [by vm_compute |].
  exact (proj2 (import_claims_count still duplicate_ids_file empty_store [] 3 H)).
Defined.

(** ** The rows that the claims loader adds *)

Lemma status_code_in code : bool_decide (code ∈ status_codes) = true → code ∈ status_codes.
Proof. apply bool_decide_eq_true. Qed.

Lemma status_mapping_get_code cell : status_mapping_get cell ∈ status_codes.
Proof.
  unfold status_mapping_get. destruct cell as [label |]; [| by apply status_code_in].
  unfold status_mapping.
  repeat match goal with
         | |- context [<[?k := _]> _ !! label] =>
             destruct (decide (k = label)) as [<- | ?];
               [rewrite lookup_insert_eq; by apply status_code_in
               | rewrite lookup_insert_ne by done]
         end.
  rewrite lookup_empty. by apply status_code_in.
Qed.

Lemma new_claim_status now i row nc :
  new_claim now i row = inr nc → new_status nc ∈ status_codes.
Proof.
  unfold new_claim. cbv [mbind result_bind ret].
  repeat (match goal with
          | |- context [match ?x with inl _ => _ | inr _ => _ end] => destruct x; [done |]
          end).
  intros [= <-]. apply status_mapping_get_code.
Qed.

Lemma flushed_rows now rows i batch nc :
  nc ∈ flushed now rows i batch →
  nc ∈ batch ∨ ∃ j row, rows !! j = Some row ∧ new_claim now (i + j) row = inr nc.
Proof.
  revert i batch. induction rows as [| row rows IH]; intros i batch; cbn [flushed].
  - by left.
  - assert (Hshift : ∀ b, nc ∈ flushed now rows (S i) b →
              nc ∈ b ∨ ∃ j row', (row :: rows) !! j = Some row' ∧
                                  new_claim now (i + j) row' = inr nc).
    { intros b [Hb | (j & row' & Hj & Hnc)]%IH; [by left |].
      right. exists (S j), row'. split; [done |].
      by replace (i + S j)%nat with (S i + j)%nat by lia. }
    destruct (new_claim now i row) as [e | c] eqn:Hrow.
    + destruct (caught e); [apply Hshift | by intros ?%elem_of_nil].
    + assert (Hc : ∀ x, x ∈ batch ++ [c] →
                x ∈ batch ∨ ∃ j row', (row :: rows) !! j = Some row' ∧
                                      new_claim now (i + j) row' = inr x).
      { intros x [Hx | Hx%list_elem_of_singleton]%elem_of_app; [by left |].
        subst x. right. exists O, row. by rewrite Nat.add_0_r. }
      case_match.
      * intros [Hx | Hx]%elem_of_app; [by apply Hc |].
        apply Hshift in Hx as [Hx%elem_of_nil | Hx]; [done | by right].
      * intros [Hx | Hx]%Hshift; [by apply Hc | by right].
Qed.

Lemma bulk_create_claims_lookup cs s id c :
  claims (bulk_create_claims cs s) !! id = Some c →
  claims s !! id = Some c ∨ ∃ nc, nc ∈ cs ∧ new_id nc = id ∧ claim_row nc = Some c.
Proof.
  unfold bulk_create_claims. revert s.
  induction cs as [| nc cs IH]; intros s; simpl; [by left |].
  intros [Hs | (nc' & Hin & Hid & Hrow)]%IH.
  - unfold insert_claim in Hs.
    destruct (claim_row nc) as [row |] eqn:Hrow; [| by left].
    destruct (claims s !! new_id nc) eqn:Hold; [by left |]. simpl in Hs.
    destruct (decide (new_id nc = id)) as [<- | Hne].
    + rewrite lookup_insert_eq in Hs. injection Hs as <-.
      right. exists nc. split; [by left | done].
    + rewrite lookup_insert_ne in Hs by done. by left.
  - right. exists nc'. split; [by right | done].
Qed.

Lemma bulk_create_claims_next batch s :
  next_detail_id (bulk_create_claims batch s) = next_detail_id s.
Proof.
  unfold bulk_create_claims. revert s.
  induction batch as [| c batch IH]; intros s; simpl; [done |].
  rewrite IH. unfold insert_claim. by repeat case_match.
Qed.

(** X5: [import_claims] leaves every stored claim as it is, and the
    details and their key sequence untouched; a claim that it adds is the
    row built from a data row of the file, under the id of that row, with
    one of the five status codes, not flagged and without creator or
    updater. *)
Theorem import_claims_inserts
    (now : clock) (file : string) (s : Store) (out : list line) :
  let r := import_claims now file s out in
  claims s ⊆ claims (db r) ∧
  details (db r) = details s ∧
  next_detail_id (db r) = next_detail_id s ∧
  ∀ id c, claims (db r) !! id = Some c → claims s !! id = None →
    (∃ i row nc, Csv.DictReader file !! i = Some row ∧
                 new_claim now i row = inr nc ∧
                 new_id nc = id ∧ claim_row nc = Some c) ∧
    status c ∈ status_codes ∧
    is_flagged c = false ∧ created_by c = None ∧ updated_by c = None.
Proof.
  cbn zeta. unfold import_claims. rewrite import_claims_rows_db.
  split; [| split; [apply bulk_create_claims_details |
                    split; [apply bulk_create_claims_next |]]].
  - apply map_subseteq_spec. intros id row. apply bulk_create_claims_keeps.
  - intros id c Hc Hnew.
    apply bulk_create_claims_lookup in Hc as [Hc | (nc & Hin & Hid & Hrow)]; [congruence |].
    apply flushed_rows in Hin as [Hin%elem_of_nil | (j & row & Hj & Hnc)]; [done |].
    split; [by exists j, row, nc |].
    pose proof (new_claim_status _ _ _ _ Hnc) as Hst.
    unfold claim_row in Hrow.
    destruct (new_patient_name nc), (new_insurer_name nc); simpl in Hrow; try done.
    by injection Hrow as <-.
Qed.

(** ** The rows that the details loader adds *)

Lemma new_claim_detail_good now i s row d :
  new_claim_detail now i s row = inr (inr d) → good_detail s d.
Proof.
  unfold new_claim_detail. cbv [mbind result_bind ret].
  destruct (Csv.getitem row "claim_id") as [e | cell]; [done |].
  destruct (int cell) as [e | claim_id]; [done |].
  destruct (claims s !! claim_id) as [c |] eqn:Hc; [| done].
  destruct (Csv.getitem row "denial_reason") as [e | reason]; [done |].
  destruct (Csv.getitem row "cpt_codes") as [e | codes]; [done |].
  intros [= <-]. split; simpl; [by rewrite Hc |].
  case_decide; [done | done].
Qed.

Lemma import_claim_details_rows_plan now rows i batch count s out :
  Forall (good_detail s) batch →
  ∃ ds, db (import_claim_details_rows now rows i batch count s out) =
          bulk_create_details ds s ∧
        Forall (good_detail s) ds.
Proof.
  revert i batch count s out.
  induction rows as [| row rows IH]; intros i batch count s out Hbatch;
    cbn [import_claim_details_rows].
  - destruct batch as [| d batch]; [by exists [] | by exists (d :: batch)].
  - destruct (new_claim_detail now i s row) as [e | [claim_id | d]] eqn:Hrow.
    + destruct (caught e); [by apply IH | by exists []].
    + by apply IH.
    + pose proof (new_claim_detail_good _ _ _ _ _ Hrow) as Hd.
      assert (Hbatch' : Forall (good_detail s) (batch ++ [d]))
        by (apply Forall_app; split; [done | by constructor]).
      case_match; [| by apply IH].
      destruct (IH (S i) [] (count + length (batch ++ [d]))%nat
                  (bulk_create_details (batch ++ [d]) s)
                  (if ((count + length (batch ++ [d])) mod 1000 =? 0)%nat
                   then out ++ [Imported_details_so_far (count + length (batch ++ [d]))]
                   else out) (Forall_nil_2 _)) as (ds & -> & Hds).
      exists ((batch ++ [d]) ++ ds). split.
      * unfold bulk_create_details. symmetry. apply foldl_app.
      * apply Forall_app. split; [done |].
        eapply Forall_impl; [exact Hds |]. intros x [Hx ?]. split; [| done].
        by rewrite bulk_create_details_claims in Hx.
Qed.

Lemma insert_detail_keeps s nd id d :
  details s !! id = Some d → details (insert_detail s nd) !! id = Some d.
Proof.
  intros Hid. unfold insert_detail.
  destruct (detail_row (next_detail_id s) nd) as [row |]; [| done].
  destruct (details s !! new_claim_id nd) eqn:Hold; [done |].
  simpl. rewrite lookup_insert_ne; [done | congruence].
Qed.

Lemma bulk_create_details_keeps ds s id d :
  details s !! id = Some d → details (bulk_create_details ds s) !! id = Some d.
Proof.
  unfold bulk_create_details. revert s.
  induction ds as [| nd ds IH]; intros s Hid; simpl; [done |].
  by apply IH, insert_detail_keeps.
Qed.

Lemma bulk_create_details_lookup ds s id d :
  details (bulk_create_details ds s) !! id = Some d →
  details s !! id = Some d ∨
  ∃ nd, nd ∈ ds ∧ new_claim_id nd = id ∧ denial_reason d = new_denial_reason nd.
Proof.
  unfold bulk_create_details. revert s.
  induction ds as [| nd ds IH]; intros s; simpl; [by left |].
  intros [Hs | (nd' & Hin & Hid & Hr)]%IH.
  - unfold insert_detail in Hs.
    destruct (detail_row (next_detail_id s) nd) as [row |] eqn:Hrow; [| by left].
    destruct (details s !! new_claim_id nd) eqn:Hold; [by left |]. simpl in Hs.
    destruct (decide (new_claim_id nd = id)) as [<- | Hne].
    + rewrite lookup_insert_eq in Hs. injection Hs as <-.
      right. exists nd. split; [by left |]. split; [done |].
      unfold detail_row in Hrow. destruct (new_cpt_codes nd); simpl in Hrow; [| done].
      by injection Hrow as <-.
    + rewrite lookup_insert_ne in Hs by done. by left.
  - right. exists nd'. split; [by right | done].
Qed.

(** X6: [import_claim_details] leaves the claims untouched and every
    stored detail as it is; a detail that it adds belongs to a stored
    claim, and its reason is never the literal [N/A]. *)
Theorem import_claim_details_inserts
    (now : clock) (file : string) (s : Store) (out : list line) :
  let r := import_claim_details now file s out in
  claims (db r) = claims s ∧
  details s ⊆ details (db r) ∧
  ∀ id d, details (db r) !! id = Some d → details s !! id = None →
    is_Some (claims s !! id) ∧ denial_reason d ≠ Some "N/A".
Proof.
  cbn zeta. unfold import_claim_details.
  destruct (import_claim_details_rows_plan now (Csv.DictReader file) 0 [] 0 s out
              (Forall_nil_2 _)) as (ds & -> & Hds).
  split; [apply bulk_create_details_claims | split].
  - apply map_subseteq_spec. intros id d. apply bulk_create_details_keeps.
  - intros id d Hd Hnew.
    apply bulk_create_details_lookup in Hd as [Hd | (nd & Hin & Hid & Hr)]; [congruence |].
    destruct (proj1 (Forall_forall _ _) Hds nd Hin) as [Hc Hna].
    rewrite Hid in Hc. by rewrite Hr.
Qed.

Lemma import_claim_details_rows_count now rows i batch count s out n :
  outcome (import_claim_details_rows now rows i batch count s out) = ret n →
  ∃ lines,
    stdout (import_claim_details_rows now rows i batch count s out) = out ++ lines ∧
    (n + length (List.filter is_warning lines) = count + length batch + length rows)%nat.
Proof.
  revert i batch count s out.
  induction rows as [| row rows IH]; intros i batch count s out;
    cbn [import_claim_details_rows].
  - destruct batch as [| c batch]; cbn [outcome stdout]; intros [= <-];
      exists []; rewrite app_nil_r; simpl; repeat split; lia.
  - destruct (new_claim_detail now i s row) as [e | [claim_id | d]].
    + destruct (caught e); [| done].
      intros (lines & Hout & Hn)%IH.
      exists (Skipping_invalid_detail_row row e :: lines).
      rewrite Hout, <- app_assoc. simpl. split; [done | lia].
    + intros (lines & Hout & Hn)%IH.
      exists (Claim_not_found claim_id :: lines).
      rewrite Hout, <- app_assoc. simpl. split; [done | lia].
    + destruct (batch_size <=? length (batch ++ [d]))%nat.
      * intros (lines & Hout & Hn)%IH. rewrite Hout.
        destruct ((count + length (batch ++ [d])) mod 1000 =? 0)%nat.
        -- exists (Imported_details_so_far (count + length (batch ++ [d])) :: lines).
           rewrite <- app_assoc. simpl. rewrite !length_app in *. simpl in *.
           split; [done | lia].
        -- exists lines. rewrite !length_app in *. simpl in *. split; [done | lia].
      * intros (lines & Hout & Hn)%IH. exists lines.
        rewrite !length_app in *. simpl in *. split; [done | lia].
Qed.

(** X7: when [import_claim_details] returns a count, this count and the
    number of warnings written (rows passed over as invalid or for want of
    their claim) add up to the number of rows read. *)
Theorem import_claim_details_count
    (now : clock) (file : string) (s : Store) (out : list line) (n : nat) :
  let r := import_claim_details now file s out in
  outcome r = ret n →
  ∃ lines, stdout r = out ++ lines ∧
           (n + length (List.filter is_warning lines) =
              length (Csv.DictReader file))%nat.
Proof.
  cbn zeta. unfold import_claim_details. intros Hn.
  destruct (import_claim_details_rows_count _ _ _ _ _ _ _ _ Hn) as (lines & Hout & Hlen).
  exists lines. split; [done |]. simpl in Hlen. lia.
Qed.

Lemma import_claim_details_count_witness :
  let r := import_claim_details still mixed_details_file sample_store [] in
  outcome r = ret 1%nat ∧
  ∃ lines, stdout r = lines ∧
           (1 + length (List.filter is_warning lines) = 3)%nat.
Proof.
  cbn zeta.
  assert (H : outcome (import_claim_details still mixed_details_file sample_store [])
              = ret 1%nat) by (vm_compute; reflexivity).
  split; [exact H |].
  destruct (import_claim_details_count still mixed_details_file sample_store [] 1 H)
    as (lines & Hout & Hlen).
  exists lines. split; [exact Hout |]. rewrite Hlen. by vm_compute.
Defined.

(** ** The command as a whole *)

Lemma import_claims_have_claims now file s out :
  details_have_claims s → details_have_claims (db (import_claims now file s out)).
Proof.
  intros Hs id. unfold import_claims.
  rewrite import_claims_rows_db, bulk_create_claims_details.
  intros [c Hc]%Hs. exists c. by apply bulk_create_claims_keeps.
Qed.

Lemma import_claim_details_have_claims now file s out :
  details_have_claims s → details_have_claims (db (import_claim_details now file s out)).
Proof.
  intros Hs id [d Hd]. revert Hd. unfold import_claim_details.
  destruct (import_claim_details_rows_plan now (Csv.DictReader file) 0 [] 0 s out
              (Forall_nil_2 _)) as (ds & -> & Hds).
  rewrite bulk_create_details_claims.
  intros [Hd | (nd & Hin & Hid & _)]%bulk_create_details_lookup.
  - apply Hs. by rewrite Hd.
  - destruct (proj1 (Forall_forall _ _) Hds nd Hin) as [Hc _]. by rewrite Hid in Hc.
Qed.

Lemma import_claims_keeps now file s out :
  claims s ⊆ claims (db (import_claims now file s out)) ∧
  details s ⊆ details (db (import_claims now file s out)).
Proof.
  unfold import_claims. rewrite import_claims_rows_db. split.
  - apply map_subseteq_spec. intros id row. apply bulk_create_claims_keeps.
  - by rewrite bulk_create_claims_details.
Qed.

Lemma import_claim_details_keeps now file s out :
  claims s ⊆ claims (db (import_claim_details now file s out)) ∧
  details s ⊆ details (db (import_claim_details now file s out)).
Proof.
  unfold import_claim_details.
  destruct (import_claim_details_rows_plan now (Csv.DictReader file) 0 [] 0 s out
              (Forall_nil_2 _)) as (ds & -> & Hds).
  split; [by rewrite bulk_create_details_claims |].
  apply map_subseteq_spec. intros id d. apply bulk_create_details_keeps.
Qed.

(** The store that [handle] leaves, by the stage at which it ends. *)
Lemma handle_db now1 now2 claims_text details_text (clear : bool) s :
  let s0 := if clear then clear_all s else s in
  let r := handle now1 now2 (Some claims_text) (Some details_text) clear s in
  ∃ out1 out2,
    db r = db (import_claims now1 claims_text s0 out1) ∨
    db r = db (import_claim_details now2 details_text
                 (db (import_claims now1 claims_text s0 out1)) out2).
Proof.
  cbn zeta. unfold handle.
  set (out1 := (if clear then [Clearing_existing_data; Existing_data_cleared] else [])
               ++ [Starting_claims_import]).
  set (r1 := import_claims now1 claims_text (if clear then clear_all s else s) out1).
  destruct (outcome r1) as [e | n] eqn:H1.
  - exists out1, (@nil line). by left.
  - set (out2 := stdout r1 ++ [Successfully_imported_claims n;
                               Starting_claim_details_import]).
    exists out1, out2. right. fold r1. by destruct (outcome (import_claim_details _ _ _ _)).
Qed.

(** X8: after [handle] on two files that exist, every detail belongs to
    a stored claim, provided this held before or [clear] was set; this
    holds whether the command ends well or is left by an exception. *)
Theorem handle_details_have_claims
    (now_claims now_details : clock) (claims_text details_text : string)
    (clear : bool) (s : Store) :
  clear = true ∨ details_have_claims s →
  details_have_claims
    (db (handle now_claims now_details (Some claims_text) (Some details_text) clear s)).
Proof.
  intros Hs.
  assert (Hs0 : details_have_claims (if clear then clear_all s else s)).
  { destruct clear; [| by destruct Hs].
    intros id [d Hd]. simpl in Hd. by rewrite lookup_empty in Hd. }
  destruct (handle_db now_claims now_details claims_text details_text clear s)
    as (out1 & out2 & [-> | ->]).
  - by apply import_claims_have_claims.
  - by apply import_claim_details_have_claims, import_claims_have_claims.
Qed.

Lemma handle_details_have_claims_witness :
  details_have_claims
    (db (handle still still (Some duplicate_ids_file) (Some mixed_details_file) true
           flagged_store)).
Proof. apply handle_details_have_claims. by left. Defined.

(** X9: without [clear], [handle] loses nothing: every claim and every
    detail stored before is stored unchanged after, whether the files
    exist or not and whether the command ends well or is left by an
    exception. *)
Theorem handle_append_keeps
    (now_claims now_details : clock) (claims_file details_file : option string)
    (s : Store) :
  let r := handle now_claims now_details claims_file details_file false s in
  claims s ⊆ claims (db r) ∧ details s ⊆ details (db r).
Proof.
  cbn zeta.
  destruct claims_file as [claims_text |], details_file as [details_text |]; try done.
  destruct (handle_db now_claims now_details claims_text details_text false s)
    as (out1 & out2 & [-> | ->]); cbn iota.
  - apply import_claims_keeps.
  - destruct (import_claims_keeps now_claims claims_text s out1) as [Hc Hd].
    destruct (import_claim_details_keeps now_details details_text
                (db (import_claims now_claims claims_text s out1)) out2) as [Hc' Hd'].
    split; etrans; eauto.
Qed.

(** ** The rows that the validator looks at *)

Lemma check_rows_take file expected i rows :
  check_rows file expected i rows = check_rows file expected i (take (3 - i) rows).
Proof.
  revert i. induction rows as [| row rows IH]; intros i.
  - by rewrite take_nil.
  - destruct (decide (3 ≤ i)%nat) as [Hi | Hi].
    + replace (3 - i)%nat with O by lia. cbn [take check_rows].
      by rewrite (proj2 (Nat.leb_le 3 i) Hi).
    + replace (3 - i)%nat with (S (3 - S i)) by lia. cbn [take check_rows].
      by rewrite IH.
Qed.

Lemma validate_file_take file expected text1 text2 :
  take 4 (Csv.reader text1) = take 4 (Csv.reader text2) →
  validate_file file expected text1 = validate_file file expected text2.
Proof.
  unfold validate_file.
  destruct (Csv.reader text1) as [| h1 rest1], (Csv.reader text2) as [| h2 rest2];
    try done.
  cbn [take]. intros [= -> Hrest].
  rewrite (check_rows_take _ _ O rest1), (check_rows_take _ _ O rest2).
  change (3 - 0)%nat with 3%nat. by rewrite Hrest.
Qed.

(** X10: [validate_csv_files] looks at the header and at the first three
    data rows of each file and at nothing after them: two pairs of files
    that the reader can read and that agree on their first four records
    get the same list of errors. *)
Theorem validate_csv_files_first_rows (claims1 details1 claims2 details2 : string) :
  readable claims1 = true → readable details1 = true →
  readable claims2 = true → readable details2 = true →
  take 4 (Csv.reader claims1) = take 4 (Csv.reader claims2) →
  take 4 (Csv.reader details1) = take 4 (Csv.reader details2) →
  validate_csv_files claims1 details1 = validate_csv_files claims2 details2.
Proof.
  intros _ _ _ _ Hc Hd. unfold validate_csv_files.
  by rewrite (validate_file_take _ _ _ _ Hc), (validate_file_take _ _ _ _ Hd).
Qed.

Lemma validate_csv_files_first_rows_witness :
  length <$> Csv.reader short_fourth_row_file !! 4%nat = Some 2%nat ∧
  validate_csv_files short_fourth_row_file good_details_file = [] ∧
  validate_csv_files four_rows_file good_details_file = [].
Proof.
  split; [vm_compute; reflexivity |].
  rewrite (validate_csv_files_first_rows short_fourth_row_file good_details_file
             four_rows_file good_details_file);
    [| vm_compute; reflexivity .. ].
  split; vm_compute; reflexivity.
Defined.

(** ** The figures of the dashboard *)

(** The counts and the sums of a computed dashboard. *)
Lemma dashboard_figures s ctx :
  dashboard s = inr ctx →
  let all := map_to_list (claims s) in
  let fs := financial_stats ctx in
  total_claims ctx = length all ∧
  flagged_claims ctx = length (rows_where is_flagged s) ∧
  underpaid_claims fs = length (rows_where (λ c, paid_amount c * 2 < billed_amount c) s) ∧
  total_billed fs = or_zero (Sum ((λ r, billed_amount r.2) <$> all)) ∧
  total_paid fs = or_zero (Sum ((λ r, paid_amount r.2) <$> all)) ∧
  denial_count (denial_stats ctx) = length (rows_where (λ c, status c = "denied") s) ∧
  denial_total_amount (denial_stats ctx) =
    or_zero (Sum ((λ r, billed_amount r.2) <$> rows_where (λ c, status c = "denied") s)).
Proof.
  unfold dashboard. cbv zeta.
  destruct (if truthy _ && truthy _ then _ else _) as [e | u] eqn:Hu; [done |].
  cbv [mbind result_bind ret]. by intros [= <-].
Qed.



(** A claim with a status code falls in exactly one of the five counts. *)
Lemma status_partition (l : list (Z * Claim)) :
  Forall (λ r, status r.2 ∈ status_codes) l →
  (length (filter (λ r, status r.2 = "pending") l) +
   length (filter (λ r, status r.2 = "approved") l) +
   length (filter (λ r, status r.2 = "denied") l) +
   length (filter (λ r, status r.2 = "processing") l) +
   length (filter (λ r, status r.2 = "review") l) = length l)%nat.
Proof.
  induction 1 as [| r l Hr Hl IH]; [done |].
  rewrite !filter_cons. unfold status_codes, STATUS_CHOICES in Hr. simpl in Hr.
  repeat (apply elem_of_cons in Hr as [-> | Hr];
          [repeat case_decide; try done; simpl; lia |]).
  by apply elem_of_nil in Hr.
Qed.

(** X11: in a store whose claims all have one of the status codes and
    amounts that fit the amount column, the five counts of the status
    breakdown add up to the number of claims, and the count of the denied
    claims is the count of the denial figures. *)
Theorem dashboard_status_counts_total (s : Store) (ctx : context) :
  amounts_fit s = true →
  statuses_valid s →
  dashboard s = inr ctx →
  ∃ pending approved denied processing review : nat,
    status_counts ctx !! "Pending" = Some pending ∧
    status_counts ctx !! "Approved" = Some approved ∧
    status_counts ctx !! "Denied" = Some denied ∧
    status_counts ctx !! "Processing" = Some processing ∧
    status_counts ctx !! "Under Review" = Some review ∧
    (pending + approved + denied + processing + review = total_claims ctx)%nat ∧
    denied = denial_count (denial_stats ctx).
Proof.
  intros _ Hvalid Hctx.
  destruct (dashboard_inr s ctx Hctx) as (-> & _).
  destruct (dashboard_figures s ctx Hctx) as (-> & _ & _ & _ & _ & -> & _).
  do 5 eexists.
  split; [exact (count_statuses_lookup s ("pending", "Pending")
                   ltac:(unfold STATUS_CHOICES; repeat constructor)) |].
  split; [exact (count_statuses_lookup s ("approved", "Approved")
                   ltac:(unfold STATUS_CHOICES; repeat constructor)) |].
  split; [exact (count_statuses_lookup s ("denied", "Denied")
                   ltac:(unfold STATUS_CHOICES; repeat constructor)) |].
  split; [exact (count_statuses_lookup s ("processing", "Processing")
                   ltac:(unfold STATUS_CHOICES; repeat constructor)) |].
  split; [exact (count_statuses_lookup s ("review", "Under Review")
                   ltac:(unfold STATUS_CHOICES; repeat constructor)) |].
  split; [| done]. cbn [fst].
  unfold rows_where. apply status_partition.
  apply Forall_forall. intros [id c] Hin. apply elem_of_map_to_list in Hin.
  by apply (Hvalid id).
Qed.

Lemma dashboard_status_counts_total_witness :
  ∃ ctx, dashboard flagged_store = inr ctx ∧
         ∃ pending approved denied processing review : nat,
           status_counts ctx !! "Pending" = Some pending ∧
           status_counts ctx !! "Approved" = Some approved ∧
           status_counts ctx !! "Denied" = Some denied ∧
           status_counts ctx !! "Processing" = Some processing ∧
           status_counts ctx !! "Under Review" = Some review ∧
           (pending + approved + denied + processing + review = total_claims ctx)%nat ∧
           denied = denial_count (denial_stats ctx).
Proof.
  destruct (dashboard_returns flagged_store) as [ctx Hctx]. exists ctx.
  split; [exact Hctx |].
  apply (dashboard_status_counts_total flagged_store ctx);
    [vm_compute; reflexivity | | exact Hctx].
  intros id c Hc. unfold flagged_store in Hc. cbn [claims] in Hc.
  apply lookup_singleton_Some in Hc as [_ <-].
  apply (bool_decide_unpack _). vm_compute. exact I.
Defined.




(** ** The ranking of the insurers *)



Global Instance count_ge_transitive {A} (count : A → nat) : Transitive (count_ge count).
Proof. unfold count_ge. intros x y z. lia. Qed.

Global Instance count_ge_total {A} (count : A → nat) : Total (count_ge count).
Proof. unfold count_ge. intros x y. lia. Qed.




Lemma elem_of_take {A} (l : list A) k x : x ∈ take k l → x ∈ l.
Proof. intros Hx. eapply elem_of_sublist; [exact Hx | apply sublist_take]. Qed.



(** ** Changing the status of a claim *)

Lemma status_dict_codes code : is_Some (status_dict !! code) ↔ code ∈ status_codes.
Proof.
  unfold status_dict, status_codes, STATUS_CHOICES. cbn [list_to_map foldr fmap list_fmap fst].
  split.
  - intros [name Hname]. revert Hname.
    repeat (rewrite lookup_insert_Some; intros [[<- _] | [_ Hname]];
            [by apply (bool_decide_unpack _) | revert Hname]).
    by rewrite lookup_empty.
  - intros Hin.
    repeat (apply elem_of_cons in Hin as [-> | Hin]; [by eexists |]).
    by apply elem_of_nil in Hin.
Qed.

(** X14: on a store whose amounts fit the amount column,
    [update_status] keeps status codes valid and touches neither the
    details nor any other claim.  Either it changes nothing and answers no
    status badge, or the request was a POST with one of the status codes
    for a stored claim: the claim then has this code, the user and the
    time of the save, its other fields are as before, and the badge shows
    the label of the code. *)
Theorem update_status_changes
    (now : timer) (method : string) (user : option Z) (claim_id : Z)
    (new_status : option string) (s : Store) :
  amounts_fit s = true →
  let s' := (update_status now method user claim_id new_status s).1 in
  let response := (update_status now method user claim_id new_status s).2 in
  (statuses_valid s → statuses_valid s') ∧
  details s' = details s ∧
  (∀ id, id ≠ claim_id → claims s' !! id = claims s !! id) ∧
  ((s' = s ∧ ∀ class name, response ≠ Status_badge class name) ∨
   (∃ code c c',
      method = "POST" ∧ new_status = Some code ∧ code ∈ status_codes ∧
      claims s !! claim_id = Some c ∧ claims s' !! claim_id = Some c' ∧
      status c' = code ∧ updated_by c' = user ∧ updated_at c' = now 0%nat ∧
      claim_exchanged c' = claim_exchanged c ∧ is_flagged c' = is_flagged c ∧
      created_at c' = created_at c ∧ created_by c' = created_by c ∧
      (code, get_status_display c') ∈ STATUS_CHOICES ∧
      ∃ class, response = Status_badge class (get_status_display c'))).
Proof.
  intros _. cbn zeta. unfold update_status.
  destruct (String.eqb_spec method "POST") as [-> | Hm]; cbn [negb];
    [| by repeat split; auto; left].
  destruct (claims s !! claim_id) as [c |] eqn:Hc; [| by repeat split; auto; left].
  destruct new_status as [code |]; [| by repeat split; auto; left].
  case_bool_decide as Hcode; [| by repeat split; auto; left].
  apply status_dict_codes in Hcode.
  unfold save. cbn [fst snd claims details].
  split; [| split; [done | split]].
  - unfold statuses_valid. cbn [claims].
    intros Hvalid id c'. destruct (decide (id = claim_id)) as [-> | Hne].
    + rewrite lookup_insert_eq. by intros [= <-].
    + rewrite lookup_insert_ne by done. apply Hvalid.
  - intros id Hne. by rewrite lookup_insert_ne.
  - right. eexists code, c, _. rewrite lookup_insert_eq.
    repeat (split; [done |]). split; [| by eexists].
    unfold get_status_display. cbn [status set_updated_at set_updated_by set_status].
    unfold status_codes, STATUS_CHOICES in Hcode. simpl in Hcode.
    repeat (apply elem_of_cons in Hcode as [-> | Hcode];
            [apply (bool_decide_unpack _); vm_compute; exact I |]).
    by apply elem_of_nil in Hcode.
Qed.

Lemma update_status_changes_witness :
  let s' := (update_status at_noon "POST" (Some 3) 7 (Some "denied") two_claims_store).1 in
  details s' = details two_claims_store ∧
  claims s' !! 8 = claims two_claims_store !! 8.
Proof.
  cbn zeta.
  destruct (update_status_changes at_noon "POST" (Some 3) 7 (Some "denied")
              two_claims_store ltac:(vm_compute; reflexivity))
    as (_ & Hd & Hother & _).
  split; [exact Hd | apply Hother; discriminate].
Defined.

Lemma update_status_post now user claim_id code s c :
  claims s !! claim_id = Some c → code ∈ status_codes →
  (update_status now "POST" user claim_id (Some code) s).1 =
  save (now 0%nat) claim_id (set_updated_by user (set_status code c)) s.
Proof.
  intros Hc Hcode. unfold update_status. cbn [String.eqb Ascii.eqb Bool.eqb negb].
  rewrite Hc. by rewrite bool_decide_eq_true_2 by (by apply status_dict_codes).
Qed.

(** The rows that pass a test, after one row was written anew. *)
Lemma rows_where_save (P : Claim → Prop) `{!∀ c, Decision (P c)} t s i c c' :
  claims s !! i = Some c →
  (length (rows_where P (save t i c' s)) + (if decide (P c) then 1 else 0) =
   length (rows_where P s) + (if decide (P (set_updated_at t c')) then 1 else 0))%nat.
Proof.
  intros Hc. unfold rows_where, save. cbn [claims].
  rewrite <- (insert_delete_eq (claims s)).
  rewrite (map_to_list_insert (delete i (claims s))) by apply lookup_delete_eq.
  rewrite <- (map_to_list_delete (claims s) i c Hc).
  rewrite !filter_cons. cbn [snd].
  repeat case_decide; cbn [length]; lia.
Qed.

Lemma length_save t s i c c' :
  claims s !! i = Some c →
  length (map_to_list (claims (save t i c' s))) = length (map_to_list (claims s)).
Proof.
  intros Hc. unfold save. cbn [claims].
  rewrite !length_map_to_list. by apply map_size_insert_Some.
Qed.

Lemma count_statuses_choice s code name :
  (code, name) ∈ STATUS_CHOICES →
  count_statuses s !! name = Some (length (rows_where (λ c, status c = code) s)).
Proof. exact (count_statuses_lookup s (code, name)). Qed.

(** X15: on a store whose amounts fit the amount column, after
    [update_status] has moved a claim to another status, the dashboard
    counts as many claims as before, one more for the new status, one less
    for the old, and as many as before for every other status. *)
Theorem update_status_dashboard
    (now : timer) (user : option Z) (claim_id : Z) (code name : string)
    (s : Store) (c : Claim) (ctx ctx' : context) :
  amounts_fit s = true →
  claims s !! claim_id = Some c →
  (code, name) ∈ STATUS_CHOICES →
  status c ≠ code →
  dashboard s = inr ctx →
  dashboard (update_status now "POST" user claim_id (Some code) s).1 = inr ctx' →
  total_claims ctx' = total_claims ctx ∧
  (∃ n, status_counts ctx !! name = Some n ∧
        status_counts ctx' !! name = Some (S n)) ∧
  (∀ old_name, (status c, old_name) ∈ STATUS_CHOICES →
     ∃ m, status_counts ctx !! old_name = Some (S m) ∧
          status_counts ctx' !! old_name = Some m) ∧
  (∀ other other_name, (other, other_name) ∈ STATUS_CHOICES →
     other ≠ code → other ≠ status c →
     status_counts ctx' !! other_name = status_counts ctx !! other_name).
Proof.
  intros _ Hc Hcode Hnew Hctx Hctx'.
  assert (Hin : code ∈ status_codes).
  { unfold status_codes. apply list_elem_of_fmap. by exists (code, name). }
  rewrite (update_status_post _ _ _ _ _ _ Hc Hin) in Hctx'.
  set (c' := set_updated_by user (set_status code c)) in *.
  destruct (dashboard_inr _ _ Hctx) as (-> & _).
  destruct (dashboard_inr _ _ Hctx') as (-> & _).
  destruct (dashboard_figures _ _ Hctx) as (-> & _).
  destruct (dashboard_figures _ _ Hctx') as (-> & _).
  assert (Hcount : ∀ k : string,
            (length (rows_where (λ x, status x = k) (save (now 0%nat) claim_id c' s)) +
               (if decide (status c = k) then 1 else 0) =
             length (rows_where (λ x, status x = k) s) +
               (if decide (code = k) then 1 else 0))%nat).
  { intros k.
    exact (rows_where_save (λ x, status x = k) (now 0%nat) s claim_id c c' Hc). }
  split; [by apply (length_save _ _ _ c) |]. split; [| split].
  - rewrite !(count_statuses_choice _ code name) by done.
    eexists. split; [done |]. f_equal.
    pose proof (Hcount code) as H. repeat case_decide; try congruence; lia.
  - intros old_name Hold.
    rewrite !(count_statuses_choice _ (status c) old_name) by done.
    pose proof (Hcount (status c)) as H.
    exists (length (rows_where (λ x, status x = status c)
                      (save (now 0%nat) claim_id c' s))).
    repeat case_decide; try congruence; split; f_equal; lia.
  - intros other other_name Hother Hne1 Hne2.
    rewrite !(count_statuses_choice _ other other_name) by done.
    pose proof (Hcount other) as H.
    repeat case_decide; try congruence; f_equal; lia.
Qed.

Lemma update_status_dashboard_witness :
  ∃ ctx ctx',
    dashboard two_claims_store = inr ctx ∧
    dashboard (update_status at_noon "POST" (Some 3) 7 (Some "denied")
                 two_claims_store).1 = inr ctx' ∧
    total_claims ctx' = total_claims ctx ∧
    ∃ n, status_counts ctx !! "Denied" = Some n ∧
         status_counts ctx' !! "Denied" = Some (S n).
Proof.
  destruct (dashboard_returns two_claims_store) as [ctx Hctx].
  destruct (dashboard_returns
              (update_status at_noon "POST" (Some 3) 7 (Some "denied")
                 two_claims_store).1) as [ctx' Hctx'].
  exists ctx, ctx'. split; [exact Hctx |]. split; [exact Hctx' |].
  assert (Hc : claims two_claims_store !! 7 = Some flagged_claim)
    by (vm_compute; reflexivity).
  assert (Hcode : ("denied", "Denied") ∈ STATUS_CHOICES)
    by (apply (bool_decide_unpack _); vm_compute; exact I).
  assert (Hnew : status flagged_claim ≠ "denied") by (vm_compute; discriminate).
  destruct (update_status_dashboard at_noon (Some 3) 7 "denied" "Denied"
              two_claims_store flagged_claim ctx ctx' ltac:(vm_compute; reflexivity)
              Hc Hcode Hnew Hctx Hctx')
    as (Htotal & Hcount & _).
  split; [exact Htotal | exact Hcount].
Defined.

(** ** Flagging a claim *)

Lemma open_flag_resolve claim_id user t f :
  open_flag_of claim_id (resolve user t f) = false.
Proof. unfold open_flag_of, resolve. cbn. apply andb_false_r. Qed.

(** X16: on a store whose amounts fit the amount column and with a free
    next key for a flag, a POST to [toggle_flag] for a stored claim flips
    the flag of the claim, and the claim is flagged afterwards exactly if
    it has a flag that is not resolved.  The other fields of the claim,
    the other claims, the details and the notes are untouched; every flag
    is kept, those of other claims unchanged; flagging adds one flag and
    unflagging none. *)
Theorem toggle_flag_flips
    (now : timer) (user : option Z) (claim_id : Z) (w : Site) (c : Claim) :
  amounts_fit (store w) = true →
  claims (store w) !! claim_id = Some c →
  flags w !! next_flag_id w = None →
  let w' := (toggle_flag now "POST" user claim_id w).1 in
  (∃ c', claims (store w') !! claim_id = Some c' ∧
         is_flagged c' = negb (is_flagged c) ∧
         (is_flagged c' = true ↔ has_open_flag w' claim_id) ∧
         updated_by c' = user ∧
         claim_exchanged c' = claim_exchanged c ∧ status c' = status c ∧
         created_at c' = created_at c ∧ created_by c' = created_by c) ∧
  (∀ id, id ≠ claim_id → claims (store w') !! id = claims (store w) !! id) ∧
  details (store w') = details (store w) ∧ notes w' = notes w ∧
  (∀ key f, flags w !! key = Some f →
     ∃ f', flags w' !! key = Some f' ∧
           flag_claim f' = flag_claim f ∧ flag_reason f' = flag_reason f ∧
           flagged_by f' = flagged_by f ∧ flag_created_at f' = flag_created_at f ∧
           (flag_claim f ≠ claim_id → f' = f)) ∧
  (size (flags w') = if is_flagged c then size (flags w) else S (size (flags w))).
Proof.
  intros _ Hc Hfresh. cbn zeta. unfold toggle_flag.
  cbn [String.eqb Ascii.eqb Bool.eqb negb]. rewrite Hc.
  destruct (is_flagged c) eqn:Hflag; unfold save;
    cbn [fst store claims details notes flags].
  - split; [| split; [| split; [done | split; [done | split]]]].
    + eexists. rewrite lookup_insert_eq. split; [done |].
      split; [done |]. split; [| done]. split; [done |].
      intros (key & f & Hf & Hopen). cbn [flags] in Hf.
      rewrite lookup_fmap in Hf.
      destruct (flags w !! key) as [f0 |]; [| done]. injection Hf as <-.
      destruct (open_flag_of claim_id f0) eqn:H0; [| congruence].
      by rewrite open_flag_resolve in Hopen.
    + intros id Hne. by rewrite lookup_insert_ne.
    + intros key f Hf. rewrite lookup_fmap, Hf. eexists. split; [done |].
      destruct (open_flag_of claim_id f) eqn:Hopen; [| done].
      repeat (split; [done |]). intros Hne.
      unfold open_flag_of in Hopen. apply andb_true_iff in Hopen as [Heq _].
      by apply bool_decide_eq_true in Heq.
    + by rewrite map_size_fmap.
  - split; [| split; [| split; [done | split; [done | split]]]].
    + eexists. rewrite lookup_insert_eq. split; [done |].
      split; [done |]. split; [| done]. split; [| done]. intros _.
      eexists (next_flag_id w), _. cbn [flags]. rewrite lookup_insert_eq.
      split; [done |]. unfold open_flag_of. cbn.
      by rewrite bool_decide_eq_true_2.
    + intros id Hne. by rewrite lookup_insert_ne.
    + intros key f Hf. exists f. rewrite lookup_insert_ne by congruence. done.
    + by rewrite map_size_insert_None.
Qed.

Lemma toggle_flag_flips_witness :
  let w' := (toggle_flag at_noon "POST" None 8 two_claims_site).1 in
  size (flags w') = 1%nat ∧
  ∃ c', claims (store w') !! 8 = Some c' ∧ is_flagged c' = true.
Proof.
  cbn zeta.
  destruct (toggle_flag_flips at_noon None 8 two_claims_site approved_claim
              ltac:(vm_compute; reflexivity) ltac:(vm_compute; reflexivity)
              ltac:(reflexivity))
    as ((c' & Hc' & Hf & _) & _ & _ & _ & _ & Hsize).
  split; [exact Hsize |]. exists c'. split; [exact Hc' | exact Hf].
Defined.

(** ** Adding a note *)

(** X17: on a store whose amounts fit the amount column, [add_note]
    touches neither the record store nor the flags.  Either it stores
    nothing and answers no note, or the request was a POST of an
    authenticated user for a stored claim: one note is added under the
    next key, for this claim and this user, whose content is the submitted
    text without the white space around it, and is not empty. *)
Theorem add_note_stores
    (now : timer) (method : string) (user : option Z) (claim_id : Z)
    (post_content : option string) (w : Site) :
  amounts_fit (store w) = true →
  let w' := (add_note now method user claim_id post_content w).1 in
  let response := (add_note now method user claim_id post_content w).2 in
  store w' = store w ∧ flags w' = flags w ∧
  ((w' = w ∧ ∀ note, response ≠ Note_item note) ∨
   (∃ note user_id,
      response = Note_item note ∧
      notes w' = <[next_note_id w := note]> (notes w) ∧
      next_note_id w' = next_note_id w + 1 ∧
      method = "POST" ∧ is_Some (claims (store w) !! claim_id) ∧
      user = Some user_id ∧ note_created_by note = user_id ∧
      note_claim note = claim_id ∧
      content note ≠ "" ∧
      trimmed (list_ascii_of_string (content note)) = true ∧
      list_ascii_of_string (content note) =
        strip (list_ascii_of_string (default "" post_content)))).
Proof.
  intros _. cbn zeta. unfold add_note.
  destruct (String.eqb_spec method "POST") as [-> | Hm]; cbn [negb];
    [| by repeat split; auto; left].
  destruct (claims (store w) !! claim_id) as [c |] eqn:Hc;
    [| by repeat split; auto; left].
  destruct user as [user_id |]; [| by repeat split; auto; left].
  destruct (String.eqb_spec
              (string_of_list_ascii
                 (strip (list_ascii_of_string (default "" post_content)))) "")
    as [Hempty | Hfull]; cbn [negb fst snd store flags notes next_note_id];
    [by repeat split; auto; left |].
  split; [done |]. split; [done |]. right.
  eexists _, user_id. repeat (split; [done |]). cbn [content].
  rewrite list_ascii_of_string_of_list_ascii.
  split; [apply strip_trimmed | done].
Qed.

Lemma add_note_stores_witness :
  let w' := (add_note at_noon "POST" (Some 3) 7 (Some " seen ") two_claims_site).1 in
  store w' = store two_claims_site ∧ flags w' = flags two_claims_site.
Proof.
  cbn zeta.
  destruct (add_note_stores at_noon "POST" (Some 3) 7 (Some " seen ") two_claims_site
              ltac:(vm_compute; reflexivity)) as (Hs & Hf & _).
  split; [exact Hs | exact Hf].
Defined.

(** ** Looking at a claim *)

(** X18: on a store whose amounts fit the amount column, [claim_detail]
    on a stored claim shows the claim and its detail, which is stored
    afterwards: a detail that was stored is shown as it is and nothing
    changes, a claim without one is given a detail with no codes and no
    reason under the next key.  Claims, notes, flags and the details of
    other claims are untouched, and a second request changes nothing
    more. *)
Theorem claim_detail_creates (now : timer) (claim_id : Z) (w : Site) (c : Claim) :
  amounts_fit (store w) = true →
  claims (store w) !! claim_id = Some c →
  let w' := (claim_detail now claim_id w).1 in
  ∃ ctx d,
    (claim_detail now claim_id w).2 = Some ctx ∧
    ctx_claim ctx = c ∧ ctx_claim_detail ctx = d ∧
    details (store w') !! claim_id = Some d ∧
    claims (store w') = claims (store w) ∧
    notes w' = notes w ∧ flags w' = flags w ∧
    (∀ id, id ≠ claim_id → details (store w') !! id = details (store w) !! id) ∧
    match details (store w) !! claim_id with
    | Some stored => d = stored ∧ w' = w
    | None =>
        cpt_codes d = "" ∧ denial_reason d = None ∧ get_cpt_codes_list d = [] ∧
        detail_id d = next_detail_id (store w)
    end ∧
    ∀ now', (claim_detail now' claim_id w').1 = w'.
Proof.
  intros _ Hc. cbn zeta. unfold claim_detail, get_or_create. rewrite Hc.
  destruct (details (store w) !! claim_id) as [stored |] eqn:Hd;
    cbn [fst snd with_store store claims details notes flags].
  - eexists _, stored. repeat (split; [done |]).
    split; [split; [done | by destruct w] |].
    intros now'. by rewrite Hc, Hd.
  - eexists _, _. split; [done |]. split; [done |]. split; [done |].
    cbn [ctx_claim_detail].
    split; [apply lookup_insert_eq |]. split; [done |]. split; [done |].
    split; [done |].
    split; [intros id Hne; by rewrite lookup_insert_ne |].
    split; [done |].
    intros now'. by rewrite Hc, lookup_insert_eq.
Qed.

Lemma claim_detail_creates_witness :
  let w' := (claim_detail at_noon 8 two_claims_site).1 in
  ∃ d, details (store w') !! 8 = Some d ∧ get_cpt_codes_list d = [] ∧
       (claim_detail at_noon 8 w').1 = w'.
Proof.
  cbn zeta.
  destruct (claim_detail_creates at_noon 8 two_claims_site approved_claim
              ltac:(vm_compute; reflexivity) ltac:(vm_compute; reflexivity))
    as (ctx & d & _ & _ & _ & Hd & _ & _ & _ & _ & Hnew & Hidem).
  exists d. split; [exact Hd |]. split; [exact (proj1 (proj2 (proj2 Hnew))) |].
  exact (Hidem at_noon).
Defined.

(** ** Searching *)

Lemma starts_with_spec p l : starts_with p l = true ↔ ∃ after, l = p ++ after.
Proof.
  revert l. induction p as [| a p IH]; intros l; simpl.
  - split; [by exists l | done].
  - destruct l as [| b l]; [split; [done | by intros [? [=]]] |].
    rewrite andb_true_iff, Ascii.eqb_eq, IH. split.
    + intros [-> [after ->]]. by exists after.
    + intros [after [= -> ->]]. split; [done | by exists after].
Qed.

Lemma contains_spec p l :
  contains p l = true ↔ ∃ before after, l = before ++ p ++ after.
Proof.
  induction l as [| b l IH]; cbn [contains]; rewrite orb_true_iff, starts_with_spec.
  - split.
    + intros [[after ->] | ?]; [by exists [], after | done].
    + intros (before & after & H). left. exists after.
      destruct before; [done | discriminate].
  - rewrite IH. split.
    + intros [[after ->] | (before & after & ->)]; [by exists [], after |].
      by exists (b :: before), after.
    + intros (before & after & H). destruct before as [| b' before].
      * left. by exists after.
      * right. injection H as -> ->. by exists before, after.
Qed.

Lemma icontains_occurs text query : icontains text query = true ↔ occurs query text.
Proof. apply contains_spec. Qed.

Lemma search_hit_occurs query r :
  search_hit query r = true ↔
  occurs query (patient_name r.2) ∨ occurs query (insurer_name r.2) ∨
  occurs query (str_int r.1).
Proof.
  unfold search_hit. rewrite !orb_true_iff, !icontains_occurs. tauto.
Qed.

Lemma List_filter_sublist {A} (f : A → bool) (l : list A) :
  sublist (List.filter f l) l.
Proof.
  induction l as [| a l IH]; simpl; [constructor |].
  destruct (f a); by constructor.
Qed.

(** X19: on a store whose amounts fit the amount column,
    [search_claims] answers with at most ten claims and with none for a
    query of less than two characters once stripped; every hit is a stored
    claim in whose patient name, insurer name or id the query occurs, the
    case of the letters left aside; with fewer than ten hits, every such
    claim is among them; no claim comes twice. *)
Theorem search_claims_hits (q : option string) (s : Store) :
  amounts_fit s = true →
  let query := string_of_list_ascii (strip (list_ascii_of_string (default "" q))) in
  let hits := search_claims q s in
  let found (r : Z * Claim) :=
    occurs query (patient_name r.2) ∨ occurs query (insurer_name r.2) ∨
    occurs query (str_int r.1) in
  (length hits ≤ 10)%nat ∧
  ((String.length query < 2)%nat → hits = []) ∧
  (∀ r, r ∈ hits → claims s !! r.1 = Some r.2 ∧ found r) ∧
  ((length hits < 10)%nat → (2 ≤ String.length query)%nat →
   ∀ id c, claims s !! id = Some c → found (id, c) → (id, c) ∈ hits) ∧
  NoDup hits.*1.
Proof.
  intros _. cbn zeta. unfold search_claims.
  set (query := string_of_list_ascii (strip (list_ascii_of_string (default "" q)))).
  destruct (Nat.ltb_spec (String.length query) 2) as [Hshort | Hlong].
  - split; [simpl; lia |]. split; [done |].
    split; [by intros r Hr%elem_of_nil |]. split; [intros; lia | constructor].
  - set (all := List.filter (search_hit query) (all_claims s)).
    assert (Hall : ∀ r, r ∈ all ↔ r ∈ map_to_list (claims s) ∧ search_hit query r = true).
    { intros r. unfold all. rewrite list_elem_of_In, filter_In, <- list_elem_of_In.
      by rewrite all_claims_listing. }
    split; [rewrite length_take; lia |]. split; [intros; lia |]. split; [| split].
    + intros [id c] Hr%elem_of_take%Hall. destruct Hr as [Hin Hhit].
      split; [by apply elem_of_map_to_list | by apply search_hit_occurs].
    + intros Hfew _ id c Hc Hfound.
      rewrite take_ge; [apply Hall; split; [by apply elem_of_map_to_list |
                                            by apply search_hit_occurs] |].
      rewrite length_take in Hfew. lia.
    + eapply sublist_NoDup; [| apply fmap_sublist, sublist_take].
      eapply sublist_NoDup; [| apply fmap_sublist, List_filter_sublist].
      rewrite all_claims_listing. apply NoDup_fst_map_to_list.
Qed.

Lemma search_claims_hits_witness :
  let hits := search_claims (Some " ACME ") two_claims_store in
  (length hits ≤ 10)%nat ∧
  ∀ id c, claims two_claims_store !! id = Some c → (id, c) ∈ hits.
Proof.
  cbn zeta.
  destruct (search_claims_hits (Some " ACME ") two_claims_store
              ltac:(vm_compute; reflexivity)) as (Hlen & _ & _ & Hall & _).
  split; [exact Hlen |]. intros id c Hc.
  apply Hall; [vm_compute; lia | vm_compute; lia | exact Hc |].
  right; left. unfold two_claims_store in Hc. cbn [claims] in Hc.
  apply lookup_insert_Some in Hc as [[_ <-] | [_ Hc]];
    [| apply lookup_singleton_Some in Hc as [_ <-]];
    by exists [], [].
Defined.

(** ** The pages of the claim list *)

Lemma num_pages_bounds count :
  0 ≤ count →
  1 ≤ paginator_num_pages count ∧
  count ≤ 25 * paginator_num_pages count ∧
  25 * (paginator_num_pages count - 1) < Z.max 1 count.
Proof.
  intros Hc. unfold paginator_num_pages, per_page. cbv zeta.
  pose proof (Z.div_mod (Z.max 1 count + 25 - 1) 25 ltac:(lia)) as Hd.
  pose proof (Z.mod_pos_bound (Z.max 1 count + 25 - 1) 25 ltac:(lia)) as Hm.
  lia.
Qed.

Lemma paginator_page_slice (rows : list (Z * Claim)) n :
  1 ≤ n →
  object_list (paginator_page rows n) =
  take 25 (drop (25 * (Z.to_nat n - 1)) rows).
Proof.
  intros Hn. unfold paginator_page, per_page. cbn [object_list].
  replace (Z.to_nat ((n - 1) * 25)) with (25 * (Z.to_nat n - 1))%nat by lia.
  set (rest := drop (25 * (Z.to_nat n - 1)) rows).
  assert (Hrest : length rest = (length rows - 25 * (Z.to_nat n - 1))%nat)
    by (subst rest; apply length_drop).
  destruct (Z.leb_spec (Z.of_nat (length rows)) ((n - 1) * 25 + 25)) as [Hlast | Hmore].
  - destruct (decide (length rest = 0)%nat) as [Hnil | Hsome].
    + apply nil_length_inv in Hnil. rewrite Hnil. by rewrite !take_nil.
    + rewrite !take_ge by lia. done.
  - by replace (Z.to_nat ((n - 1) * 25 + 25 - (n - 1) * 25)) with 25%nat by lia.
Qed.

Lemma get_page_number (rows : list (Z * Claim)) (number_text : option string) :
  let p := get_page rows number_text in
  1 ≤ number p ≤ num_pages p ∧
  num_pages p = paginator_num_pages (Z.of_nat (length rows)) ∧
  (∀ n, int number_text = inr n → 1 ≤ n ≤ num_pages p → number p = n).
Proof.
  cbn zeta. unfold get_page, validate_number.
  destruct (num_pages_bounds (Z.of_nat (length rows)) ltac:(lia)) as (H1 & _).
  destruct (int number_text) as [e | n]; cbn [paginator_page number num_pages].
  - split; [lia |]. split; [done | by intros ? [=]].
  - destruct (Z.ltb_spec n 1); [cbn [paginator_page number num_pages];
                                split; [lia |]; split; [done |];
                                intros ? [= <-]; lia |].
    destruct (Z.ltb_spec (paginator_num_pages (Z.of_nat (length rows))) n);
      cbn [paginator_page number num_pages].
    + split; [lia |]. split; [done |]. intros ? [= <-]. lia.
    + split; [lia |]. split; [done |]. by intros ? [= <-].
Qed.


Lemma get_page_slice (rows : list (Z * Claim)) (number_text : option string) :
  object_list (get_page rows number_text) =
  take 25 (drop (25 * (Z.to_nat (number (get_page rows number_text)) - 1)) rows).
Proof.
  unfold get_page, validate_number.
  destruct (num_pages_bounds (Z.of_nat (length rows)) ltac:(lia)) as (H1 & _).
  destruct (int number_text) as [e | n]; [by apply paginator_page_slice |].
  destruct (Z.ltb_spec n 1); [by apply paginator_page_slice |].
  destruct (Z.ltb_spec (paginator_num_pages (Z.of_nat (length rows))) n);
    by apply paginator_page_slice.
Qed.



Lemma concat_slices {A} (rows : list A) (pages : nat) :
  concat ((λ n, take 25 (drop (25 * (n - 1)) rows)) <$> seq 1 pages) =
  take (25 * pages) rows.
Proof.
  induction pages as [| pages IH]; [done |].
  rewrite seq_S, fmap_app, concat_app, IH. cbn [fmap list_fmap concat].
  rewrite app_nil_r. replace (1 + pages - 1)%nat with pages by lia.
  rewrite take_take_drop. f_equal. lia.
Qed.

(** X21: on a store whose amounts fit the amount column, the pages of
    [claim_list], from the first to the last, put one after the other give
    the filtered claims in their order, each once. *)
Theorem claim_list_pages
    (search_param status_param flagged_param : option string) (s : Store) :
  amounts_fit s = true →
  let rows :=
    claim_list_rows (default "" search_param) (default "" status_param)
      (default "" flagged_param) s in
  let pages := Z.to_nat (paginator_num_pages (Z.of_nat (length rows))) in
  concat
    ((λ n, object_list
             (page_obj (claim_list search_param status_param flagged_param
                          (Some (str_int (Z.of_nat n))) s)))
       <$> seq 1 pages) = rows.
Proof.
  intros _. cbn zeta. unfold claim_list. cbn [page_obj].
  set (rows := claim_list_rows _ _ _ s).
  destruct (num_pages_bounds (Z.of_nat (length rows)) ltac:(lia)) as (H1 & H2 & _).
  rewrite <- (take_ge rows (25 * Z.to_nat (paginator_num_pages (Z.of_nat (length rows)))))
    at 2 by lia.
  rewrite <- concat_slices. f_equal. apply list_fmap_ext.
  intros i n Hn. apply lookup_seq in Hn as [-> Hi].
  rewrite get_page_slice. do 3 f_equal.
  destruct (get_page_number rows (Some (str_int (Z.of_nat (1 + i)))))
    as (_ & Hpages & Hint).
  rewrite (Hint (Z.of_nat (1 + i))); [lia | apply int_str_int | lia].
Qed.

Lemma claim_list_pages_witness :
  object_list (page_obj (claim_list None None (Some "true") (Some "1") two_claims_store)) =
  claim_list_rows "" "" "true" two_claims_store.
Proof.
  pose proof (claim_list_pages None None (Some "true") two_claims_store
                ltac:(vm_compute; reflexivity)) as H.
  cbn zeta in H. cbn [default from_option id] in H.
  change (Z.to_nat (paginator_num_pages
            (Z.of_nat (length (claim_list_rows "" "" "true" two_claims_store)))))
    with 1%nat in H.
  cbn [seq fmap list_fmap concat] in H. rewrite app_nil_r in H. exact H.
Defined.

(** ** Uploading what was exported *)

Lemma check_rows_width file expected i (rows : list (list string)) :
  Forall (λ row, length row = expected) rows → check_rows file expected i rows = [].
Proof.
  intros Hrows. revert i. induction Hrows as [| row rows Hrow _ IH]; intros i; [done |].
  cbn [check_rows]. rewrite Hrow, Nat.eqb_refl, IH. by destruct (3 <=? i)%nat.
Qed.

Lemma count_lines_line l rest in_line :
  forallb no_line_end l = true →
  count_lines in_line (l ++ Csv.LF :: rest) = 1 + count_lines false rest.
Proof.
  revert in_line. induction l as [| c l IH]; intros in_line; simpl.
  - done.
  - intros [Hc Hl]%andb_true_iff. unfold no_line_end in Hc.
    apply andb_true_iff in Hc as [Hc _]. apply negb_true_iff in Hc.
    rewrite Hc. by apply IH.
Qed.

(** The number of lines of a file of joined rows of plain fields. *)
Lemma line_count_rows (rows : list (list string)) :
  Forall (λ fs, Forall (λ f, plain f = true) fs ∧ (2 ≤ length fs)%nat) rows →
  line_count (body ((λ fs, join "|" fs +:+ newline) <$> rows)) = Z.of_nat (length rows).
Proof.
  intros Hrows. unfold line_count.
  induction Hrows as [| fs rows [Hfs Hlen] Hrows IH]; [done |].
  cbn [fmap list_fmap body foldr].
  fold (list_fmap _ _ (λ fs, join "|" fs +:+ newline) rows).
  change (list_ascii_of_string ?s) with (chars s).
  rewrite !chars_append. cbn [chars list_ascii_of_string newline].
  rewrite <- app_assoc. cbn [app].
  assert (Hne : fs ≠ []) by (destruct fs; simpl in Hlen; [lia | done]).
  destruct (line_of_fields fs Hfs Hne) as (H1 & _ & _).
  rewrite universal_newlines_app, count_lines_line by done.
  change (list_ascii_of_string ?s) with (chars s) in IH.
  unfold body in IH. rewrite IH. cbn [length]. lia.
Qed.

Lemma export_claims_table s :
  exchangeable s = true →
  Forall (λ fs, Forall (λ f, plain f = true) fs ∧ (2 ≤ length fs)%nat)
         (expected_claims_headers :: (claim_fields <$> all_claims s)).
Proof.
  intros [Hc _]%exchangeable_spec.
  constructor; [apply header_rows_plain |].
  apply Forall_fmap. eapply Forall_impl; [exact Hc |].
  intros r Hr. by apply exchangeable_claim_fields.
Qed.

Lemma export_details_table s :
  exchangeable s = true →
  Forall (λ fs, Forall (λ f, plain f = true) fs ∧ (2 ≤ length fs)%nat)
         (expected_details_headers :: (detail_fields <$> all_details s)).
Proof.
  intros [_ Hd]%exchangeable_spec.
  constructor; [apply header_rows_plain |].
  apply Forall_fmap. eapply Forall_impl; [exact Hd |].
  intros r Hr. by apply (exchangeable_detail_fields s).
Qed.

Lemma validate_exports s :
  exchangeable s = true →
  validate_csv_files (export_csv None s) (export_csv (Some "details") s) = [].
Proof.
  intros Hex. unfold validate_csv_files, validate_file.
  rewrite export_claims_rows, export_details_rows.
  rewrite !reader_rows by (by apply export_claims_table || by apply export_details_table).
  rewrite !decide_True by done. cbn [app].
  rewrite !check_rows_width; [done | |]; apply Forall_fmap, Forall_true; by intros [??].
Qed.

(** The command ends well on the two exports of a store, whatever it finds
    stored. *)
Lemma handle_exports now1 now2 s (clear : bool) target :
  exchangeable s = true →
  outcome (handle now1 now2 (Some (export_csv None s))
             (Some (export_csv (Some "details") s)) clear target) = ret ().
Proof.
  intros Hex. unfold handle, import_claims, import_claim_details.
  cbv beta iota zeta.
  rewrite DictReader_export_claims, DictReader_export_details by done.
  destruct (exchangeable_spec s Hex) as [Hc Hd].
  set (start := if clear then clear_all target else target).
  lazymatch goal with
  | |- context [import_claims_rows now1 _ ?ix ?bx ?nx ?sx ?ox] =>
      pose proof (import_claims_rows_all reloaded_claim
                    (λ r, Csv.make_row expected_claims_headers (claim_fields r))
                    now1 (all_claims s) ix bx nx sx ox) as Hrun
  end.
  destruct Hrun as (cs & Hcs & Hdb1 & Hout1).
  { intros i x Hx. apply new_claim_exported.
    by apply (proj1 (Forall_forall _ _) Hc). }
  rewrite Hout1, Hdb1. unfold ret. cbv beta iota. cbn [app].
  assert (Hclaims : ∀ id, is_Some (claims s !! id) →
                          is_Some (claims (bulk_create_claims cs start) !! id)).
  { intros id [c Hid].
    pose proof (bulk_create_claims_exchanged cs start) as Hmap.
    apply (f_equal (λ m, m !! id)) in Hmap.
    rewrite lookup_fmap, lookup_union, lookup_fmap in Hmap.
    rewrite (reloaded_claims_exchanged _ _ Hcs) in Hmap.
    rewrite (list_to_map_listing claim_exchanged (claims s) (all_claims s)
               (all_claims_listing s)), lookup_fmap, Hid in Hmap.
    destruct (claims (bulk_create_claims cs start) !! id); [done |].
    by destruct (claims start !! id). }
  lazymatch goal with
  | |- context [import_claim_details_rows now2 _ ?ix ?bx ?nx ?sx ?ox] =>
      pose proof (import_claim_details_rows_all reloaded_detail
                    (λ r, Csv.make_row expected_details_headers (detail_fields r))
                    now2 (all_details s) ix bx nx sx ox) as Hrun
  end.
  destruct Hrun as (ds & Hds & Hdb2 & Hout2).
  { intros i x s' Hx Hs'. apply new_claim_detail_exported.
    pose proof (proj1 (Forall_forall _ _) Hd x Hx) as (Hsome & _)%exchangeable_detail_spec.
    rewrite Hs'. by apply Hclaims. }
  by rewrite Hout2.
Qed.

(** X22: uploading the two exports of a store that the exchange format
    can carry, under names that end in [.csv] and with the mode
    [overwrite], to a site whose amounts fit the amount column, passes the
    validation, calls the command once, with [clear], and leads to the
    dashboard with the message that reports the numbers of claims and
    details of the exported store. *)
Theorem upload_of_export
    (now_claims now_details : clock) (claims_name details_name : string)
    (s target : Store) :
  exchangeable s = true → amounts_fit target = true →
  endswith claims_name ".csv" = true → endswith details_name ".csv" = true →
  let r := handle_csv_upload now_claims now_details
             (Some {| upload_name := claims_name; upload_content := export_csv None s |})
             (Some {| upload_name := details_name;
                      upload_content := export_csv (Some "details") s |})
             (Some "overwrite") target in
  location r = To_dashboard ∧
  messages r = [Imported_overwrote (Z.of_nat (size (claims s)))
                                   (Z.of_nat (size (details s)))] ∧
  calls r = [{| call_claims_file := export_csv None s;
                call_details_file := export_csv (Some "details") s;
                call_clear := true |}].
Proof.
  intros Hex _ Hn1 Hn2. cbn zeta. unfold handle_csv_upload.
  cbn [upload_name upload_content default from_option id]. rewrite Hn1, Hn2.
  cbn [andb negb]. rewrite validate_exports by done.
  change (String.eqb "overwrite" "overwrite") with true.
  rewrite handle_exports by done. unfold ret.
  cbn [location messages calls]. split; [done |]. split; [| done].
  rewrite export_claims_rows, export_details_rows.
  rewrite !line_count_rows by (by apply export_claims_table || by apply export_details_table).
  cbn [length]. rewrite !length_fmap, length_all_claims, length_all_details.
  do 2 f_equal; f_equal; lia.
Qed.

Lemma upload_of_export_witness :
  let r := handle_csv_upload still still
             (Some {| upload_name := "claims.csv";
                      upload_content := export_csv None flagged_store |})
             (Some {| upload_name := "details.csv";
                      upload_content := export_csv (Some "details") flagged_store |})
             (Some "overwrite") two_claims_store in
  location r = To_dashboard ∧ messages r = [Imported_overwrote 1 1].
Proof.
  cbn zeta.
  destruct (upload_of_export still still "claims.csv" "details.csv" flagged_store
              two_claims_store ltac:(vm_compute; reflexivity)
              ltac:(vm_compute; reflexivity) ltac:(vm_compute; reflexivity)
              ltac:(vm_compute; reflexivity)) as (Hloc & Hmsg & _).
  split; [exact Hloc | exact Hmsg].
Defined.
